(** * DML resolution of the SQL resolver (edb/pgsql/resolver/command.py)

    A shallow embedding of the data-modification half of the resolver:
    column selection, the value-relation normaliser, the DML preprocessor,
    the batch compiler's CTE partition and the wiring of a resolved
    [InsertStmt].  Python objects become records, exceptions become the
    [Raise] branch of [Result], and the resolver context is threaded
    explicitly through the monad [M]. *)

From stdpp Require Import base option list gmap strings pretty sorting.
From Stdlib Require Import ZArith Lia.

Open Scope string_scope.
Open Scope list_scope.

(** ** Exceptions *)

(** [pgerror.ERROR_*] codes passed as [pgext_code]. *)
Inductive PgExtCode :=
| ERROR_FEATURE_NOT_SUPPORTED
| ERROR_DATA_EXCEPTION.

(** Source positions are opaque to the resolver. *)
Definition Span := nat.

Inductive Exception :=
| QueryError (msg : string) (span : option Span) (pgext_code : option PgExtCode)
| AssertionError (msg : string)
| IndexError
| KeyError
| NotImplementedError (msg : string).

Inductive Result (A : Type) :=
| Ok (a : A)
| Raise (e : Exception).
Arguments Ok {A} a.
Arguments Raise {A} e.

#[global] Instance Result_ret : MRet Result := fun A a => Ok a.
#[global] Instance Result_bind : MBind Result := fun A B k r =>
  match r with
  | Ok a => k a
  | Raise e => Raise e
  end.

Definition is_query_error {A} (r : Result A) : bool :=
  match r with
  | Raise (QueryError _ _ _) => true
  | _ => false
  end.

(** ** Insertion-ordered dictionaries

    A Python [dict] whose iteration order is observed ([path_outputs],
    [output_namespace]) is an association list: assignment to an existing
    key replaces the value in place, a fresh key is appended. *)

Section Dict.
Context {K V : Type} `{EqDecision K}.

Fixpoint dict_get (k : K) (d : list (K * V)) : option V :=
  match d with
  | [] => None
  | (k', v) :: d' => if decide (k' = k) then Some v else dict_get k d'
  end.

Fixpoint dict_set (k : K) (v : V) (d : list (K * V)) : list (K * V) :=
  match d with
  | [] => [(k, v)]
  | (k', v') :: d' =>
      if decide (k' = k) then (k, v) :: d' else (k', v') :: dict_set k v d'
  end.
End Dict.

(** ** Schema objects and path identifiers *)

(** [sn.QualName(module, name)]. *)
Record QualName := mkQualName { qn_module : string; qn_name : string }.
#[global] Instance QualName_eq_dec : EqDecision QualName.
Proof. solve_decision. Defined.

(** The three kinds of subject an [INSERT] can target, and whatever else
    [schema.get_by_id] may return.  A pointer is a link or a property. *)
Inductive SchemaObject :=
| ObjectType (id : nat)
| Link (id : nat)
| Property (id : nat)
| OtherObject (id : nat).
#[global] Instance SchemaObject_eq_dec : EqDecision SchemaObject.
Proof. solve_decision. Defined.

Definition is_pointer (o : SchemaObject) : bool :=
  match o with
  | Link _ | Property _ => true
  | _ => false
  end.

(** Modelled from the spec: [pgce.PathAspect] is declared outside command.py.
    An aspect is one of identity, value, serialized, iterator; it is a
    string enum, so the literals ['serialized'], ['value'] and ['identity']
    used as dictionary keys are its members. *)
Inductive PathAspect := IDENTITY | VALUE | SERIALIZED | ITERATOR.
#[global] Instance PathAspect_eq_dec : EqDecision PathAspect.
Proof. solve_decision. Defined.

(** Modelled from the spec: [irast.PathId] is defined outside command.py.
    A path starts at a type ([from_type]), is extended one pointer at a time
    ([extend]) and carries a namespace; [tgt_path] and [ptr_path] select the
    target or the pointer side of the last step.  Two paths are equal iff
    lineage, traversal and namespaces agree. *)
Inductive PathId :=
| PathRoot (type : SchemaObject) (typename : option QualName)
    (ns : gset string)
| PathStep (prefix : PathId) (ptrref : QualName) (is_ptr : bool)
    (ns : gset string).
#[global] Instance PathId_eq_dec : EqDecision PathId.
Proof. solve_decision. Defined.

Module path_id.
Definition from_type (t : SchemaObject) (typename : QualName) : PathId :=
  PathRoot t (Some typename) ∅.

Definition namespace (p : PathId) : gset string :=
  match p with
  | PathRoot _ _ ns | PathStep _ _ _ ns => ns
  end.

Definition extend (p : PathId) (ptrref : QualName) : PathId :=
  PathStep p ptrref false (namespace p).

Definition tgt_path (p : PathId) : PathId :=
  match p with
  | PathStep pre r _ ns => PathStep pre r false ns
  | _ => p
  end.

Definition ptr_path (p : PathId) : PathId :=
  match p with
  | PathStep pre r _ ns => PathStep pre r true ns
  | _ => p
  end.

Definition rptr_name (p : PathId) : option QualName :=
  match p with
  | PathStep _ r _ _ => Some r
  | PathRoot _ _ _ => None
  end.

Definition replace_namespace (p : PathId) (ns : gset string) : PathId :=
  match p with
  | PathRoot t n _ => PathRoot t n ns
  | PathStep pre r b _ => PathStep pre r b ns
  end.

(** [out_id._prefix = out_id._get_prefix(1).replace_namespace(set())]:
    the namespace of the source side of the last step is cleared. *)
Definition clear_prefix_namespace (p : PathId) : PathId :=
  match p with
  | PathStep pre r b ns => PathStep (replace_namespace pre ∅) r b ns
  | _ => p
  end.
End path_id.

(** ** SQL syntax tree ([pgast]) *)

#[local] Set Warnings "-register-all".

(** Modelled from the spec: the node classes of [edb.pgsql.ast] are
    declared outside command.py.  The nodes and fields below are those that
    command.py builds and reads; each field keeps its Python default. *)
Module pgast.

Inductive BaseExpr :=
| Keyword (name : string)
| NullConstant
| NumericConstant (val : string)
| StringConstant (val : string)
| ParamRef (number : nat)
| ColumnRef (name : list string) (nullable : option bool)
| FuncCall (name : list string) (args : list BaseExpr) (agg_star : bool)
| TypeCast (arg : BaseExpr) (type_name : list string).

(** One row of a [VALUES] list.  The parser only ever produces
    [ImplicitRowExpr] there, which is what the code asserts per row. *)
Record ImplicitRowExpr := mkRow { args : list BaseExpr }.

Record ResTarget := mkResTarget {
  rt_name : option string;
  rt_val : BaseExpr }.

Definition PathOutputs := list ((PathId * PathAspect) * BaseExpr).

(** A named relation; [path_outputs] is the mutable map every
    [BaseRelation] carries. *)
Record Relation := mkRelation {
  rel_name : string;
  rel_path_outputs : PathOutputs }.

Record Alias := mkAlias { aliasname : option string }.

Record RelRangeVar := mkRelRangeVar {
  relation : Relation;
  rv_alias : Alias }.

Record InsertTarget := mkInsertTarget {
  it_name : string;
  it_span : option Span }.

(** The recursive positions ([Q] is [Query]) are the CTE queries, the
    subqueries of [FROM] and the row source of an [INSERT].
    [for_dml_stmt] is the marker of a CTE: the identity of the mutating IR
    statement it was generated for, [None] when it belongs to none. *)
Record CommonTableExprF (Q : Type) := mkCTE {
  cte_name : string;
  query : Q;
  for_dml_stmt : option nat }.
Arguments mkCTE {Q}.
Arguments cte_name {Q}.
Arguments query {Q}.
Arguments for_dml_stmt {Q}.

Inductive BaseRangeVarF (Q : Type) :=
| FromRelRangeVar (rvar : RelRangeVar)
| RangeSubselect (subquery : Q) (alias : Alias).
Arguments FromRelRangeVar {Q}.
Arguments RangeSubselect {Q}.

Record SelectStmtF (Q : Type) := mkSelectStmt {
  values : list ImplicitRowExpr;
  target_list : list ResTarget;
  from_clause : list (BaseRangeVarF Q);
  limit_count : option BaseExpr;
  sel_ctes : option (list (CommonTableExprF Q));
  sel_span : option Span;
  sel_path_outputs : PathOutputs }.
Arguments mkSelectStmt {Q}.
Arguments values {Q}.
Arguments target_list {Q}.
Arguments from_clause {Q}.
Arguments limit_count {Q}.
Arguments sel_ctes {Q}.
Arguments sel_span {Q}.
Arguments sel_path_outputs {Q}.

(** [node] stands for the identity of the Python object: nodes are hashed
    and compared by identity when used as keys of [ctx.compiled_dml]. *)
Record InsertStmtF (Q : Type) := mkInsertStmt {
  node : nat;
  ins_relation : RelRangeVar;
  cols : option (list InsertTarget);
  select_stmt : option Q;
  returning_list : list ResTarget;
  ins_ctes : option (list (CommonTableExprF Q));
  ins_span : option Span;
  ins_path_outputs : PathOutputs }.
Arguments mkInsertStmt {Q}.
Arguments node {Q}.
Arguments ins_relation {Q}.
Arguments cols {Q}.
Arguments select_stmt {Q}.
Arguments returning_list {Q}.
Arguments ins_ctes {Q}.
Arguments ins_span {Q}.
Arguments ins_path_outputs {Q}.

(** [UPDATE] and [DELETE] keep only what every [Query] has. *)
Record DMLQueryF (Q : Type) := mkDMLQuery {
  dml_ctes : option (list (CommonTableExprF Q));
  dml_span : option Span;
  dml_path_outputs : PathOutputs }.
Arguments mkDMLQuery {Q}.
Arguments dml_ctes {Q}.
Arguments dml_span {Q}.
Arguments dml_path_outputs {Q}.

Inductive Query :=
| SelectStmt (s : SelectStmtF Query)
| InsertStmt (i : InsertStmtF Query)
| DMLQuery (d : DMLQueryF Query).

(** Any node ([pgast.Base]), as far as the resolver tells them apart. *)
Inductive Base :=
| BaseQuery (q : Query)
| BaseRelation (r : Relation)
| BaseOther (e : BaseExpr).

Definition CommonTableExpr := CommonTableExprF Query.
Definition BaseRangeVar := BaseRangeVarF Query.

(** [pgast.SelectStmt()] with every field at its default. *)
Definition empty_select : SelectStmtF Query :=
  mkSelectStmt [] [] [] None None None [].

(** The fields declared on [Query] itself. *)
Definition ctes (q : Query) : option (list CommonTableExpr) :=
  match q with
  | SelectStmt s => sel_ctes s
  | InsertStmt i => ins_ctes i
  | DMLQuery d => dml_ctes d
  end.

Definition span (q : Query) : option Span :=
  match q with
  | SelectStmt s => sel_span s
  | InsertStmt i => ins_span i
  | DMLQuery d => dml_span d
  end.

Definition path_outputs (q : Query) : PathOutputs :=
  match q with
  | SelectStmt s => sel_path_outputs s
  | InsertStmt i => ins_path_outputs i
  | DMLQuery d => dml_path_outputs d
  end.

(** [q.ctes = c] *)
Definition set_ctes (c : option (list CommonTableExpr)) (q : Query) : Query :=
  match q with
  | SelectStmt s =>
      SelectStmt (mkSelectStmt (values s) (target_list s) (from_clause s)
                    (limit_count s) c (sel_span s) (sel_path_outputs s))
  | InsertStmt i =>
      InsertStmt (mkInsertStmt (node i) (ins_relation i) (cols i)
                    (select_stmt i) (returning_list i) c (ins_span i)
                    (ins_path_outputs i))
  | DMLQuery d => DMLQuery (mkDMLQuery c (dml_span d) (dml_path_outputs d))
  end.

(** [s.values = v] *)
Definition set_values (v : list ImplicitRowExpr) (s : SelectStmtF Query)
  : SelectStmtF Query :=
  mkSelectStmt v (target_list s) (from_clause s) (limit_count s)
    (sel_ctes s) (sel_span s) (sel_path_outputs s).

End pgast.

(** Python truthiness of an optional list: [None] and [[]] are falsy. *)
Definition truthy {A} (l : option (list A)) : bool :=
  match l with
  | Some (_ :: _) => true
  | _ => false
  end.

(** ** Resolver data ([context]) *)

(** Modelled from the spec: [Table], [Column] and [CompiledDML] are
    declared in the resolver's context module, outside command.py. *)
Module context.

(** How a column is projected; opaque here. *)
Inductive ColumnKind :=
| ColumnByName (reference_as : string)
| ColumnOther (tag : nat).

Record Column := mkColumn {
  name : string;
  kind : ColumnKind;
  hidden : bool }.

Record Table := mkTable {
  schema_id : option nat;
  alias : option string;
  reference_as : option string;
  columns : list Column }.

(** [context.Table()] *)
Definition empty_table : Table := mkTable None None None [].

Record CompiledDML := mkCompiledDML {
  value_cte_name : string;
  value_relation_input : pgast.Query;
  value_columns : list (string * bool);
  value_iterator_name : string;
  output_ctes : list pgast.CommonTableExpr;
  output_relation_name : string;
  output_namespace : list (string * pgast.BaseExpr) }.

End context.

(** ** Column selection *)

(** [{col.name: col for col in table.columns}]: a later column replaces an
    earlier one of the same name. *)
Definition build_col_map (cols : list context.Column)
  : gmap string context.Column :=
  foldl (fun m col => <[context.name col := col]> m) ∅ cols.

(** The loop [for name, span in col_names] with its accumulator [res]. *)
Fixpoint pull_named (col_map : gmap string context.Column)
    (col_names : list (string * option Span)) (res : list context.Column)
  : Result (list context.Column) :=
  match col_names with
  | [] => Ok res
  | (name, span) :: rest =>
      match col_map !! name with
      | None =>
          Raise (QueryError ("column " ++ name ++ " does not exist") span None)
      | Some col => pull_named col_map rest (res ++ [col])
      end
  end.

(** [if not col_names] is a truthiness test: it holds for [None] and for an
    empty list of (name, span) pairs alike.  Both call sites pass [None]
    in place of an empty column list. *)
Definition _pull_columns_from_table (table : context.Table)
    (col_names : option (list (string * option Span)))
  : Result (list context.Column) :=
  if negb (truthy col_names) then
    Ok (filter (fun c => context.hidden c = false) (context.columns table))
  else
    pull_named (build_col_map (context.columns table))
      (default [] col_names) [].

(** The argument built at the call sites:
    [((c.name, c.span) for c in stmt.cols) if stmt.cols else None]. *)
Definition col_names_of (cols : option (list pgast.InsertTarget))
  : option (list (string * option Span)) :=
  if truthy cols
  then Some (map (fun c => (pgast.it_name c, pgast.it_span c)) (default [] cols))
  else None.

(** ** Row multiplicity *)

Definition _has_at_most_one_row (query : option pgast.Query) : bool :=
  match query with
  | Some (pgast.SelectStmt q) =>
      bool_decide (length (pgast.values q) = 1)
      || match pgast.limit_count q with
         | Some (pgast.NumericConstant val) => String.eqb val "1"
         | _ => false
         end
  | _ => false
  end.

(** ** Value-relation normaliser *)

Definition is_default (e : pgast.BaseExpr) : bool :=
  match e with
  | pgast.Keyword name => String.eqb name "DEFAULT"
  | _ => false
  end.

(** [for to_remove, col in enumerate(row.args)], from index [to_remove]. *)
Fixpoint scan_row (row_args : list pgast.BaseExpr) (to_remove : nat)
    (default_columns : gset nat) : gset nat :=
  match row_args with
  | [] => default_columns
  | col :: rest =>
      scan_row rest (S to_remove)
        (if is_default col then {[to_remove]} ∪ default_columns
         else default_columns)
  end.

Definition find_default_columns (values : list pgast.ImplicitRowExpr)
  : gset nat :=
  foldl (fun s row => scan_row (pgast.args row) 0 s) ∅ values.

(** [sorted(default_columns, reverse=True)] *)
Definition sorted_reverse (s : gset nat) : list nat :=
  merge_sort (flip Nat.le) (elements s).

Definition default_only_in_all_rows (span : option Span) : Exception :=
  QueryError
    "DEFAULT keyword is supported only when used for a column in all rows"
    span (Some ERROR_FEATURE_NOT_SUPPORTED).

(** The inner loop over the rows for one [to_remove]: each row must hold
    [DEFAULT] at that index, which is then deleted from the row. *)
Fixpoint remove_from_rows (span : option Span) (to_remove : nat)
    (values : list pgast.ImplicitRowExpr)
  : Result (list pgast.ImplicitRowExpr) :=
  match values with
  | [] => Ok []
  | row :: rest =>
      match pgast.args row !! to_remove with
      | None => Raise IndexError
      | Some e =>
          if is_default e then
            rest' ← remove_from_rows span to_remove rest;
            Ok (pgast.mkRow (delete to_remove (pgast.args row)) :: rest')
          else
            Raise (default_only_in_all_rows span)
      end
  end.

(** The outer loop [for to_remove in sorted(default_columns, reverse=True)];
    [del expected_columns[to_remove]] raises when the index is out of
    range. *)
Fixpoint remove_defaults (span : option Span) (default_columns : list nat)
    (expected_columns : list context.Column)
    (values : list pgast.ImplicitRowExpr)
  : Result (list context.Column * list pgast.ImplicitRowExpr) :=
  match default_columns with
  | [] => Ok (expected_columns, values)
  | to_remove :: later =>
      if decide (to_remove < length expected_columns) then
        values' ← remove_from_rows span to_remove values;
        remove_defaults span later (delete to_remove expected_columns) values'
      else Raise IndexError
  end.

(** [VALUES (), (), ..., ()] after the removal of the defaulted columns. *)
Definition is_empty_rows (values : list pgast.ImplicitRowExpr) : bool :=
  match values with
  | row :: _ => bool_decide (length (pgast.args row) = 0)
  | [] => false
  end.

(** [SELECT FROM (VALUES (NULL), ..., (NULL)) _] *)
Definition null_rows_select (values : list pgast.ImplicitRowExpr)
  : pgast.Query :=
  pgast.SelectStmt
    (pgast.mkSelectStmt [] []
       [pgast.RangeSubselect
          (pgast.SelectStmt
             (pgast.set_values
                (map (fun _ => pgast.mkRow [pgast.NullConstant]) values)
                pgast.empty_select))
          (pgast.mkAlias (Some "_"))]
       None None None []).

(** The [VALUES (DEFAULT)] block.  It returns the object [value_query]
    first referred to, as the in-place updates left it; the fresh object
    [value_query] is rebound to in the empty-rows case, if any; and the
    remaining expected columns. *)
Definition strip_defaults (q : pgast.Query)
    (expected_columns : list context.Column)
  : Result (pgast.Query * option pgast.Query * list context.Column) :=
  match q with
  | pgast.SelectStmt s =>
      if bool_decide (pgast.values s = []) then Ok (q, None, expected_columns)
      else
        '(expected_columns', values') ←
          remove_defaults (pgast.sel_span s)
            (sorted_reverse (find_default_columns (pgast.values s)))
            expected_columns (pgast.values s);
        let q' := pgast.SelectStmt (pgast.set_values values' s) in
        if is_empty_rows values'
        then Ok (q', Some (null_rows_select values'), expected_columns')
        else Ok (q', None, expected_columns')
  | _ => Ok (q, None, expected_columns)
  end.

(** Returns the pair the Python function returns, followed by the state in
    which the call leaves the object passed as [value_query] (the caller
    reads [stmt.select_stmt] again afterwards). *)
Definition _preprocess_insert_value (value_query : option pgast.Query)
    (value_ctes : option (list pgast.CommonTableExpr))
    (expected_columns : list context.Column)
  : Result (pgast.Query * list context.Column * option pgast.Query) :=
  match value_query with
  | None =>
      (* INSERT INTO x DEFAULT VALUES *)
      Ok (pgast.SelectStmt pgast.empty_select, [], None)
  | Some q =>
      '(q_in, rebound, expected_columns') ← strip_defaults q expected_columns;
      let value_query' := default q_in rebound in
      (* assert not value_query.ctes *)
      if truthy (pgast.ctes value_query') then Raise (AssertionError "")
      else
        let res := pgast.set_ctes value_ctes value_query' in
        Ok (res, expected_columns',
            Some (if rebound is Some _ then q_in else res))
  end.

(** ** Object-query syntax ([qlast]) and compiled IR ([irast]) *)

(** Modelled from the spec: the node classes of [edb.edgeql.ast] are
    declared outside command.py; these are the ones command.py builds. *)
Module qlast.

Inductive PathElement :=
| IRAnchor (name : string)
| ObjectRef (name : string) (module : option string)
| Ptr (name : string) (type : option string).

Inductive ShapeOp := ASSIGN | APPEND.

Inductive Expr :=
| Path (steps : list PathElement) (partial : bool)
| TypeCast (type : PathElement) (expr : Expr)
| InsertQuery (subject : PathElement) (shape : list ShapeElement)
| UpdateQuery (subject : Expr) (where_ : Expr) (shape : list ShapeElement)
| ForQuery (iterator : Expr) (iterator_alias : string) (result : Expr)
| Shape (expr : option Expr) (elements : list ShapeElement)
| BinOp (left : Expr) (op : string) (right : Expr)
| DetachedExpr (expr : Expr)
| SelectQuery (aliases : list (string * Expr)) (result : Expr)
with ShapeElement :=
| mkShapeElement (expr : Expr) (operation : option ShapeOp)
    (compexpr : option Expr).

Definition is_ForQuery (e : Expr) : bool :=
  match e with
  | ForQuery _ _ _ => true
  | _ => false
  end.

(** [s_utils.name_to_ast_ref] *)
Definition name_to_ast_ref (n : QualName) : PathElement :=
  ObjectRef (qn_name n) (Some (qn_module n)).

(** [qlcompiler.CompilerOptions], the fields this module sets. *)
Record CompilerOptions := mkCompilerOptions {
  singletons : list PathId;
  anchors : list (string * PathId);
  allow_user_specified_id : bool }.

End qlast.

(** Modelled from the spec: the node classes of [edb.ir.ast] are declared
    outside command.py. *)
Module irast.

(** What [_merge_and_prepare_external_rels] inspects of the IR: the
    result shape of the top-level select, and the wrappers it descends
    through to reach a mutating statement.  [id] is the identity of the
    mutating node, which the CTE markers are compared with. *)
Inductive Expr :=
| MutatingStmt (id : nat) (result_path_id : PathId)
| SelectStmt (result_expr : Expr) (result_shape : list (PathId * Expr))
| Pointer (source_expr : Expr)
| OtherExpr.

Record Statement := mkStatement { expr : Expr }.

End irast.

(** ** Preprocessed statements and the resolver context *)

Definition ExternalRels :=
  list (PathId * (pgast.Relation * list string)).

Record PreprocessedDML := mkPreprocessedDML {
  input : pgast.InsertStmtF pgast.Query;
  ql_stmt : qlast.Expr;
  ql_returning_shape : list qlast.ShapeElement;
  ql_singletons : list PathId;
  ql_anchors : list (string * PathId);
  external_rels : ExternalRels;
  subject_columns : list (string * string);
  early_result : context.CompiledDML }.

(** Modelled from the spec: [context.ResolverContextLevel] is declared
    outside command.py.  This is the part of it that command.py reads and
    writes.
    [alias_counter] is the state of [ctx.alias_generator]. *)
Record ResolverContextLevel := mkCtx {
  alias_counter : nat;
  subquery_depth : Z;
  ctes_buffer : list pgast.CommonTableExpr;
  compiled_dml : gmap nat context.CompiledDML }.

(** Computations that read and update the context and may raise; the
    context reached when an exception is raised is kept. *)
Definition M (A : Type) : Type :=
  ResolverContextLevel -> Result A * ResolverContextLevel.

#[global] Instance M_ret : MRet M := fun A a ctx => (Ok a, ctx).
#[global] Instance M_bind : MBind M := fun A B k m ctx =>
  match m ctx with
  | (Ok a, ctx') => k a ctx'
  | (Raise e, ctx') => (Raise e, ctx')
  end.

Definition raise {A} (e : Exception) : M A := fun ctx => (Raise e, ctx).
Definition lift {A} (r : Result A) : M A := fun ctx => (r, ctx).
Definition get_ctx : M ResolverContextLevel := fun ctx => (Ok ctx, ctx).
Definition put_ctx (ctx : ResolverContextLevel) : M unit :=
  fun _ => (Ok tt, ctx).

Definition set_alias_counter (n : nat) (c : ResolverContextLevel) :=
  mkCtx n (subquery_depth c) (ctes_buffer c) (compiled_dml c).
Definition set_subquery_depth (d : Z) (c : ResolverContextLevel) :=
  mkCtx (alias_counter c) d (ctes_buffer c) (compiled_dml c).
Definition set_ctes_buffer (b : list pgast.CommonTableExpr)
    (c : ResolverContextLevel) :=
  mkCtx (alias_counter c) (subquery_depth c) b (compiled_dml c).
Definition set_compiled_dml (m : gmap nat context.CompiledDML)
    (c : ResolverContextLevel) :=
  mkCtx (alias_counter c) (subquery_depth c) (ctes_buffer c) m.

(** [for x in l: ...] collecting the results, left to right. *)
Fixpoint mapM_ctx {A B} (f : A -> M B) (l : list A) : M (list B) :=
  match l with
  | [] => mret []
  | x :: l' => y ← f x; ys ← mapM_ctx f l'; mret (y :: ys)
  end.

(** ** Collaborators

    The schema catalog, the functions of the other resolver modules that
    this one calls (alias generation, table and expression resolution), and
    the two stages of the object-query compiler. *)

Class Schema := {
  get_by_id : nat -> SchemaObject;
  maybe_get_ptr : SchemaObject -> string -> option SchemaObject;
  get_source : SchemaObject -> option SchemaObject;
  get_target : SchemaObject -> option SchemaObject;
  get_name : SchemaObject -> QualName;
  get_shortname : SchemaObject -> QualName;
  cardinality_is_many : SchemaObject -> bool;
  ptrref_from_ptrcls : SchemaObject -> QualName }.

Class Collaborators := {
  (** [ctx.alias_generator.get(prefix)], from the generator's counter *)
  alias_name : string -> nat -> string;
  (** [pg_res_rel.resolve_relation(relation, include_inherited, ctx)] *)
  resolve_table : pgast.Relation -> bool -> M (pgast.Base * context.Table);
  (** [dispatch.resolve_relation(rel, ctx)] *)
  dispatch_resolve_relation : pgast.Query -> M (pgast.Base * context.Table);
  (** [pg_res_expr.resolve_column_kind(table, kind, ctx)] *)
  resolve_column_kind : context.Table -> context.ColumnKind -> pgast.BaseExpr;
  (** [pg_res_expr.resolve_ResTarget(t, ctx)] in a scope holding one table *)
  resolve_ResTarget :
    pgast.ResTarget -> context.Table ->
    M (list pgast.ResTarget * list context.Column) }.

Class Compiler := {
  (** [qlcompiler.compile_ast_to_ir] *)
  compile_ast_to_ir :
    qlast.Expr -> qlast.CompilerOptions -> Result irast.Statement;
  (** [pgcompiler.compile_ir_to_sql_tree]; it draws aliases from the
      generator it is given and returns [sql_result.ast] *)
  compile_ir_to_sql_tree :
    irast.Statement -> ExternalRels -> nat -> Result pgast.Base * nat }.

(** ** DML preprocessor *)

Section Preprocessor.
Context `{Schema} `{Collaborators}.

(** [ctx.alias_generator.get(prefix)] *)
Definition alias_get (prefix : string) : M string := fun ctx =>
  (Ok (alias_name prefix (alias_counter ctx)),
   set_alias_counter (S (alias_counter ctx)) ctx).

(** [name.endswith('_id')] and [name[0:-3]] *)
Definition ends_with_id (name : string) : bool :=
  let n := String.length name in
  bool_decide (3 <= n) && String.eqb (String.substring (n - 3) 3 name) "_id".

Definition strip_id (name : string) : string :=
  String.substring 0 (String.length name - 3) name.

Definition is_source_or_target (name : string) : bool :=
  String.eqb name "source" || String.eqb name "target".

Definition _get_pointer_for_column (col : context.Column)
    (subject : SchemaObject) : Result (SchemaObject * string * bool) :=
  if is_pointer subject && is_source_or_target (context.name col)
  then Ok (subject, context.name col, false)
  else
    match subject with
    | Property _ => Raise (AssertionError "")
    | _ =>
        let '(ptr_name, is_link) :=
          if ends_with_id (context.name col)
          then (strip_id (context.name col), true)
          else (context.name col, false) in
        match maybe_get_ptr subject ptr_name with
        | None => Raise (AssertionError "")
        | Some ptr => Ok (ptr, ptr_name, is_link)
        end
    end.

Definition _get_ptr_id (source_id : PathId) (ptr : SchemaObject) : PathId :=
  path_id.extend source_id (ptrref_from_ptrcls ptr).

Definition _construct_insert_element_for_ptr (source_ql : qlast.PathElement)
    (ptr_name : string) (ptr : SchemaObject) (is_link : bool)
  : Result qlast.ShapeElement :=
  ptr_ql ←
    (if is_link then
       match get_target ptr with
       | None => Raise (AssertionError "")
       | Some ptr_target =>
           Ok (qlast.TypeCast
                 (qlast.name_to_ast_ref (get_name ptr_target))
                 (qlast.Path
                    [source_ql; qlast.Ptr ptr_name None; qlast.Ptr "id" None]
                    false))
       end
     else Ok (qlast.Path [source_ql; qlast.Ptr ptr_name None] false));
  Ok (qlast.mkShapeElement
        (qlast.Path [qlast.Ptr ptr_name None] false)
        (Some qlast.ASSIGN) (Some ptr_ql)).

Definition column_ref (ptr_name : string) (nullable : option bool)
  : pgast.BaseExpr :=
  pgast.ColumnRef [ptr_name] nullable.

(** The loop over the expected columns of an object-type insert, with the
    three accumulators it appends to. *)
Fixpoint object_columns (sub : SchemaObject) (value_id : PathId)
    (value_ql : qlast.PathElement) (expected : list context.Column)
    (path_outputs : pgast.PathOutputs) (value_columns : list (string * bool))
    (insert_shape : list qlast.ShapeElement)
  : Result (pgast.PathOutputs * list (string * bool)
            * list qlast.ShapeElement) :=
  match expected with
  | [] => Ok (path_outputs, value_columns, insert_shape)
  | expected_col :: rest =>
      '(ptr, ptr_name, is_link) ← _get_pointer_for_column expected_col sub;
      let ptr_id := _get_ptr_id value_id ptr in
      let output_var := column_ref ptr_name (Some true) in
      let path_outputs' :=
        if (is_link : bool)
        then dict_set (ptr_id, VALUE) output_var
               (dict_set (ptr_id, IDENTITY) output_var path_outputs)
        else dict_set (ptr_id, VALUE) output_var path_outputs in
      el ← _construct_insert_element_for_ptr value_ql ptr_name ptr is_link;
      object_columns sub value_id value_ql rest path_outputs'
        (value_columns ++ [(ptr_name, is_link)]) (insert_shape ++ [el])
  end.

(** The shape built for [RETURNING] on an object-type table. *)
Fixpoint object_returning_shape (sub : SchemaObject)
    (columns : list context.Column) : Result (list qlast.ShapeElement) :=
  match columns with
  | [] => Ok []
  | column :: rest =>
      if context.hidden column then object_returning_shape sub rest
      else
        '(_, ptr_name, _) ← _get_pointer_for_column column sub;
        shape ← object_returning_shape sub rest;
        Ok (qlast.mkShapeElement
              (qlast.Path [qlast.Ptr ptr_name None] false) None None
            :: shape)
  end.

(** [stmt] with [stmt.select_stmt] as the normaliser left it. *)
Definition with_select_stmt (stmt : pgast.InsertStmtF pgast.Query)
    (q : option pgast.Query) : pgast.InsertStmtF pgast.Query :=
  pgast.mkInsertStmt (pgast.node stmt) (pgast.ins_relation stmt)
    (pgast.cols stmt) q (pgast.returning_list stmt) (pgast.ins_ctes stmt)
    (pgast.ins_span stmt) (pgast.ins_path_outputs stmt).

Definition early (value_cte_name : string) (value_relation : pgast.Query)
    (value_columns : list (string * bool)) (value_iterator : string)
  : context.CompiledDML :=
  context.mkCompiledDML value_cte_name value_relation value_columns
    value_iterator [] "" [].

(** [ql_stmt], wrapped into a [for] unless a single row is inserted. *)
Definition wrap_for (is_value_single : bool) (value_name iterator_name : string)
    (ql_stmt : qlast.Expr) : qlast.Expr :=
  if is_value_single then ql_stmt
  else qlast.ForQuery (qlast.Path [qlast.IRAnchor value_name] false)
         iterator_name ql_stmt.

Definition _preprocess_insert_object_stmt
    (stmt : pgast.InsertStmtF pgast.Query) (sub : SchemaObject)
    (sub_table : context.Table) (expected_columns : list context.Column)
  : M PreprocessedDML :=
  '(value_relation, expected_columns, select_stmt) ←
    lift (_preprocess_insert_value (pgast.select_stmt stmt)
            (pgast.ins_ctes stmt) expected_columns);
  let is_value_single := _has_at_most_one_row select_stmt in
  value_name ← alias_get "ins_val";
  iterator_name ← alias_get "ins_iter";
  let value_id :=
    path_id.from_type sub (mkQualName "__derived__" value_name) in
  let value_ql :=
    if is_value_single then qlast.IRAnchor value_name
    else qlast.ObjectRef iterator_name None in
  value_cte_name ← alias_get "ins_value";
  '(path_outputs, value_columns, insert_shape) ←
    lift (object_columns sub value_id value_ql expected_columns [] [] []);
  value_iterator ← alias_get "iter";
  let output_var := column_ref value_iterator None in
  let path_outputs :=
    dict_set (value_id, VALUE) output_var
      (dict_set (value_id, ITERATOR) output_var path_outputs) in
  let value_rel := pgast.mkRelation value_cte_name path_outputs in
  let ql_stmt :=
    wrap_for is_value_single value_name iterator_name
      (qlast.InsertQuery (qlast.name_to_ast_ref (get_name sub))
         insert_shape) in
  ql_returning_shape ←
    lift (if bool_decide (pgast.returning_list stmt = []) then Ok []
          else object_returning_shape sub (context.columns sub_table));
  mret (mkPreprocessedDML (with_select_stmt stmt select_stmt) ql_stmt
          ql_returning_shape [value_id] [(value_name, value_id)]
          [(value_id, (value_rel, ["source"; "identity"]))] []
          (early value_cte_name value_relation value_columns
             value_iterator)).

Definition is_Link (o : SchemaObject) : bool :=
  match o with
  | Link _ => true
  | _ => false
  end.

(** The loop over the expected columns of a link-table insert. *)
Fixpoint pointer_columns (sub : SchemaObject) (source_id value_id : PathId)
    (expected : list context.Column) (path_outputs : pgast.PathOutputs)
    (value_columns : list (string * bool))
  : Result (pgast.PathOutputs * list (string * bool)) :=
  match expected with
  | [] => Ok (path_outputs, value_columns)
  | expected_col :: rest =>
      '(path_outputs', ptr_name, is_link) ←
        (if String.eqb (context.name expected_col) "source" then
           let var := column_ref "source" (Some true) in
           Ok (dict_set (source_id, IDENTITY) var
                 (dict_set (source_id, VALUE) var path_outputs),
               "source", true)
         else if String.eqb (context.name expected_col) "target" then
           let ptr_id := path_id.tgt_path value_id in
           let var := column_ref "target" (Some true) in
           Ok (dict_set (ptr_id, IDENTITY) var
                 (dict_set (ptr_id, VALUE) var path_outputs),
               "target", is_Link sub)
         else if is_Link sub then
           let ptr_name := context.name expected_col in
           match maybe_get_ptr sub ptr_name with
           | None => Raise (AssertionError "")
           | Some ptr =>
               let ptr_id := _get_ptr_id (path_id.ptr_path value_id) ptr in
               let var := column_ref ptr_name (Some true) in
               Ok (dict_set (ptr_id, VALUE) var path_outputs,
                   ptr_name, false)
           end
         else Raise (AssertionError ""));
      pointer_columns sub source_id value_id rest path_outputs'
        (value_columns ++ [(ptr_name, is_link)])
  end.

Definition has_column (name : string) (cols : list context.Column) : bool :=
  existsb (fun c => String.eqb (context.name c) name) cols.

Definition link_property_element (value_ql : qlast.PathElement)
    (sub_name : string) (ptr_name : string) : qlast.ShapeElement :=
  qlast.mkShapeElement
    (qlast.Path [qlast.Ptr ptr_name (Some "property")] false) None
    (Some (qlast.Path
             [value_ql; qlast.Ptr sub_name None;
              qlast.Ptr ptr_name (Some "property")] false)).

Definition pointer_returning_element (sub_name : string)
    (column : context.Column) : qlast.ShapeElement :=
  qlast.mkShapeElement
    (qlast.Path [qlast.Ptr (context.name column) None] false) None
    (Some (qlast.Path
             [qlast.Ptr sub_name None;
              qlast.Ptr (context.name column) (Some "property")] true)).

Definition _preprocess_insert_pointer_stmt
    (stmt : pgast.InsertStmtF pgast.Query) (sub : SchemaObject)
    (sub_table : context.Table) (expected_columns : list context.Column)
  : M PreprocessedDML :=
  if negb (has_column "source" expected_columns) then
    raise (QueryError
             "column source is required when inserting into link tables"
             (pgast.ins_span stmt) None)
  else if negb (has_column "target" expected_columns) then
    raise (QueryError
             "column target is required when inserting into link tables"
             (pgast.ins_span stmt) None)
  else
    match get_source sub with
    | Some (ObjectType _ as sub_source) =>
        match get_target sub with
        | None => raise (AssertionError "")
        | Some sub_target =>
  '(value_relation, expected_columns, select_stmt) ←
    lift (_preprocess_insert_value (pgast.select_stmt stmt)
            (pgast.ins_ctes stmt) expected_columns);
  let is_value_single := _has_at_most_one_row select_stmt in
  value_name ← alias_get "ins_val";
  iterator_name ← alias_get "ins_iter";
  let source_id :=
    path_id.from_type sub_source (mkQualName "__derived__" value_name) in
  let value_id := path_id.extend source_id (ptrref_from_ptrcls sub) in
  let value_ql :=
    if is_value_single then qlast.IRAnchor value_name
    else qlast.ObjectRef iterator_name None in
  value_cte_name ← alias_get "ins_value";
  '(path_outputs, value_columns) ←
    lift (pointer_columns sub source_id value_id expected_columns [] []);
  value_iterator ← alias_get "iter";
  let var := column_ref value_iterator None in
  let path_outputs :=
    dict_set (value_id, ITERATOR) var
      (dict_set (source_id, ITERATOR) var path_outputs) in
  let value_rel := pgast.mkRelation value_cte_name path_outputs in
  let sub_name := qn_name (get_shortname sub) in
  let ql_sub_source_ref := qlast.name_to_ast_ref (get_name sub_source) in
  let ql_sub_target_ref := qlast.name_to_ast_ref (get_name sub_target) in
  let target_path :=
    qlast.Path [value_ql; qlast.Ptr sub_name None] false in
  let ql_ptr_val :=
    if is_Link sub then
      qlast.Shape
        (Some (qlast.TypeCast ql_sub_target_ref target_path))
        (map (fun '(ptr_name, _) =>
                link_property_element value_ql sub_name ptr_name)
           (filter (fun '(ptr_name, _) =>
                      is_source_or_target ptr_name = false)
              value_columns))
    else target_path in
  let ql_stmt :=
    wrap_for is_value_single value_name iterator_name
      (qlast.UpdateQuery
         (qlast.Path [ql_sub_source_ref] false)
         (qlast.BinOp (qlast.Path [ql_sub_source_ref] false) "="
            (qlast.Path [value_ql] false))
         [qlast.mkShapeElement
            (qlast.Path [qlast.Ptr sub_name None] false)
            (Some (if cardinality_is_many sub then qlast.APPEND
                   else qlast.ASSIGN))
            (Some ql_ptr_val)]) in
  let ql_returning_shape :=
    if bool_decide (pgast.returning_list stmt = []) then []
    else
      map (pointer_returning_element sub_name)
        (filter (fun column =>
                   context.hidden column = false /\
                   is_source_or_target (context.name column) = false)
           (context.columns sub_table)) in
  mret (mkPreprocessedDML (with_select_stmt stmt select_stmt) ql_stmt
          ql_returning_shape [source_id] [(value_name, source_id)]
          [(source_id, (value_rel, ["source"; "identity"]))] []
          (early value_cte_name value_relation value_columns
             value_iterator))
        end
    | _ => raise (AssertionError "")
    end.

(** The pairs appended to [subject_columns] when the statement has a
    [RETURNING] clause. *)
Fixpoint returning_subject_columns (sub : SchemaObject)
    (columns : list context.Column) : Result (list (string * string)) :=
  match columns with
  | [] => Ok []
  | column :: rest =>
      if context.hidden column then returning_subject_columns sub rest
      else
        '(_, ptr_name, _) ← _get_pointer_for_column column sub;
        more ← returning_subject_columns sub rest;
        Ok ((context.name column, ptr_name) :: more)
  end.

Definition with_subject_columns (res : PreprocessedDML)
    (sc : list (string * string)) : PreprocessedDML :=
  mkPreprocessedDML (input res) (ql_stmt res) (ql_returning_shape res)
    (ql_singletons res) (ql_anchors res) (external_rels res)
    (subject_columns res ++ sc) (early_result res).

Definition _preprocess_insert_stmt (stmt : pgast.InsertStmtF pgast.Query)
  : M PreprocessedDML :=
  '(_sub_rel, sub_table) ←
    resolve_table (pgast.relation (pgast.ins_relation stmt)) false;
  match context.schema_id sub_table with
  | None => raise (AssertionError "")
  | Some schema_id =>
      let sub := get_by_id schema_id in
      expected_columns ←
        lift (_pull_columns_from_table sub_table
                (col_names_of (pgast.cols stmt)));
      res ←
        match sub with
        | ObjectType _ =>
            _preprocess_insert_object_stmt stmt sub sub_table
              expected_columns
        | Link _ | Property _ =>
            _preprocess_insert_pointer_stmt stmt sub sub_table
              expected_columns
        | _ => raise (NotImplementedError "")
        end;
      if bool_decide (pgast.returning_list stmt = []) then mret res
      else
        sc ← lift (returning_subject_columns sub
                     (context.columns sub_table));
        mret (with_subject_columns res sc)
  end.

End Preprocessor.

(** ** Batch DML compiler *)

Definition _collect_dml_stmts (stmt : pgast.Base)
  : list (pgast.InsertStmtF pgast.Query) :=
  match stmt with
  | pgast.BaseQuery q =>
      (* DML can only be in the top-level statement or its CTEs *)
      omap (fun cte =>
              match pgast.query cte with
              | pgast.InsertStmt i => Some i
              | _ => None
              end)
        (if truthy (pgast.ctes q) then default [] (pgast.ctes q) else [])
      ++ match q with
         | pgast.InsertStmt i => [i]
         | _ => []
         end
  | _ => []
  end.

(** [while not isinstance(element, irast.MutatingStmt)]: descend through
    select and pointer wrappers; the node found is returned as its identity
    and its [result.path_id]. *)
Fixpoint find_mutating_stmt (element : irast.Expr) : Result (nat * PathId) :=
  match element with
  | irast.MutatingStmt id result_path_id => Ok (id, result_path_id)
  | irast.SelectStmt result_expr _ => find_mutating_stmt result_expr
  | irast.Pointer source_expr => find_mutating_stmt source_expr
  | irast.OtherExpr => Raise (NotImplementedError "cannot find mutating stmt")
  end.

(** [for b, _ in ir_shape]: index the shape elements by pointer name. *)
Definition shape_elements_by_name (ir_shape : list (PathId * irast.Expr))
  : list (string * irast.Expr) :=
  foldl (fun d '(b_path_id, b_expr) =>
           match path_id.rptr_name b_path_id with
           | None => d
           | Some rptr_name => dict_set (qn_name rptr_name) b_expr d
           end) [] ir_shape.

(** Every output of [rel] is entered a second time under the path id moved
    into the statement's namespace. *)
Definition add_namespaced_outputs (subject_namespace : gset string)
    (rel : pgast.Relation) : pgast.Relation :=
  pgast.mkRelation (pgast.rel_name rel)
    (foldl (fun outs '((out_id, out_asp), out) =>
              let out_id :=
                path_id.clear_prefix_namespace
                  (path_id.replace_namespace out_id subject_namespace) in
              dict_set (out_id, out_asp) out outs)
       (pgast.rel_path_outputs rel) (pgast.rel_path_outputs rel)).

(** The loop [for stmt, name in zip(stmts, stmt_names)]. *)
Fixpoint merge_external_rels (by_name : list (string * irast.Expr))
    (pairs : list (PreprocessedDML * string)) (merged : ExternalRels)
    (ir_stmts : list (nat * PathId))
  : Result (ExternalRels * list (nat * PathId)) :=
  match pairs with
  | [] => Ok (merged, ir_stmts)
  | (stmt, name) :: rest =>
      match dict_get name by_name with
      | None => Raise KeyError
      | Some element =>
          '(id, subject_path_id) ← find_mutating_stmt element;
          let subject_namespace := path_id.namespace subject_path_id in
          let merged' :=
            foldl (fun rels '(rel_id, (rel, aspects)) =>
                     dict_set rel_id
                       (add_namespaced_outputs subject_namespace rel, aspects)
                       rels)
              merged (external_rels stmt) in
          merge_external_rels by_name rest merged'
            (ir_stmts ++ [(id, subject_path_id)])
      end
  end.

Definition _merge_and_prepare_external_rels (ir_stmt : irast.Statement)
    (stmts : list PreprocessedDML) (stmt_names : list string)
  : Result (ExternalRels * list (nat * PathId)) :=
  match irast.expr ir_stmt with
  | irast.SelectStmt _ ir_shape =>
      if bool_decide (ir_shape = []) then Raise (AssertionError "")
      else
        merge_external_rels (shape_elements_by_name ir_shape)
          (zip stmts stmt_names) [] []
  | _ => Raise (AssertionError "")
  end.

(** The [while len(ctes) > 0] loop for one statement: [ir_mutating_stmt] is
    the identity of the statement's compiled node, [ctes] what is left of
    the compiler's list, [stmt_ctes] the group collected so far.  It returns
    the group and the CTEs not consumed. *)
Fixpoint take_stmt_ctes (ir_mutating_stmt : nat) (found_it : bool)
    (ctes stmt_ctes : list pgast.CommonTableExpr)
  : list pgast.CommonTableExpr * list pgast.CommonTableExpr :=
  match ctes with
  | [] => (stmt_ctes, [])
  | cte :: rest =>
      let matches :=
        bool_decide (pgast.for_dml_stmt cte = Some ir_mutating_stmt) in
      if negb matches && found_it then
        (* use all matching CTEs plus all preceding *)
        (stmt_ctes, ctes)
      else
        take_stmt_ctes ir_mutating_stmt (matches || found_it) rest
          (stmt_ctes ++ [cte])
  end.

(** The map from (pointer name, aspect) to the output expression of the
    last CTE of a group. *)
Definition build_ptr_map (path_outputs : pgast.PathOutputs)
  : list ((string * PathAspect) * pgast.BaseExpr) :=
  foldl (fun ptr_map '((ptr_id, aspect), output_var) =>
           match path_id.rptr_name ptr_id with
           | None => dict_set ("id", aspect) output_var ptr_map
           | Some qual_name =>
               dict_set (qn_name qual_name, aspect) output_var ptr_map
           end) [] path_outputs.

(** The expression entered into [output_namespace] for one recorded
    pointer name. *)
Definition resolve_output (ptr_map : list ((string * PathAspect) * pgast.BaseExpr))
    (ptr_name : string) : Result pgast.BaseExpr :=
  let val := dict_get (ptr_name, SERIALIZED) ptr_map in
  let val := if val is Some _ then val else dict_get (ptr_name, VALUE) ptr_map in
  let val :=
    if val is Some _ then val else dict_get (ptr_name, IDENTITY) ptr_map in
  let val :=
    if is_source_or_target ptr_name
    then Some (pgast.ColumnRef [ptr_name] None)
    else val in
  match val with
  | Some e => Ok e
  | None =>
      Raise (AssertionError
               (ptr_name ++ " was in shape, but not in path_namespace"))
  end.

Fixpoint build_output_namespace
    (ptr_map : list ((string * PathAspect) * pgast.BaseExpr))
    (subject_columns : list (string * string))
    (output_namespace : list (string * pgast.BaseExpr))
  : Result (list (string * pgast.BaseExpr)) :=
  match subject_columns with
  | [] => Ok output_namespace
  | (col_name, ptr_name) :: rest =>
      val ← resolve_output ptr_map ptr_name;
      build_output_namespace ptr_map rest
        (dict_set col_name val output_namespace)
  end.

(** The body of [for stmt, ir_mutating_stmt in zip(stmts, ir_stmts)] for
    one statement: its group, the entry stored for it, and the CTEs left. *)
Definition compile_one (stmt : PreprocessedDML) (ir_mutating_stmt : nat)
    (ctes : list pgast.CommonTableExpr)
  : Result (context.CompiledDML * list pgast.CommonTableExpr) :=
  let '(stmt_ctes, ctes') := take_stmt_ctes ir_mutating_stmt false ctes [] in
  match last stmt_ctes with
  | None => Raise IndexError
  | Some last_cte =>
      let ptr_map := build_ptr_map (pgast.path_outputs (pgast.query last_cte)) in
      output_namespace ←
        build_output_namespace ptr_map (subject_columns stmt) [];
      let er := early_result stmt in
      Ok (context.mkCompiledDML
            (context.value_cte_name er) (context.value_relation_input er)
            (context.value_columns er) (context.value_iterator_name er)
            stmt_ctes (pgast.cte_name last_cte) output_namespace,
          ctes')
  end.

Fixpoint partition_ctes (pairs : list (PreprocessedDML * nat))
    (ctes : list pgast.CommonTableExpr)
    (result : gmap nat context.CompiledDML)
  : Result (gmap nat context.CompiledDML * list pgast.CommonTableExpr) :=
  match pairs with
  | [] => Ok (result, ctes)
  | (stmt, ir_mutating_stmt) :: rest =>
      '(compiled, ctes') ← compile_one stmt ir_mutating_stmt ctes;
      partition_ctes rest ctes'
        (<[pgast.node (input stmt) := compiled]> result)
  end.

Section BatchCompiler.
Context `{Schema} `{Collaborators} `{Compiler}.

(** [except errors.QueryError as e]: re-raised as a data exception. *)
Definition reclassify {A} (r : Result A) : Result A :=
  match r with
  | Raise (QueryError msg _ _) =>
      Raise (QueryError msg None (Some ERROR_DATA_EXCEPTION))
  | _ => r
  end.

Definition dml_name (index : nat) : string := "dml_" ++ pretty index.

(** The synthetic select whose shape has one element per statement. *)
Definition merged_ql_stmt (stmts : list PreprocessedDML) : qlast.Expr :=
  qlast.SelectQuery
    (imap (fun index stmt =>
             (dml_name index, qlast.DetachedExpr (ql_stmt stmt))) stmts)
    (qlast.Shape None
       (imap (fun index stmt =>
                qlast.mkShapeElement
                  (qlast.Path [qlast.Ptr (dml_name index) None] false) None
                  (Some (qlast.Shape
                           (Some (qlast.Path
                                    [qlast.ObjectRef (dml_name index) None]
                                    false))
                           (ql_returning_shape stmt)))) stmts)).

Definition merged_options (stmts : list PreprocessedDML)
  : qlast.CompilerOptions :=
  qlast.mkCompilerOptions
    (foldl (fun s stmt => list_union s (ql_singletons stmt)) [] stmts)
    (foldl (fun a stmt =>
              foldl (fun a '(k, v) => dict_set k v a) a (ql_anchors stmt))
       [] stmts)
    true.

(** The [try] block: both compiler stages and the merge between them. *)
Definition compile_batch (stmts : list PreprocessedDML)
  : M (pgast.Base * list (nat * PathId)) := fun ctx =>
  match compile_ast_to_ir (merged_ql_stmt stmts) (merged_options stmts) with
  | Raise e => (reclassify (Raise e), ctx)
  | Ok ir_stmt =>
      match _merge_and_prepare_external_rels ir_stmt stmts
              (imap (fun index _ => dml_name index) stmts) with
      | Raise e => (reclassify (Raise e), ctx)
      | Ok (external_rels, ir_stmts) =>
          let '(sql_result, counter) :=
            compile_ir_to_sql_tree ir_stmt external_rels
              (alias_counter ctx) in
          (reclassify (ast ← sql_result; Ok (ast, ir_stmts)),
           set_alias_counter counter ctx)
      end
  end.

Definition _compile_preprocessed_dml (stmts : list PreprocessedDML)
  : M (gmap nat context.CompiledDML * list pgast.CommonTableExpr) :=
  '(ast, ir_stmts) ← compile_batch stmts;
  match ast with
  | pgast.BaseQuery q =>
      if truthy (pgast.ctes q) then
        lift (partition_ctes (zip stmts ir_stmts.*1)
                (default [] (pgast.ctes q)) ∅)
      else raise (AssertionError "")
  | _ => raise (AssertionError "")
  end.

Definition compile_dml (stmt : pgast.Base)
  : M (list pgast.CommonTableExpr) :=
  let dml_stmts_sql := _collect_dml_stmts stmt in
  if bool_decide (length dml_stmts_sql = 0) then mret []
  else
    stmts ← mapM_ctx _preprocess_insert_stmt dml_stmts_sql;
    '(result, ctes) ← _compile_preprocessed_dml stmts;
    ctx ← get_ctx;
    _ ← put_ctx (set_compiled_dml result ctx);
    mret ctes.

End BatchCompiler.

(** ** DML relation wiring *)

(** Modelled from the spec: [pg_res_rel.extract_ctes_from_ctx] is not part
    of command.py.  The resolved statement gets "whatever CTEs are currently
    buffered in the resolution context"; they are taken out of the buffer. *)
Definition extract_ctes_from_ctx : M (list pgast.CommonTableExpr) :=
  fun ctx => (Ok (ctes_buffer ctx), set_ctes_buffer [] ctx).

(** Modelled from the spec: [ctx.child()] is defined outside command.py.
    A child context inherits the compiled-DML data and the nesting depth,
    shares the alias generator, and has a CTE buffer of its own; the
    parent's state is restored when the scope is left.  [adjust] is what
    the body does to the child before using it
    ([sctx.subquery_depth -= 1]). *)
Definition in_child {A} (adjust : ResolverContextLevel -> ResolverContextLevel)
    (body : M A) : M A := fun ctx =>
  let '(r, sctx) := body (adjust (set_ctes_buffer [] ctx)) in
  (r, set_alias_counter (alias_counter sctx) ctx).

Definition buffer_extend (ctes : list pgast.CommonTableExpr) : M unit :=
  fun ctx => (Ok tt, set_ctes_buffer (ctes_buffer ctx ++ ctes) ctx).

Section Wiring.
Context `{Schema} `{Collaborators}.

Definition _resolve_returning_rows (returning_list : list pgast.ResTarget)
    (output_relation_name : string)
    (output_namespace : list (string * pgast.BaseExpr))
    (subject_alias : option string)
  : M (pgast.Query * context.Table) :=
  inserted_rvar_name ← alias_get "ins";
  let inserted_query :=
    pgast.SelectStmt
      (pgast.mkSelectStmt []
         (map (fun '(col_name, val) => pgast.mkResTarget (Some col_name) val)
            output_namespace)
         [pgast.FromRelRangeVar
            (pgast.mkRelRangeVar (pgast.mkRelation output_relation_name [])
               (pgast.mkAlias None))]
         None None None []) in
  let inserted_table :=
    context.mkTable None subject_alias (Some inserted_rvar_name)
      (map (fun '(col_name, _) =>
              context.mkColumn col_name (context.ColumnByName col_name) false)
         output_namespace) in
  resolved ←
    mapM_ctx (fun t => resolve_ResTarget t inserted_table) returning_list;
  mret (pgast.SelectStmt
          (pgast.mkSelectStmt []
             (concat resolved.*1)
             [pgast.RangeSubselect inserted_query
                (pgast.mkAlias (Some inserted_rvar_name))]
             None None None []),
        context.mkTable None None None (concat resolved.*2)).

(** [SELECT count( * ) FROM output_relation_name] *)
Definition count_star_select (output_relation_name : string)
  : pgast.SelectStmtF pgast.Query :=
  pgast.mkSelectStmt []
    [pgast.mkResTarget None (pgast.FuncCall ["count"] [] true)]
    [pgast.FromRelRangeVar
       (pgast.mkRelRangeVar (pgast.mkRelation output_relation_name [])
          (pgast.mkAlias None))]
    None None None [].

Definition column_count_mismatch (compiled_dml : context.CompiledDML)
    (val_table : context.Table) : Exception :=
  QueryError
    ("INSERT expected "
       ++ pretty (length (context.value_columns compiled_dml))
       ++ " columns, but got "
       ++ pretty (length (context.columns val_table))
       ++ " (expecting "
       ++ String.concat ", " (context.value_columns compiled_dml).*1
       ++ ")")
    (pgast.span (context.value_relation_input compiled_dml)) None.

(** The projection over the value relation: one target per column, cast
    to [uuid] for links, then the iterator column. *)
Definition value_target_list (compiled_dml : context.CompiledDML)
    (val_table : context.Table) : list pgast.ResTarget :=
  map (fun '(val_col, (ptr_name, cast_to_uuid)) =>
         let val_col_pg :=
           resolve_column_kind val_table (context.kind val_col) in
         pgast.mkResTarget (Some ptr_name)
           (if (cast_to_uuid : bool)
            then pgast.TypeCast val_col_pg ["uuid"]
            else val_col_pg))
    (zip (context.columns val_table) (context.value_columns compiled_dml))
  ++ [pgast.mkResTarget
        (Some (context.value_iterator_name compiled_dml))
        (pgast.FuncCall ["edgedb"; "uuid_generate_v4"] [] false)].

Definition nested_dml_rejected (span : option Span) : Exception :=
  QueryError
    "WITH clause containing a data-modifying statement must be at the top level"
    span (Some ERROR_FEATURE_NOT_SUPPORTED).

(** The value relation is resolved in a child context one level up. *)
Definition resolve_value_relation (compiled_dml : context.CompiledDML)
  : M (pgast.Base * context.Table) :=
  in_child (fun sctx => set_subquery_depth (subquery_depth sctx - 1) sctx)
    (dispatch_resolve_relation (context.value_relation_input compiled_dml)).

(** Everything [resolve_InsertStmt] does once the entry of the statement
    has been looked up. *)
Definition wire_compiled_dml (stmt : pgast.InsertStmtF pgast.Query)
    (compiled_dml : context.CompiledDML)
  : M (pgast.Query * context.Table) :=
  '(val_rel, val_table) ← resolve_value_relation compiled_dml;
  if bool_decide (length (context.value_columns compiled_dml)
                  = length (context.columns val_table))
  then
    let targets := value_target_list compiled_dml val_table in
    match val_rel with
    | pgast.BaseQuery val_rel =>
        _ ← (if truthy (pgast.ctes val_rel)
             then buffer_extend (default [] (pgast.ctes val_rel))
             else mret tt);
        let val_rel :=
          if truthy (pgast.ctes val_rel) then pgast.set_ctes None val_rel
          else val_rel in
        let value_cte :=
          pgast.mkCTE (context.value_cte_name compiled_dml)
            (pgast.SelectStmt
               (pgast.mkSelectStmt [] targets
                  [pgast.RangeSubselect val_rel (pgast.mkAlias None)]
                  None None None []))
            None in
        _ ← buffer_extend [value_cte];
        _ ← buffer_extend (context.output_ctes compiled_dml);
        '(res_query, res_table) ←
          (if bool_decide (pgast.returning_list stmt = []) then
             ctx ← get_ctx;
             mret (pgast.SelectStmt
                     (if bool_decide (subquery_depth ctx = 0%Z)
                      then count_star_select
                             (context.output_relation_name compiled_dml)
                      else pgast.empty_select),
                   context.empty_table)
           else
             _resolve_returning_rows (pgast.returning_list stmt)
               (context.output_relation_name compiled_dml)
               (context.output_namespace compiled_dml)
               (pgast.aliasname (pgast.rv_alias (pgast.ins_relation stmt))));
        extracted ← extract_ctes_from_ctx;
        let own :=
          if truthy (pgast.ctes res_query)
          then default [] (pgast.ctes res_query) else [] in
        mret (pgast.set_ctes (Some (own ++ extracted)) res_query, res_table)
    | _ => raise (AssertionError "")
    end
  else raise (column_count_mismatch compiled_dml val_table).

Definition resolve_InsertStmt (stmt : pgast.InsertStmtF pgast.Query)
    (include_inherited : bool) : M (pgast.Query * context.Table) :=
  ctx ← get_ctx;
  if bool_decide (2 <= subquery_depth ctx)%Z then
    raise (nested_dml_rejected (pgast.ins_span stmt))
  else
    match compiled_dml ctx !! pgast.node stmt with
    | None => raise KeyError
    | Some compiled_dml => wire_compiled_dml stmt compiled_dml
    end.

End Wiring.

(** ** Vocabulary of the statements below *)

(** The CTE belongs to the mutating statement [ir]. *)
Definition cte_matches (ir : nat) (cte : pgast.CommonTableExpr) : Prop :=
  pgast.for_dml_stmt cte = Some ir.

(** [group] is what one statement takes from the front of [group ++ rest]:
    CTEs that do not match it, then CTEs that match it, up to the end of
    the list or, once a match has been seen, up to the first CTE that does
    not match. *)
Definition is_stmt_run (ir : nat)
    (group rest : list pgast.CommonTableExpr) : Prop :=
  exists pre run,
    group = pre ++ run
    /\ Forall (fun c => ~ cte_matches ir c) pre
    /\ Forall (cte_matches ir) run
    /\ (rest = []
        \/ (run <> []
            /\ exists c rest', rest = c :: rest' /\ ~ cte_matches ir c)).

(** The loop of [take_stmt_ctes] as the specification words it: once a
    match has been seen, the run of a statement ends at the first CTE that
    matches a different statement among [irs]. *)
Fixpoint spec_take_stmt_ctes (irs : list nat) (ir_mutating_stmt : nat)
    (found_it : bool) (ctes stmt_ctes : list pgast.CommonTableExpr)
  : list pgast.CommonTableExpr * list pgast.CommonTableExpr :=
  match ctes with
  | [] => (stmt_ctes, [])
  | cte :: rest =>
      let matches :=
        bool_decide (pgast.for_dml_stmt cte = Some ir_mutating_stmt) in
      let matches_other :=
        existsb (fun ir' =>
                   negb (Nat.eqb ir' ir_mutating_stmt)
                   && bool_decide (pgast.for_dml_stmt cte = Some ir')) irs in
      if matches_other && found_it then (stmt_ctes, ctes)
      else
        spec_take_stmt_ctes irs ir_mutating_stmt (matches || found_it) rest
          (stmt_ctes ++ [cte])
  end.

(** [resolve_output] as the specification words it: the aspects are tried
    in order and the literal column reference is the fallback for [source]
    and [target]. *)
Definition spec_resolve_output
    (ptr_map : list ((string * PathAspect) * pgast.BaseExpr))
    (ptr_name : string) : Result pgast.BaseExpr :=
  match dict_get (ptr_name, SERIALIZED) ptr_map,
        dict_get (ptr_name, VALUE) ptr_map,
        dict_get (ptr_name, IDENTITY) ptr_map with
  | Some e, _, _ | None, Some e, _ | None, None, Some e => Ok e
  | None, None, None =>
      if is_source_or_target ptr_name
      then Ok (pgast.ColumnRef [ptr_name] None)
      else Raise (AssertionError
                    (ptr_name ++ " was in shape, but not in path_namespace"))
  end.

(** The expression found by trying [serialized], [value], [identity]. *)
Definition first_aspect
    (ptr_map : list ((string * PathAspect) * pgast.BaseExpr))
    (ptr_name : string) : option pgast.BaseExpr :=
  match dict_get (ptr_name, SERIALIZED) ptr_map with
  | Some e => Some e
  | None =>
      match dict_get (ptr_name, VALUE) ptr_map with
      | Some e => Some e
      | None => dict_get (ptr_name, IDENTITY) ptr_map
      end
  end.

(** An [InsertStmt] reachable in a query: the query itself, or one
    reachable in the query of one of its CTEs, in a subquery of its [FROM]
    clause, or in the row source of an [INSERT]. *)
Inductive reachable_insert (s : pgast.InsertStmtF pgast.Query)
  : pgast.Query -> Prop :=
| reachable_here : reachable_insert s (pgast.InsertStmt s)
| reachable_cte q cte :
    cte ∈ default [] (pgast.ctes q) ->
    reachable_insert s (pgast.query cte) ->
    reachable_insert s q
| reachable_from sel subquery alias :
    pgast.RangeSubselect subquery alias ∈ pgast.from_clause sel ->
    reachable_insert s subquery ->
    reachable_insert s (pgast.SelectStmt sel)
| reachable_source i q :
    pgast.select_stmt i = Some q ->
    reachable_insert s q ->
    reachable_insert s (pgast.InsertStmt i).

(** The invariant as the specification words it: every [InsertStmt]
    reachable in the query has an entry in the compiled-DML mapping. *)
Definition every_reachable_insert_has_entry (q : pgast.Query)
    (ctx : ResolverContextLevel) : Prop :=
  forall s,
    reachable_insert s q -> is_Some (compiled_dml ctx !! pgast.node s).

(** The column selection as the specification words it: with an explicit
    list of names, the named columns in the order given, whatever the
    list; only without a list the visible columns. *)
Definition spec_pull_columns_from_table (table : context.Table)
    (col_names : option (list (string * option Span)))
  : Result (list context.Column) :=
  match col_names with
  | None =>
      Ok (filter (fun c => context.hidden c = false) (context.columns table))
  | Some names =>
      pull_named (build_col_map (context.columns table)) names []
  end.

Definition has_column_named (table : context.Table) (n : string) : Prop :=
  exists c, c ∈ context.columns table /\ context.name c = n.

(** The message of the error raised for a missing link-table column. *)
Definition column_required (col : string) (span : option Span) : Exception :=
  QueryError
    ("column " ++ col ++ " is required when inserting into link tables")
    span None.

(** The relation has no [VALUES] rows. *)
Definition has_no_values (q : pgast.Query) : Prop :=
  match q with
  | pgast.SelectStmt s => pgast.values s = []
  | _ => True
  end.

(** Every [DEFAULT] of the rows sits at a position listed in [cols]. *)
Definition defaults_within (cols : list nat)
    (rows : list pgast.ImplicitRowExpr) : Prop :=
  forall row i e,
    row ∈ rows -> pgast.args row !! i = Some e -> is_default e = true ->
    i ∈ cols.

(** ** A small schema and stand-in collaborators for the closed examples *)

Module Example.

(** [Movie { title, director }], the link [Movie.actors] to [Person] with
    the link property [role]. *)
Definition schema : Schema := {|
  get_by_id := fun id =>
    match id with
    | 1 => ObjectType 1
    | 2 => Link 2
    | 3 => ObjectType 3
    | _ => OtherObject id
    end;
  maybe_get_ptr := fun sub name =>
    match sub with
    | ObjectType 1 =>
        if String.eqb name "title" then Some (Property 10)
        else if String.eqb name "director" then Some (Link 11)
        else None
    | Link 2 => if String.eqb name "role" then Some (Property 12) else None
    | _ => None
    end;
  get_source := fun o => if is_pointer o then Some (ObjectType 1) else None;
  get_target := fun o => if is_pointer o then Some (ObjectType 3) else None;
  get_name := fun o =>
    match o with
    | ObjectType 1 => mkQualName "default" "Movie"
    | Link 2 => mkQualName "default" "actors"
    | _ => mkQualName "default" "Person"
    end;
  get_shortname := fun o =>
    match o with
    | Link 2 => mkQualName "__" "actors"
    | _ => mkQualName "__" "other"
    end;
  cardinality_is_many := fun o => bool_decide (o = Link 2);
  ptrref_from_ptrcls := fun o =>
    match o with
    | Property 10 => mkQualName "default" "title"
    | Link 11 => mkQualName "default" "director"
    | Property 12 => mkQualName "default" "role"
    | _ => mkQualName "default" "actors"
    end |}.

Definition col (n : string) (hidden : bool) : context.Column :=
  context.mkColumn n (context.ColumnByName n) hidden.

Definition movie_table : context.Table :=
  context.mkTable (Some 1) None None
    [col "__type__" true; col "title" false; col "director_id" false].

Definition actors_table : context.Table :=
  context.mkTable (Some 2) None None
    [col "source" false; col "target" false; col "role" false].

(** The table a value relation resolves to: one column per value of its
    first row. *)
Definition value_table (q : pgast.Query) : context.Table :=
  context.mkTable None None None
    match q with
    | pgast.SelectStmt s =>
        match pgast.values s with
        | row :: _ =>
            imap (fun i _ => col ("column" ++ pretty (S i))%string false)
              (pgast.args row)
        | [] => map (fun _ => col "?column?" false) (pgast.target_list s)
        end
    | _ => []
    end.

Definition collaborators : Collaborators := {|
  alias_name := fun prefix n => (prefix ++ "~" ++ pretty n)%string;
  resolve_table := fun rel _ =>
    if String.eqb (pgast.rel_name rel) "Movie"
    then mret (pgast.BaseRelation rel, movie_table)
    else if String.eqb (pgast.rel_name rel) "Movie.actors"
    then mret (pgast.BaseRelation rel, actors_table)
    else raise (QueryError "unknown table" None None);
  dispatch_resolve_relation := fun q => mret (pgast.BaseQuery q, value_table q);
  resolve_column_kind := fun _ kind =>
    match kind with
    | context.ColumnByName n => pgast.ColumnRef [n] None
    | context.ColumnOther _ => pgast.NullConstant
    end;
  resolve_ResTarget := fun t _ =>
    mret ([t], [col (default "?column?" (pgast.rt_name t)) false]) |}.

Definition root : PathId := PathRoot (OtherObject 0) None ∅.

(** A compiler that turns the i-th statement into the mutating node
    [100 + i] and emits one CTE for it. *)
Definition compiler : Compiler := {|
  compile_ast_to_ir := fun ql _ =>
    match ql with
    | qlast.SelectQuery aliases _ =>
        Ok (irast.mkStatement
              (irast.SelectStmt irast.OtherExpr
                 (imap (fun i '(name, _) =>
                          (PathStep root (mkQualName "" name) false ∅,
                           irast.MutatingStmt (100 + i) root))
                    aliases)))
    | _ => Raise (QueryError "not a select" None None)
    end;
  compile_ir_to_sql_tree := fun ir _ counter =>
    match irast.expr ir with
    | irast.SelectStmt _ shape =>
        (Ok (pgast.BaseQuery
               (pgast.SelectStmt
                  (pgast.mkSelectStmt [] [] [] None
                     (Some (map (fun '(_, e) =>
                                   pgast.mkCTE "ins_contents"
                                     (pgast.SelectStmt pgast.empty_select)
                                     match e with
                                     | irast.MutatingStmt id _ => Some id
                                     | _ => None
                                     end) shape))
                     None []))), counter)
    | _ => (Raise (AssertionError ""), counter)
    end |}.

Definition values_select (rows : list (list pgast.BaseExpr)) : pgast.Query :=
  pgast.SelectStmt (pgast.set_values (map pgast.mkRow rows) pgast.empty_select).

Definition insert_into (node : nat) (table : string) (cols : list string)
    (rows : list (list pgast.BaseExpr)) : pgast.InsertStmtF pgast.Query :=
  pgast.mkInsertStmt node
    (pgast.mkRelRangeVar (pgast.mkRelation table []) (pgast.mkAlias None))
    (Some (map (fun c => pgast.mkInsertTarget c None) cols))
    (Some (values_select rows)) [] None None [].

(** [INSERT INTO "Movie"(title) VALUES ('Up'), ('Cars')] *)
Definition insert_movies : pgast.InsertStmtF pgast.Query :=
  insert_into 7 "Movie" ["title"]
    [[pgast.StringConstant "Up"]; [pgast.StringConstant "Cars"]].

(** [INSERT INTO "Movie.actors"(target, role) VALUES ($1, 'Lead')] *)
Definition insert_actor_without_source : pgast.InsertStmtF pgast.Query :=
  insert_into 8 "Movie.actors" ["target"; "role"]
    [[pgast.ParamRef 1; pgast.StringConstant "Lead"]].

Definition ctx0 : ResolverContextLevel := mkCtx 0 0 [] ∅.

(** A CTE generated for the mutating node [marker], if any. *)
Definition cte (name : string) (marker : option nat) : pgast.CommonTableExpr :=
  pgast.mkCTE name (pgast.SelectStmt pgast.empty_select) marker.

(** A preprocessed statement for the node [n], with nothing to return. *)
Definition preprocessed (n : nat) : PreprocessedDML :=
  mkPreprocessedDML (insert_into n "Movie" ["title"] [])
    (qlast.Path [] false) [] [] [] [] []
    (context.mkCompiledDML "" (pgast.SelectStmt pgast.empty_select) [] ""
       [] "" []).

(** Two statements compiled to the nodes 1 and 2; between the CTEs of the
    first one the compiler has put a CTE that belongs to no statement. *)
Definition interleaved_ctes : list pgast.CommonTableExpr :=
  [cte "a" (Some 1); cte "b" None; cte "c" (Some 1); cte "d" (Some 2)].

Definition two_stmts : list (PreprocessedDML * nat) :=
  [(preprocessed 1, 1); (preprocessed 2, 2)].

(** The path outputs of a CTE that exposes the value of a pointer named
    [source]. *)
Definition source_outputs : pgast.PathOutputs :=
  [((PathStep root (mkQualName "default" "source") false ∅, VALUE),
    pgast.ColumnRef ["source_value"] None)].

End Example.

Module Cases.
Import Example.

Definition top_insert_movies : pgast.Base :=
  pgast.BaseQuery (pgast.InsertStmt insert_movies).

Definition top_insert_actor : pgast.Base :=
  pgast.BaseQuery (pgast.InsertStmt insert_actor_without_source).

(** The context in which [insert_movies] has been compiled. *)
Definition ctx_compiled : ResolverContextLevel :=
  (@compile_dml schema collaborators compiler top_insert_movies ctx0).2.

(** [INSERT INTO t(a, b) VALUES (DEFAULT, 1), (DEFAULT, 2)] *)
Definition default_first_column : pgast.Query :=
  values_select
    [[pgast.Keyword "DEFAULT"; pgast.NumericConstant "1"];
     [pgast.Keyword "DEFAULT"; pgast.NumericConstant "2"]].

(** [INSERT INTO t(a) VALUES (1, DEFAULT), (2, 3)]: two values per row for
    one target column, [DEFAULT] in the first row only. *)
Definition default_beyond_columns : pgast.Query :=
  values_select
    [[pgast.NumericConstant "1"; pgast.Keyword "DEFAULT"];
     [pgast.NumericConstant "2"; pgast.NumericConstant "3"]].

(** [WITH c AS (...) INSERT INTO t(a) VALUES (1)]: the row source and the
    CTE list of the statement. *)
Definition one_row : pgast.Query := values_select [[pgast.NumericConstant "1"]].
Definition one_cte : option (list pgast.CommonTableExpr) :=
  Some [cte "c" None].

End Cases.

(** Deleting the positions [cols], listed in descending order, one after the
    other. *)
Definition delete_all {A} (cols : list nat) (l : list A) : list A :=
  foldl (fun l d => delete d l) l cols.

(** The row holds [DEFAULT] at position [d]. *)
Definition default_at (d : nat) (row : pgast.ImplicitRowExpr) : Prop :=
  exists e, pgast.args row !! d = Some e /\ is_default e = true.

(** The row holds something else than [DEFAULT] at position [d]. *)
Definition value_at (d : nat) (row : pgast.ImplicitRowExpr) : Prop :=
  exists e, pgast.args row !! d = Some e /\ is_default e = false.

(** ** COPY *)

(** [pgast.CopyStmt], with the fields that [resolve_CopyStmt] reads from its
    argument and passes to the constructor of its result.  The copy options
    are opaque to the resolver. *)
Record CopyStmt := mkCopyStmt {
  copy_relation : option pgast.Relation;
  copy_colnames : option (list string);
  copy_query : option pgast.Query;
  copy_is_from : bool;
  copy_is_program : bool;
  copy_filename : option string;
  copy_options : list nat;
  copy_where_clause : option pgast.BaseExpr;
  copy_span : option Span }.

(** The generic entry points of the resolver that [resolve_CopyStmt] calls. *)
Class Dispatch := {
  (** [dispatch.resolve(query, ctx)] *)
  dispatch_resolve : pgast.Query -> M pgast.Query;
  (** [dispatch.resolve_relation(relation, ctx)] for a named relation *)
  dispatch_resolve_named : pgast.Relation -> M (pgast.Relation * context.Table);
  (** [dispatch.resolve_opt(expr, ctx)] *)
  dispatch_resolve_opt : option pgast.BaseExpr -> M (option pgast.BaseExpr) }.

(** [table.reference_as = name] *)
Definition set_reference_as (name : string) (table : context.Table)
  : context.Table :=
  context.mkTable (context.schema_id table) (context.alias table) (Some name)
    (context.columns table).

(** [list(ctx.ctes_buffer)] followed by [ctx.ctes_buffer.clear()]. *)
Definition take_ctes_buffer : M (list pgast.CommonTableExpr) := fun ctx =>
  (Ok (ctes_buffer ctx), set_ctes_buffer [] ctx).

Section Copy.
Context `{Collaborators} `{Dispatch}.

(** The argument built for [_pull_columns_from_table]:
    [((c, stmt.span) for c in stmt.colnames) if stmt.colnames else None]. *)
Definition copy_col_names (stmt : CopyStmt)
  : option (list (string * option Span)) :=
  if truthy (copy_colnames stmt)
  then Some (map (fun c => (c, copy_span stmt))
               (default [] (copy_colnames stmt)))
  else None.

(** The select wrapped around the copied relation. *)
Definition copy_select (relation : pgast.Relation) (table : context.Table)
    (reference_as : string) (selected_columns : list context.Column)
  : pgast.Query :=
  pgast.SelectStmt
    (pgast.mkSelectStmt []
       (map (fun c =>
               pgast.mkResTarget None
                 (resolve_column_kind table (context.kind c)))
          selected_columns)
       [pgast.FromRelRangeVar
          (pgast.mkRelRangeVar relation (pgast.mkAlias (Some reference_as)))]
       None None None []).

Definition resolve_CopyStmt (stmt : CopyStmt) : M CopyStmt :=
  query ←
    match copy_query stmt, copy_relation stmt with
    | Some q, _ => dispatch_resolve q
    | None, Some rel =>
        '(relation, table) ← dispatch_resolve_named rel;
        reference_as ← alias_get "rel";
        let table := set_reference_as reference_as table in
        selected_columns ←
          lift (_pull_columns_from_table table (copy_col_names stmt));
        mret (copy_select relation table reference_as selected_columns)
    | None, None =>
        raise (AssertionError
                 "CopyStmt must either have relation or query set")
    end;
  where_ ← dispatch_resolve_opt (copy_where_clause stmt);
  (* COPY will always be top-level, so we must extract CTEs *)
  ctes ← take_ctes_buffer;
  mret (mkCopyStmt None None (Some (pgast.set_ctes (Some ctes) query))
          (copy_is_from stmt) (copy_is_program stmt) (copy_filename stmt)
          (copy_options stmt) where_ None).

End Copy.

(** ** Vocabulary of the further properties *)

(** No value of the rows is the [DEFAULT] keyword. *)
Definition free_of_default (rows : list pgast.ImplicitRowExpr) : Prop :=
  forall row e, row ∈ rows -> e ∈ pgast.args row -> is_default e = false.

(** The exceptions the normaliser can raise on a row source [q]. *)
Definition normaliser_exception (q : option pgast.Query) (e : Exception)
  : Prop :=
  e = IndexError
  \/ e = AssertionError ""
  \/ exists s, q = Some (pgast.SelectStmt s)
       /\ e = QueryError
            "DEFAULT keyword is supported only when used for a column in all rows"
            (pgast.sel_span s) (Some ERROR_FEATURE_NOT_SUPPORTED).

(** Nothing of the context has changed, the alias generator apart. *)
Definition same_but_aliases (ctx ctx' : ResolverContextLevel) : Prop :=
  subquery_depth ctx' = subquery_depth ctx
  /\ ctes_buffer ctx' = ctes_buffer ctx
  /\ compiled_dml ctx' = compiled_dml ctx.

(** The names a preprocessed statement was given, when the alias generator
    stood at [n]. *)
Definition named_from (alias_name : string -> nat -> string) (n : nat)
    (res : PreprocessedDML) : Prop :=
  (ql_anchors res).*1 = [alias_name "ins_val" n]
  /\ context.value_cte_name (early_result res) = alias_name "ins_value" (n + 2)
  /\ context.value_iterator_name (early_result res) = alias_name "iter" (n + 3).

(** The run changes nothing of the context but the alias generator; it
    draws at most four aliases, and exactly four when it succeeds, naming
    the result after them. *)
Definition draws_aliases_only (alias_name : string -> nat -> string)
    (run : M PreprocessedDML) (ctx : ResolverContextLevel) : Prop :=
  forall r ctx',
    run ctx = (r, ctx') ->
    same_but_aliases ctx ctx'
    /\ alias_counter ctx <= alias_counter ctx' <= alias_counter ctx + 4
    /\ forall res,
         r = Ok res ->
         alias_counter ctx' = alias_counter ctx + 4
         /\ named_from alias_name (alias_counter ctx) res.

(** The pointer a shape element assigns with [:=]. *)
Definition assigned_pointer (el : qlast.ShapeElement) : option string :=
  match el with
  | qlast.mkShapeElement (qlast.Path [qlast.Ptr n None] false)
      (Some qlast.ASSIGN) (Some _) => Some n
  | _ => None
  end.

(** The shape of the insert, looked for under the [for] wrapper too. *)
Definition insert_shape_of (e : qlast.Expr)
  : option (list qlast.ShapeElement) :=
  match e with
  | qlast.InsertQuery _ shape
  | qlast.ForQuery _ _ (qlast.InsertQuery _ shape) => Some shape
  | _ => None
  end.

(** The single shape element of the update, looked for under the [for]
    wrapper too: the pointer it sets and how. *)
Definition update_element_of (e : qlast.Expr)
  : option (string * qlast.ShapeOp) :=
  match e with
  | qlast.UpdateQuery _ _
      [qlast.mkShapeElement (qlast.Path [qlast.Ptr n None] false) (Some op) _]
  | qlast.ForQuery _ _
      (qlast.UpdateQuery _ _
         [qlast.mkShapeElement (qlast.Path [qlast.Ptr n None] false)
            (Some op) _]) => Some (n, op)
  | _ => None
  end.

(** How a column of a link table enters [value_columns]: under its own
    name, cast as a link for [source], and for [target] when the subject is
    a link. *)
Definition link_table_value_column (sub : SchemaObject)
    (col : context.Column) : string * bool :=
  (context.name col,
   if String.eqb (context.name col) "source" then true
   else if String.eqb (context.name col) "target" then is_Link sub
   else false).

(** The key under which [build_ptr_map] enters a path output: the short
    name of the path's last pointer, [id] for a path without one, and the
    aspect. *)
Definition ptr_map_key (out : (PathId * PathAspect) * pgast.BaseExpr)
  : string * PathAspect :=
  (match path_id.rptr_name out.1.1 with
   | None => "id"
   | Some qual_name => qn_name qual_name
   end, out.1.2).

(** The entry [c] is what the partition stores for [stmt]: the four fields
    of its early result, and the name of the last CTE of its group. *)
Definition entry_of (stmt : PreprocessedDML) (c : context.CompiledDML)
  : Prop :=
  context.value_cte_name c = context.value_cte_name (early_result stmt)
  /\ context.value_relation_input c
     = context.value_relation_input (early_result stmt)
  /\ context.value_columns c = context.value_columns (early_result stmt)
  /\ context.value_iterator_name c
     = context.value_iterator_name (early_result stmt)
  /\ exists last_cte,
       last (context.output_ctes c) = Some last_cte
       /\ context.output_relation_name c = pgast.cte_name last_cte.

(** The exceptions that leave the CTE partition. *)
Definition partition_exception (e : Exception) : Prop :=
  e = IndexError
  \/ exists p,
       e = AssertionError (p ++ " was in shape, but not in path_namespace").

(** The exceptions that leave [_merge_and_prepare_external_rels]. *)
Definition merge_exception (e : Exception) : Prop :=
  e = AssertionError "" \/ e = KeyError
  \/ e = NotImplementedError "cannot find mutating stmt".


(** ** Further closed examples *)

Module Scenarios.
Import Example Cases.

(** A resolver that leaves queries and expressions as they are and knows
    the table [Movie]. *)
Definition dispatch : Dispatch := {|
  dispatch_resolve := fun q => mret q;
  dispatch_resolve_named := fun rel =>
    if String.eqb (pgast.rel_name rel) "Movie"
    then mret (rel, movie_table)
    else raise (QueryError "unknown table" None None);
  dispatch_resolve_opt := fun e => mret e |}.

Definition copy_of (relation : option pgast.Relation)
    (colnames : option (list string)) (query : option pgast.Query)
  : CopyStmt :=
  mkCopyStmt relation colnames query false false None [] None (Some 5).

(** [COPY "Movie" TO STDOUT] *)
Definition copy_movies : CopyStmt :=
  copy_of (Some (pgast.mkRelation "Movie" [])) None None.

(** [COPY "Movie"(title, year) TO STDOUT] *)
Definition copy_movies_year : CopyStmt :=
  copy_of (Some (pgast.mkRelation "Movie" [])) (Some ["title"; "year"]) None.

(** [COPY (WITH c AS (...) VALUES (1)) TO STDOUT] *)
Definition copy_one_row : CopyStmt :=
  copy_of None None (Some (pgast.set_ctes one_cte one_row)).

(** A [COPY] with neither relation nor query. *)
Definition copy_nothing : CopyStmt := copy_of None None None.

(** A context whose buffer holds one CTE. *)
Definition ctx_buffered : ResolverContextLevel :=
  set_ctes_buffer [cte "b" None] ctx0.

(** The [VALUES] lists of [default_first_column] and [one_row]. *)
Definition default_first_rows : pgast.SelectStmtF pgast.Query :=
  pgast.set_values
    (map pgast.mkRow
       [[pgast.Keyword "DEFAULT"; pgast.NumericConstant "1"];
        [pgast.Keyword "DEFAULT"; pgast.NumericConstant "2"]])
    pgast.empty_select.

Definition one_row_values : pgast.SelectStmtF pgast.Query :=
  pgast.set_values [pgast.mkRow [pgast.NumericConstant "1"]]
    pgast.empty_select.

(** [INSERT INTO t WITH c AS (...) SELECT]: a row source without [VALUES]
    that has a CTE of its own. *)
Definition select_with_cte : pgast.Query :=
  pgast.set_ctes one_cte (pgast.SelectStmt pgast.empty_select).

(** [INSERT INTO "Movie"(title) VALUES ('Up') RETURNING title] *)
Definition insert_movie_returning : pgast.InsertStmtF pgast.Query :=
  pgast.mkInsertStmt 9
    (pgast.mkRelRangeVar (pgast.mkRelation "Movie" []) (pgast.mkAlias None))
    (Some [pgast.mkInsertTarget "title" None])
    (Some (values_select [[pgast.StringConstant "Up"]]))
    [pgast.mkResTarget None (pgast.ColumnRef ["title"] None)] None None [].

(** [INSERT INTO "Movie.actors"(source, target, role)
     VALUES ($1, $2, 'Lead')] *)
Definition insert_actor : pgast.InsertStmtF pgast.Query :=
  insert_into 10 "Movie.actors" ["source"; "target"; "role"]
    [[pgast.ParamRef 1; pgast.ParamRef 2; pgast.StringConstant "Lead"]].

(** [INSERT INTO "Movie"(title) VALUES ('Up', 'x')]: one value too many. *)
Definition insert_two_values : pgast.InsertStmtF pgast.Query :=
  insert_into 11 "Movie" ["title"]
    [[pgast.StringConstant "Up"; pgast.StringConstant "x"]].

(** The context in which [insert_two_values] has been compiled. *)
Definition ctx_two_values : ResolverContextLevel :=
  (@compile_dml schema collaborators compiler
     (pgast.BaseQuery (pgast.InsertStmt insert_two_values)) ctx0).2.

(** [WITH a AS (WITH b AS (INSERT INTO "Movie"(title) VALUES ('Cars'))
                INSERT INTO "Movie"(title) VALUES ('Up'))
     SELECT]: an [INSERT] in the [WITH] clause of a CTE-level [INSERT]. *)
Definition inner_insert : pgast.InsertStmtF pgast.Query :=
  insert_into 6 "Movie" ["title"] [[pgast.StringConstant "Cars"]].

Definition outer_insert : pgast.InsertStmtF pgast.Query :=
  pgast.mkInsertStmt 5
    (pgast.mkRelRangeVar (pgast.mkRelation "Movie" []) (pgast.mkAlias None))
    (Some [pgast.mkInsertTarget "title" None])
    (Some (values_select [[pgast.StringConstant "Up"]])) []
    (Some [pgast.mkCTE "b" (pgast.InsertStmt inner_insert) None]) None [].

Definition nested_insert_query : pgast.Query :=
  pgast.SelectStmt
    (pgast.mkSelectStmt [] [] [] None
       (Some [pgast.mkCTE "a" (pgast.InsertStmt outer_insert) None]) None []).

(** A compiler whose first stage rejects everything at position 3. *)
Definition failing_compiler : Compiler := {|
  compile_ast_to_ir := fun _ _ =>
    Raise (QueryError "bad" (Some 3) (Some ERROR_FEATURE_NOT_SUPPORTED));
  compile_ir_to_sql_tree := fun _ _ counter =>
    (Raise (AssertionError ""), counter) |}.

(** The IR of a merged statement with the single binding [dml_0]. *)
Definition one_binding : irast.Statement :=
  irast.mkStatement
    (irast.SelectStmt irast.OtherExpr
       [(PathStep root (mkQualName "" "dml_0") false ∅,
         irast.SelectStmt (irast.MutatingStmt 100 root) [])]).



End Scenarios.

(* ===== THEOREMS ===== *)

(** * Properties

    ** Dictionaries *)

Section DictFacts.
Context {K V : Type} `{EqDecision K}.
Implicit Types (k : K) (v : V) (d : list (K * V)).

Lemma dict_get_set_eq k v d : dict_get k (dict_set k v d) = Some v.
Proof.
  induction d as [|[k' v'] d IH]; simpl.
  - by rewrite decide_True.
  - destruct (decide (k' = k)) as [->|Hne]; simpl.
    + by rewrite decide_True.
    + by rewrite decide_False.
Qed.

Lemma dict_get_set_ne k k' v d :
  k <> k' -> dict_get k' (dict_set k v d) = dict_get k' d.
Proof.
  intros Hne. induction d as [|[k0 v0] d IH]; simpl.
  - by rewrite decide_False.
  - destruct (decide (k0 = k)) as [->|Hne0]; simpl.
    + by rewrite !decide_False.
    + destruct (decide (k0 = k')); auto.
Qed.

End DictFacts.

(** ** Column selection *)


Lemma foldl_col_map_lookup cols (m : gmap string context.Column) n c :
  foldl (fun m col => <[context.name col := col]> m) m cols !! n = Some c ->
  (c ∈ cols /\ context.name c = n) \/ m !! n = Some c.
Proof.
  revert m. induction cols as [|col cols IH]; intros m; simpl; [auto|].
  intros Hl. apply IH in Hl as [[Hin Hn]|Hl].
  - left. split; [by apply list_elem_of_further | done].
  - destruct (decide (context.name col = n)) as [Heq|Hne].
    + rewrite <- Heq, lookup_insert_eq in Hl. injection Hl as ->.
      left. split; [apply list_elem_of_here | done].
    + rewrite lookup_insert_ne in Hl by done. by right.
Qed.

Lemma foldl_col_map_is_Some cols (m : gmap string context.Column) n :
  is_Some (m !! n) \/ (exists c, c ∈ cols /\ context.name c = n) ->
  is_Some (foldl (fun m col => <[context.name col := col]> m) m cols !! n).
Proof.
  revert m. induction cols as [|col cols IH]; intros m; simpl.
  - intros [Hs|(c & Hin & _)]; [done | by apply elem_of_nil in Hin].
  - intros Hor. apply IH.
    destruct (decide (context.name col = n)) as [Heq|Hne].
    + left. rewrite <- Heq, lookup_insert_eq. by eexists.
    + rewrite lookup_insert_ne by done.
      destruct Hor as [Hs|(c & Hin & Hn)]; [by left|].
      apply elem_of_cons in Hin as [->|Hin]; [done|].
      right. by exists c.
Qed.

Lemma build_col_map_Some table n c :
  build_col_map (context.columns table) !! n = Some c ->
  c ∈ context.columns table /\ context.name c = n.
Proof.
  intros Hl. apply foldl_col_map_lookup in Hl as [Hc|Hl]; [done|].
  by rewrite lookup_empty in Hl.
Qed.

Lemma build_col_map_is_Some table n :
  has_column_named table n <->
  is_Some (build_col_map (context.columns table) !! n).
Proof.
  split.
  - intros Hc. apply foldl_col_map_is_Some. by right.
  - intros [c Hc]. exists c. by apply build_col_map_Some.
Qed.

Lemma pull_named_Ok m names res cols :
  pull_named m names res = Ok cols ->
  exists new, cols = res ++ new
    /\ Forall2 (fun nm c => m !! nm.1 = Some c) names new.
Proof.
  revert res. induction names as [|[n sp] names IH]; intros res; simpl.
  - intros [= <-]. exists []. by rewrite app_nil_r.
  - destruct (m !! n) as [col|] eqn:Hn; [|done].
    intros Hp. apply IH in Hp as (new & -> & Hall).
    exists (col :: new). rewrite <- app_assoc. split; [done|].
    by constructor.
Qed.

Lemma pull_named_total m names res :
  (forall n, n ∈ names.*1 -> is_Some (m !! n)) ->
  exists cols, pull_named m names res = Ok cols.
Proof.
  revert res. induction names as [|[n sp] names IH]; intros res Hall; simpl.
  - by eexists.
  - destruct (Hall n) as [col ->]; [apply list_elem_of_here|].
    apply IH. intros k Hk. apply Hall. by apply list_elem_of_further.
Qed.

Lemma pull_named_missing m pre n sp post res :
  (forall k, k ∈ pre.*1 -> is_Some (m !! k)) ->
  m !! n = None ->
  pull_named m (pre ++ (n, sp) :: post) res
  = Raise (QueryError ("column " ++ n ++ " does not exist") sp None).
Proof.
  revert res. induction pre as [|[k ksp] pre IH]; intros res Hpre Hn; simpl.
  - by rewrite Hn.
  - destruct (Hpre k) as [col ->]; [apply list_elem_of_here|].
    apply IH; [|done]. intros j Hj. apply Hpre. by apply list_elem_of_further.
Qed.

Lemma pull_columns_from_table_named table names :
  names <> [] ->
  _pull_columns_from_table table (Some names)
  = pull_named (build_col_map (context.columns table)) names [].
Proof. by destruct names. Qed.

(** C10, as amended.  With an explicit, non-empty list of names,
    [_pull_columns_from_table] returns exactly the named columns of the
    table, in the order given, whether or not they are hidden (the [hidden]
    flag plays no part in [has_column_named]), and raises the query error
    "column <name> does not exist" for the first listed name that the table
    lacks.  Without a list, and with an empty list alike, it returns the
    table's columns in table order with the hidden ones left out.  On every
    argument but the empty list it does what the specification words. *)
Theorem pull_columns_from_table_spec (table : context.Table)
    (names : list (string * option Span)) :
  (names <> [] ->
   (forall cols, _pull_columns_from_table table (Some names) = Ok cols ->
      map context.name cols = names.*1
      /\ Forall (fun c => c ∈ context.columns table) cols)
   /\ ((forall n, n ∈ names.*1 -> has_column_named table n) ->
       exists cols, _pull_columns_from_table table (Some names) = Ok cols)
   /\ (forall pre n sp post,
         names = pre ++ (n, sp) :: post ->
         (forall k, k ∈ pre.*1 -> has_column_named table k) ->
         ~ has_column_named table n ->
         _pull_columns_from_table table (Some names)
         = Raise (QueryError ("column " ++ n ++ " does not exist") sp None))
   /\ _pull_columns_from_table table (Some names)
      = spec_pull_columns_from_table table (Some names))
  /\ _pull_columns_from_table table None
     = Ok (filter (fun c => context.hidden c = false) (context.columns table))
  /\ _pull_columns_from_table table (Some [])
     = Ok (filter (fun c => context.hidden c = false) (context.columns table))
  /\ _pull_columns_from_table table None
     = spec_pull_columns_from_table table None.
Proof.
  split; [|done]. intros Hne.
  rewrite (pull_columns_from_table_named table names Hne).
  repeat split.
  - apply pull_named_Ok in H as (new & -> & Hall). simpl.
    clear -Hall. induction Hall as [|[n sp] c names new Hc _ IH]; simpl;
      [done|].
    apply build_col_map_Some in Hc as [_ ->]. by rewrite IH.
  - apply pull_named_Ok in H as (new & -> & Hall). simpl.
    clear -Hall. induction Hall as [|[n sp] c names new Hc _ IH];
      constructor; [|done].
    by apply build_col_map_Some in Hc as [? _].
  - intros Hall. apply pull_named_total.
    intros n Hn. by apply build_col_map_is_Some, Hall.
  - intros pre n sp post -> Hpre Hn. apply pull_named_missing.
    + intros k Hk. by apply build_col_map_is_Some, Hpre.
    + apply eq_None_not_Some. intros Hs. by apply Hn, build_col_map_is_Some.
Qed.

(** ** Monadic plumbing *)

Ltac unfold_M :=
  unfold mbind, M_bind, mret, M_ret, lift, raise, get_ctx, put_ctx,
    buffer_extend, extract_ctes_from_ctx, in_child in *.

Lemma M_bind_Ok {A B} (m : M A) (k : A -> M B) ctx b ctx' :
  (m ≫= k) ctx = (Ok b, ctx') ->
  exists a ctx1, m ctx = (Ok a, ctx1) /\ k a ctx1 = (Ok b, ctx').
Proof.
  unfold mbind, M_bind. destruct (m ctx) as [[a|e] ctx1]; [|done].
  intros Hk. by exists a, ctx1.
Qed.

Lemma M_bind_Raise {A B} (m : M A) (k : A -> M B) ctx e ctx' :
  m ctx = (Raise e, ctx') -> (m ≫= k) ctx = (Raise e, ctx').
Proof. unfold mbind, M_bind. by intros ->. Qed.

Lemma M_bind_step {A B} (m : M A) (k : A -> M B) ctx a ctx1 :
  m ctx = (Ok a, ctx1) -> (m ≫= k) ctx = k a ctx1.
Proof. unfold mbind, M_bind. by intros ->. Qed.

Lemma Result_bind_Ok {A B} (r : Result A) (k : A -> Result B) b :
  r ≫= k = Ok b -> exists a, r = Ok a /\ k a = Ok b.
Proof. destruct r as [a|e]; [|done]. intros Hk. by exists a. Qed.

(** ** DML relation wiring *)

Section WiringFacts.
Context `{Schema} `{Collaborators}.

Lemma resolve_InsertStmt_unfold stmt include_inherited ctx :
  resolve_InsertStmt stmt include_inherited ctx
  = if bool_decide (2 <= subquery_depth ctx)%Z
    then (Raise (nested_dml_rejected (pgast.ins_span stmt)), ctx)
    else match compiled_dml ctx !! pgast.node stmt with
         | None => (Raise KeyError, ctx)
         | Some compiled => wire_compiled_dml stmt compiled ctx
         end.
Proof.
  unfold resolve_InsertStmt. unfold_M.
  case_bool_decide; [done|].
  by destruct (compiled_dml ctx !! pgast.node stmt).
Qed.

(** C6. An [InsertStmt] visited at subquery depth 2 or more is rejected
    with the unsupported-feature query error whatever the compiled-DML
    mapping holds and whatever the relation resolver would do, and the
    context is left untouched: neither the lookup nor the resolution of
    the value relation has been attempted.  Below depth 2 the guard does
    not fire: the outcome is that of the lookup, and then of the wiring. *)
Theorem resolve_InsertStmt_depth_guard stmt include_inherited ctx :
  ((2 <= subquery_depth ctx)%Z ->
     resolve_InsertStmt stmt include_inherited ctx
     = (Raise (QueryError
          "WITH clause containing a data-modifying statement must be at the top level"
          (pgast.ins_span stmt) (Some ERROR_FEATURE_NOT_SUPPORTED)), ctx))
  /\ ((subquery_depth ctx < 2)%Z ->
        resolve_InsertStmt stmt include_inherited ctx
        = match compiled_dml ctx !! pgast.node stmt with
          | None => (Raise KeyError, ctx)
          | Some compiled => wire_compiled_dml stmt compiled ctx
          end).
Proof.
  rewrite resolve_InsertStmt_unfold. split; intros Hd.
  - by rewrite bool_decide_eq_true_2.
  - rewrite bool_decide_eq_false_2; [done | lia].
Qed.


Lemma resolve_value_relation_buffer compiled ctx r ctx1 :
  resolve_value_relation compiled ctx = (r, ctx1) ->
  ctes_buffer ctx1 = ctes_buffer ctx
  /\ subquery_depth ctx1 = subquery_depth ctx.
Proof.
  unfold resolve_value_relation, in_child.
  destruct (dispatch_resolve_relation _ _) as [r' sctx].
  by intros [= _ <-].
Qed.

(** C7. When an [InsertStmt] without a [RETURNING] clause resolves, the
    query produced is, at subquery depth 0, the select whose only target is
    [count( * )] and whose only source is the relation named by the compiled
    output-relation name and, at any other depth, the select with every
    field empty; its table is the empty table.  In both cases the CTEs
    buffered in the context are attached to it: those buffered before, the
    CTEs moved out of the value relation, the value CTE under its
    precomputed name, and the compiled output CTEs, in this order. *)
Theorem resolve_InsertStmt_no_returning stmt include_inherited ctx
    res_query res_table ctx' :
  resolve_InsertStmt stmt include_inherited ctx
    = (Ok (res_query, res_table), ctx') ->
  pgast.returning_list stmt = [] ->
  exists compiled moved value_cte,
    compiled_dml ctx !! pgast.node stmt = Some compiled
    /\ pgast.cte_name value_cte = context.value_cte_name compiled
    /\ res_table = context.mkTable None None None []
    /\ (subquery_depth ctx = 0%Z ->
        res_query
        = pgast.SelectStmt
            (pgast.mkSelectStmt []
               [pgast.mkResTarget None (pgast.FuncCall ["count"] [] true)]
               [pgast.FromRelRangeVar
                  (pgast.mkRelRangeVar
                     (pgast.mkRelation
                        (context.output_relation_name compiled) [])
                     (pgast.mkAlias None))]
               None
               (Some (ctes_buffer ctx ++ moved ++ [value_cte]
                        ++ context.output_ctes compiled))
               None []))
    /\ (subquery_depth ctx <> 0%Z ->
        res_query
        = pgast.SelectStmt
            (pgast.mkSelectStmt [] [] [] None
               (Some (ctes_buffer ctx ++ moved ++ [value_cte]
                        ++ context.output_ctes compiled))
               None [])).
Proof.
  rewrite resolve_InsertStmt_unfold. case_bool_decide; [done|].
  destruct (compiled_dml ctx !! pgast.node stmt) as [compiled|] eqn:Hc;
    [|done].
  intros Hw Hret. exists compiled.
  unfold wire_compiled_dml in Hw.
  apply M_bind_Ok in Hw as ([val_rel val_table] & ctx1 & Hv & Hw).
  apply resolve_value_relation_buffer in Hv as [Hbuf Hdepth].
  case_bool_decide; [|done].
  destruct val_rel as [val_rel| |]; [|done..].
  rewrite Hret in Hw. rewrite bool_decide_eq_true_2 in Hw by done.
  unfold_M.
  destruct (truthy (pgast.ctes val_rel)) eqn:Ht; simpl in Hw;
    rewrite Hdepth, Hbuf in Hw;
    [exists (default [] (pgast.ctes val_rel)) | exists []];
    (case_bool_decide as Hd; simpl in Hw; injection Hw as <- <- _;
     eexists (pgast.mkCTE (context.value_cte_name compiled) _ None);
     (split; [done|]); (split; [reflexivity|]); (split; [reflexivity|]);
     rewrite <- ?app_assoc; split; intros Hd'; done).
Qed.

End WiringFacts.

(** ** Row multiplicity and the iteration wrapper *)

Lemma lift_Ok {A} (r : Result A) ctx a ctx' :
  lift r ctx = (Ok a, ctx') -> r = Ok a /\ ctx' = ctx.
Proof. unfold lift. by intros [= -> ->]. Qed.

Lemma remove_from_rows_length span to_remove values values' :
  remove_from_rows span to_remove values = Ok values' ->
  length values' = length values.
Proof.
  revert values'. induction values as [|row rest IH]; intros values'; simpl.
  - by intros [= <-].
  - destruct (pgast.args row !! to_remove) as [e|]; [|done].
    destruct (is_default e); [|done].
    intros Hb. apply Result_bind_Ok in Hb as (rest' & Hrest & [= <-]).
    simpl. f_equal. by apply IH.
Qed.

Lemma remove_defaults_length span cols expected values expected' values' :
  remove_defaults span cols expected values = Ok (expected', values') ->
  length values' = length values.
Proof.
  revert expected values.
  induction cols as [|c cols IH]; intros expected values; simpl.
  - by intros [= _ <-].
  - case_decide; [|done].
    intros Hb. apply Result_bind_Ok in Hb as (vs & Hvs & Hb).
    apply IH in Hb. apply remove_from_rows_length in Hvs. congruence.
Qed.

Lemma has_at_most_one_row_set_ctes c q :
  _has_at_most_one_row (Some (pgast.set_ctes c q))
  = _has_at_most_one_row (Some q).
Proof. by destruct q. Qed.

Lemma strip_defaults_rows q expected q_in rebound expected' :
  strip_defaults q expected = Ok (q_in, rebound, expected') ->
  _has_at_most_one_row (Some q_in) = _has_at_most_one_row (Some q).
Proof.
  destruct q as [s|i|d]; simpl; [|by intros [= <- _ _]..].
  case_bool_decide; [by intros [= <- _ _]|].
  intros Hb. apply Result_bind_Ok in Hb as ([e' vs'] & Hrm & Hb).
  apply remove_defaults_length in Hrm.
  destruct (is_empty_rows vs'); injection Hb as <- _ _; simpl;
    by rewrite Hrm.
Qed.

(** The normaliser updates the row source in place, but not in a way that
    changes its row multiplicity. *)
Lemma preprocess_insert_value_rows q value_ctes expected vr expected' q' :
  _preprocess_insert_value q value_ctes expected = Ok (vr, expected', q') ->
  _has_at_most_one_row q' = _has_at_most_one_row q.
Proof.
  destruct q as [q|]; simpl; [|by intros [= _ _ <-]].
  intros Hb. apply Result_bind_Ok in Hb as ([[q_in rebound] e'] & Hs & Hb).
  apply strip_defaults_rows in Hs.
  destruct (truthy _); [done|]. injection Hb as _ _ <-.
  destruct rebound as [fresh|]; [done|].
  change (default q_in None) with q_in.
  by rewrite has_at_most_one_row_set_ctes.
Qed.

Lemma has_at_most_one_row_iff q :
  _has_at_most_one_row q = true <->
  exists s, q = Some (pgast.SelectStmt s)
    /\ (length (pgast.values s) = 1
        \/ pgast.limit_count s = Some (pgast.NumericConstant "1")).
Proof.
  split.
  - destruct q as [[s|i|d]|]; simpl; [|done..].
    intros Hor. exists s. split; [done|].
    apply orb_true_iff in Hor as [Hl|Hl].
    + left. by apply bool_decide_eq_true in Hl.
    + right. destruct (pgast.limit_count s) as [[]|]; try done.
      apply String.eqb_eq in Hl. by subst.
  - intros (s & -> & [Hl|Hl]); simpl.
    + by rewrite bool_decide_eq_true_2.
    + rewrite Hl. simpl. apply orb_true_r.
Qed.

Section PreprocessorFacts.
Context `{Schema} `{Collaborators}.

Lemma alias_get_Ok prefix ctx :
  alias_get prefix ctx
  = (Ok (alias_name prefix (alias_counter ctx)),
     set_alias_counter (S (alias_counter ctx)) ctx).
Proof. done. Qed.

Lemma object_columns_elements sub value_id value_ql expected po vc sh po' vc'
    sh' :
  object_columns sub value_id value_ql expected po vc sh = Ok (po', vc', sh') ->
  exists new,
    sh' = sh ++ new
    /\ Forall2 (fun col el =>
                  exists ptr ptr_name is_link,
                    _get_pointer_for_column col sub
                      = Ok (ptr, ptr_name, is_link)
                    /\ _construct_insert_element_for_ptr value_ql ptr_name
                         ptr is_link = Ok el)
         expected new.
Proof.
  revert po vc sh. induction expected as [|col expected IH];
    intros po vc sh; simpl.
  - intros [= _ _ <-]. exists []. by rewrite app_nil_r.
  - intros Hb.
    apply Result_bind_Ok in Hb as ([[ptr ptr_name] is_link] & Hptr & Hb).
    apply Result_bind_Ok in Hb as (el & Hel & Hb).
    apply IH in Hb as (new & -> & Hall).
    exists (el :: new). rewrite <- app_assoc. split; [done|].
    constructor; [by exists ptr, ptr_name, is_link | done].
Qed.

Lemma preprocess_insert_object_stmt_ql stmt sub sub_table expected ctx res
    ctx' :
  _preprocess_insert_object_stmt stmt sub sub_table expected ctx
    = (Ok res, ctx') ->
  exists vr expected' q' insert_shape,
    _preprocess_insert_value (pgast.select_stmt stmt) (pgast.ins_ctes stmt)
      expected = Ok (vr, expected', q')
    /\ Forall2 (fun col el =>
                  exists ptr ptr_name is_link,
                    _get_pointer_for_column col sub
                      = Ok (ptr, ptr_name, is_link)
                    /\ _construct_insert_element_for_ptr
                         (if _has_at_most_one_row (pgast.select_stmt stmt)
                          then qlast.IRAnchor
                                 (alias_name "ins_val" (alias_counter ctx))
                          else qlast.ObjectRef
                                 (alias_name "ins_iter"
                                    (S (alias_counter ctx))) None)
                         ptr_name ptr is_link = Ok el)
         expected' insert_shape
    /\ ql_stmt res
       = if _has_at_most_one_row (pgast.select_stmt stmt)
         then qlast.InsertQuery
                (qlast.ObjectRef (qn_name (get_name sub))
                   (Some (qn_module (get_name sub))))
                insert_shape
         else qlast.ForQuery
                (qlast.Path
                   [qlast.IRAnchor (alias_name "ins_val" (alias_counter ctx))]
                   false)
                (alias_name "ins_iter" (S (alias_counter ctx)))
                (qlast.InsertQuery
                   (qlast.ObjectRef (qn_name (get_name sub))
                      (Some (qn_module (get_name sub))))
                   insert_shape).
Proof.
  unfold _preprocess_insert_object_stmt. intros Hp.
  apply M_bind_Ok in Hp as ([[vr expected'] q'] & ctx1 & Hv & Hp).
  apply lift_Ok in Hv as [Hv ->].
  apply preprocess_insert_value_rows in Hv as Hrows.
  apply M_bind_Ok in Hp as (value_name & ctx2 & Hvn & Hp).
  injection Hvn as <- <-.
  apply M_bind_Ok in Hp as (iterator_name & ctx3 & Hin & Hp).
  injection Hin as <- <-.
  apply M_bind_Ok in Hp as (value_cte_name & ctx4 & _ & Hp).
  apply M_bind_Ok in Hp as ([[outs vcols] shape] & ctx5 & Hcols & Hp).
  apply lift_Ok in Hcols as [Hcols _].
  apply M_bind_Ok in Hp as (value_iterator & ctx6 & _ & Hp).
  apply M_bind_Ok in Hp as (rshape & ctx7 & _ & Hp).
  injection Hp as <- _. simpl.
  apply object_columns_elements in Hcols as (new & -> & Hall). simpl in Hall.
  rewrite Hrows in Hall. rewrite Hrows.
  exists vr, expected', q', new. split; [done|]. split; [exact Hall|].
  unfold wrap_for, qlast.name_to_ast_ref.
  by destruct (_has_at_most_one_row (pgast.select_stmt stmt)).
Qed.

(** C4. Whenever an object-type insert is preprocessed, the synthetic
    statement is the insert into the subject type, with one shape element
    per expected column that the normaliser returned, wrapped in a [for]
    exactly when the row source is not single-row, and the bare insert
    otherwise.  The [for] iterates over the value anchor under the
    iterator alias, the two being the first and the second alias drawn,
    and the shape elements read from the iterator when the insert is
    wrapped and from the value anchor when it is not.  The row source is
    single-row exactly when it is a [SelectStmt] that has one [VALUES] row
    or a [LIMIT] whose count is the numeric constant 1. *)
Theorem object_insert_for_wrapper stmt sub sub_table expected ctx res ctx' :
  _preprocess_insert_object_stmt stmt sub sub_table expected ctx
    = (Ok res, ctx') ->
  (exists vr expected' q' insert_shape,
     _preprocess_insert_value (pgast.select_stmt stmt) (pgast.ins_ctes stmt)
       expected = Ok (vr, expected', q')
     /\ Forall2 (fun col el =>
                   exists ptr ptr_name is_link,
                     _get_pointer_for_column col sub
                       = Ok (ptr, ptr_name, is_link)
                     /\ _construct_insert_element_for_ptr
                          (if _has_at_most_one_row (pgast.select_stmt stmt)
                           then qlast.IRAnchor
                                  (alias_name "ins_val" (alias_counter ctx))
                           else qlast.ObjectRef
                                  (alias_name "ins_iter"
                                     (S (alias_counter ctx))) None)
                          ptr_name ptr is_link = Ok el)
          expected' insert_shape
     /\ ql_stmt res
        = if _has_at_most_one_row (pgast.select_stmt stmt)
          then qlast.InsertQuery
                 (qlast.ObjectRef (qn_name (get_name sub))
                    (Some (qn_module (get_name sub))))
                 insert_shape
          else qlast.ForQuery
                 (qlast.Path
                    [qlast.IRAnchor
                       (alias_name "ins_val" (alias_counter ctx))]
                    false)
                 (alias_name "ins_iter" (S (alias_counter ctx)))
                 (qlast.InsertQuery
                    (qlast.ObjectRef (qn_name (get_name sub))
                       (Some (qn_module (get_name sub))))
                    insert_shape))
  /\ qlast.is_ForQuery (ql_stmt res)
     = negb (_has_at_most_one_row (pgast.select_stmt stmt))
  /\ (_has_at_most_one_row (pgast.select_stmt stmt) = true <->
      exists s, pgast.select_stmt stmt = Some (pgast.SelectStmt s)
        /\ (length (pgast.values s) = 1
            \/ pgast.limit_count s = Some (pgast.NumericConstant "1"))).
Proof.
  intros Hp.
  apply preprocess_insert_object_stmt_ql in Hp
    as (vr & expected' & q' & shape & Hv & Hall & Hql).
  split; [by exists vr, expected', q', shape|].
  split; [|apply has_at_most_one_row_iff].
  rewrite Hql. by destruct (_has_at_most_one_row (pgast.select_stmt stmt)).
Qed.


Lemma preprocess_insert_pointer_stmt_guard stmt sub sub_table expected ctx :
  (has_column "source" expected = false ->
     _preprocess_insert_pointer_stmt stmt sub sub_table expected ctx
     = (Raise (column_required "source" (pgast.ins_span stmt)), ctx))
  /\ (has_column "source" expected = true ->
      has_column "target" expected = false ->
      _preprocess_insert_pointer_stmt stmt sub sub_table expected ctx
      = (Raise (column_required "target" (pgast.ins_span stmt)), ctx)).
Proof.
  unfold _preprocess_insert_pointer_stmt.
  split; [intros -> | intros -> ->]; done.
Qed.

Lemma has_column_iff col expected :
  has_column col expected = true <->
  exists c, c ∈ expected /\ context.name c = col.
Proof.
  unfold has_column. rewrite existsb_exists. split.
  - intros (c & Hin & Heq). exists c.
    split; [by apply list_elem_of_In | by apply String.eqb_eq].
  - intros (c & Hin & Heq). exists c.
    split; [by apply list_elem_of_In | by apply String.eqb_eq].
Qed.

End PreprocessorFacts.

(** ** Missing [source] or [target] on a link-table insert *)

Lemma mapM_ctx_raise {A B} (f : A -> M B) pre x post ctx ys ctx1 e ctx2 :
  mapM_ctx f pre ctx = (Ok ys, ctx1) ->
  f x ctx1 = (Raise e, ctx2) ->
  mapM_ctx f (pre ++ x :: post) ctx = (Raise e, ctx2).
Proof.
  revert ctx ys. induction pre as [|p pre IH]; intros ctx ys; simpl.
  - intros [= _ <-] Hx. by apply M_bind_Raise.
  - intros Hp Hx. apply M_bind_Ok in Hp as (y & ctx' & Hy & Hp).
    apply M_bind_Ok in Hp as (ys' & ctx'' & Hys & [= _ <-]).
    rewrite (M_bind_step _ _ _ _ _ Hy).
    apply M_bind_Raise. by eapply IH.
Qed.

Section LinkTableFacts.
Context `{Schema} `{Collaborators}.

Lemma preprocess_insert_stmt_missing_column stmt ctx rel table ctx1 id
    expected :
  resolve_table (pgast.relation (pgast.ins_relation stmt)) false ctx
    = (Ok (rel, table), ctx1) ->
  context.schema_id table = Some id ->
  is_pointer (get_by_id id) = true ->
  _pull_columns_from_table table (col_names_of (pgast.cols stmt))
    = Ok expected ->
  has_column "source" expected = false
  \/ has_column "target" expected = false ->
  exists col,
    (col = "source" \/ col = "target")
    /\ has_column col expected = false
    /\ _preprocess_insert_stmt stmt ctx
       = (Raise (column_required col (pgast.ins_span stmt)), ctx1).
Proof.
  intros Hres Hid Hptr Hpull Hmiss.
  assert (exists col,
    (col = "source" \/ col = "target")
    /\ has_column col expected = false
    /\ _preprocess_insert_pointer_stmt stmt (get_by_id id) table expected
         ctx1
       = (Raise (column_required col (pgast.ins_span stmt)), ctx1))
    as (col & Hcol & Hno & Hraise).
  { destruct (preprocess_insert_pointer_stmt_guard stmt (get_by_id id)
                table expected ctx1) as [Hs Ht].
    destruct (has_column "source" expected) eqn:Hsrc.
    - destruct Hmiss as [?|Htgt]; [done|].
      exists "target". auto.
    - exists "source". auto. }
  exists col. split; [done|]. split; [done|].
  unfold _preprocess_insert_stmt.
  rewrite (M_bind_step _ _ _ _ _ Hres). rewrite Hid, Hpull.
  rewrite (M_bind_step (lift (Ok expected)) _ ctx1 expected ctx1 eq_refl).
  apply M_bind_Raise.
  destruct (get_by_id id); done.
Qed.

(** C5. Take an insert among the collected DML statements whose table
    resolves to a link or a property and whose expected columns (the
    explicit list, or the visible columns without one) lack [source] or
    lack [target].  Once the statements before it are preprocessed, its
    own preprocessing raises the query error "column <c> is required when
    inserting into link tables" for a missing [c] among the two, and
    [compile_dml] ends with that error whatever the object-query compiler
    is: the compiler has no part in the outcome, it is never reached. *)
Theorem compile_dml_missing_link_column top ctx pre stmt post stmts ctx1
    rel table ctx2 id expected :
  _collect_dml_stmts top = pre ++ stmt :: post ->
  mapM_ctx _preprocess_insert_stmt pre ctx = (Ok stmts, ctx1) ->
  resolve_table (pgast.relation (pgast.ins_relation stmt)) false ctx1
    = (Ok (rel, table), ctx2) ->
  context.schema_id table = Some id ->
  is_pointer (get_by_id id) = true ->
  _pull_columns_from_table table (col_names_of (pgast.cols stmt))
    = Ok expected ->
  has_column "source" expected = false
  \/ has_column "target" expected = false ->
  exists col,
    (col = "source" \/ col = "target")
    /\ has_column col expected = false
    /\ let e :=
         QueryError
           ("column " ++ col
              ++ " is required when inserting into link tables")
           (pgast.ins_span stmt) None in
       _preprocess_insert_stmt stmt ctx1 = (Raise e, ctx2)
       /\ forall compiler : Compiler,
            compile_dml top ctx = (Raise e, ctx2).
Proof.
  intros Hcol Hpre Hres Hid Hptr Hpull Hmiss.
  destruct (preprocess_insert_stmt_missing_column stmt ctx1 rel table ctx2
              id expected Hres Hid Hptr Hpull Hmiss)
    as (col & Hc & Hno & Hraise).
  exists col. split; [done|]. split; [done|]. split; [done|].
  intros compiler. unfold compile_dml. rewrite Hcol.
  rewrite bool_decide_eq_false_2
    by (rewrite length_app; simpl; lia).
  apply M_bind_Raise. by eapply mapM_ctx_raise.
Qed.

End LinkTableFacts.

(** ** The CTE partition *)

Lemma take_stmt_ctes_acc ir found_it ctes acc :
  take_stmt_ctes ir found_it ctes acc
  = (acc ++ (take_stmt_ctes ir found_it ctes []).1,
     (take_stmt_ctes ir found_it ctes []).2).
Proof.
  revert found_it acc. induction ctes as [|c ctes IH]; intros found_it acc.
  - simpl. by rewrite app_nil_r.
  - simpl. destruct (negb _ && found_it); simpl.
    + by rewrite app_nil_r.
    + rewrite (IH _ (acc ++ [c])), (IH _ [c]). simpl.
      by rewrite <- app_assoc.
Qed.

Lemma cte_matches_decide ir c :
  bool_decide (pgast.for_dml_stmt c = Some ir) = true <-> cte_matches ir c.
Proof. apply bool_decide_eq_true. Qed.

(** Once a match has been seen, the loop takes the matching CTEs in front. *)
Lemma take_stmt_ctes_found ir ctes run rest :
  take_stmt_ctes ir true ctes [] = (run, rest) ->
  ctes = run ++ rest
  /\ Forall (cte_matches ir) run
  /\ (rest = [] \/ exists c rest', rest = c :: rest' /\ ~ cte_matches ir c).
Proof.
  revert run rest. induction ctes as [|c ctes IH]; intros run rest; simpl.
  - intros [= <- <-]. auto.
  - destruct (bool_decide (pgast.for_dml_stmt c = Some ir)) eqn:Hm; simpl.
    + rewrite take_stmt_ctes_acc.
      destruct (take_stmt_ctes ir true ctes []) as [run' rest'] eqn:Ht.
      intros [= <- <-]. destruct (IH _ _ eq_refl) as (-> & Hall & Hstop).
      split; [done|]. split; [|done].
      constructor; [by apply cte_matches_decide | done].
    + intros [= <- <-]. split; [done|]. split; [constructor|].
      right. exists c, ctes. split; [done|].
      intros Hc. apply cte_matches_decide in Hc. congruence.
Qed.

Lemma take_stmt_ctes_run ir ctes group rest :
  take_stmt_ctes ir false ctes [] = (group, rest) ->
  ctes = group ++ rest /\ is_stmt_run ir group rest.
Proof.
  revert group rest. induction ctes as [|c ctes IH]; intros group rest; simpl.
  - intros [= <- <-]. split; [done|]. exists [], []. auto.
  - rewrite andb_false_r.
    destruct (bool_decide (pgast.for_dml_stmt c = Some ir)) eqn:Hm; simpl.
    + rewrite take_stmt_ctes_acc.
      destruct (take_stmt_ctes ir true ctes []) as [run rest'] eqn:Ht.
      intros [= <- <-].
      apply take_stmt_ctes_found in Ht as (-> & Hall & Hstop).
      split; [done|]. exists [], (c :: run). split; [done|].
      split; [constructor|]. split.
      { constructor; [by apply cte_matches_decide | done]. }
      destruct Hstop as [->|Hstop]; [by left | right; split; done].
    + rewrite take_stmt_ctes_acc.
      destruct (take_stmt_ctes ir false ctes []) as [g rest'] eqn:Ht.
      intros [= <- <-].
      destruct (IH _ _ eq_refl) as (-> & pre & run & -> & Hpre & Hrun & Hstop).
      split; [done|]. exists (c :: pre), run. split; [done|].
      split; [|done]. constructor; [|done].
      intros Hc. apply cte_matches_decide in Hc. congruence.
Qed.

Lemma compile_one_Ok stmt ir ctes compiled ctes' :
  compile_one stmt ir ctes = Ok (compiled, ctes') ->
  take_stmt_ctes ir false ctes [] = (context.output_ctes compiled, ctes')
  /\ exists last_cte,
       last (context.output_ctes compiled) = Some last_cte
       /\ context.output_relation_name compiled = pgast.cte_name last_cte
       /\ build_output_namespace
            (build_ptr_map (pgast.path_outputs (pgast.query last_cte)))
            (subject_columns stmt) []
          = Ok (context.output_namespace compiled).
Proof.
  unfold compile_one.
  destruct (take_stmt_ctes ir false ctes []) as [g rest] eqn:Ht.
  destruct (last g) as [last_cte|] eqn:Hl; [|done].
  intros Hb. apply Result_bind_Ok in Hb as (ns & Hns & [= <- <-]). simpl.
  split; [done|]. by exists last_cte.
Qed.

Lemma partition_ctes_other pairs ctes result0 result leftovers k :
  partition_ctes pairs ctes result0 = Ok (result, leftovers) ->
  k ∉ map (fun p => pgast.node (input p.1)) pairs ->
  result !! k = result0 !! k.
Proof.
  revert ctes result0.
  induction pairs as [|[stmt ir] pairs IH]; intros ctes result0; simpl.
  - by intros [= <- _].
  - intros Hb Hk. apply Result_bind_Ok in Hb as ([compiled ctes'] & _ & Hb).
    apply not_elem_of_cons in Hk as [Hne Hk].
    rewrite (IH _ _ Hb Hk). by rewrite lookup_insert_ne.
Qed.

Lemma partition_ctes_dom pairs ctes result0 result leftovers :
  partition_ctes pairs ctes result0 = Ok (result, leftovers) ->
  dom result
  = list_to_set (map (fun p => pgast.node (input p.1)) pairs) ∪ dom result0.
Proof.
  revert ctes result0.
  induction pairs as [|[stmt ir] pairs IH]; intros ctes result0; simpl.
  - intros [= <- _]. set_solver.
  - intros Hb. apply Result_bind_Ok in Hb as ([compiled ctes'] & _ & Hb).
    rewrite (IH _ _ Hb), dom_insert_L. set_solver.
Qed.

(** C1, as amended.  Whenever the partition loop of
    [_compile_preprocessed_dml] succeeds on the statements (each paired, in
    order, with its compiled mutating node, the statements being distinct
    nodes) and the compiler's CTE list, the groups stored as [output_ctes]
    are non-empty consecutive segments of the list: concatenated in
    statement order and followed by the leftovers they give back the list,
    so they do not overlap and keep the order.  Each group is what its
    statement consumes from the front of what the earlier statements left:
    CTEs not matching its node, then CTEs matching it, ending at the end of
    the list or, after at least one match, before the first CTE whose
    marker differs from its node. *)
Theorem partition_ctes_groups pairs ctes result leftovers :
  partition_ctes pairs ctes ∅ = Ok (result, leftovers) ->
  NoDup (map (fun p => pgast.node (input p.1)) pairs) ->
  exists groups,
    length groups = length pairs
    /\ concat groups ++ leftovers = ctes
    /\ forall i stmt ir,
         pairs !! i = Some (stmt, ir) ->
         exists group compiled,
           groups !! i = Some group
           /\ group <> []
           /\ result !! pgast.node (input stmt) = Some compiled
           /\ context.output_ctes compiled = group
           /\ is_stmt_run ir group
                (concat (drop (S i) groups) ++ leftovers).
Proof.
  generalize (∅ : gmap nat context.CompiledDML) as result0.
  revert ctes. induction pairs as [|[stmt ir] pairs IH];
    intros ctes result0; simpl.
  - intros [= <- <-] _. exists []. repeat split; try done.
  - intros Hb Hnd. apply NoDup_cons in Hnd as [Hfresh Hnd].
    apply Result_bind_Ok in Hb as ([compiled ctes'] & Hone & Hb).
    apply compile_one_Ok in Hone as [Htake (last_cte & Hlast & _)].
    apply take_stmt_ctes_run in Htake as [-> Hrun].
    destruct (IH _ _ Hb Hnd) as (groups & Hlen & Hcat & Hgroups).
    exists (context.output_ctes compiled :: groups).
    split; [simpl; by rewrite Hlen|].
    split; [simpl; by rewrite <- app_assoc, Hcat|].
    intros [|i] stmt' ir'; simpl.
    + intros [= <- <-]. exists (context.output_ctes compiled), compiled.
      split; [done|]. split; [by intros Hnil; rewrite Hnil in Hlast|].
      split.
      { rewrite (partition_ctes_other _ _ _ _ _ _ Hb Hfresh).
        apply lookup_insert_eq. }
      split; [done|]. unfold drop. by rewrite Hcat.
    + intros Hi. by apply Hgroups.
Qed.

(** ** The output namespace *)

Lemma resolve_output_source_target ptr_map ptr_name :
  is_source_or_target ptr_name = true ->
  resolve_output ptr_map ptr_name = Ok (pgast.ColumnRef [ptr_name] None).
Proof. unfold resolve_output. by intros ->. Qed.

Lemma resolve_output_aspects ptr_map ptr_name :
  is_source_or_target ptr_name = false ->
  resolve_output ptr_map ptr_name
  = match first_aspect ptr_map ptr_name with
    | Some e => Ok e
    | None =>
        Raise (AssertionError
                 (ptr_name ++ " was in shape, but not in path_namespace"))
    end.
Proof.
  unfold resolve_output, first_aspect. intros ->.
  destruct (dict_get (ptr_name, SERIALIZED) ptr_map); [done|].
  by destruct (dict_get (ptr_name, VALUE) ptr_map).
Qed.

Lemma resolve_output_Raise ptr_map ptr_name e :
  resolve_output ptr_map ptr_name = Raise e ->
  e = AssertionError (ptr_name ++ " was in shape, but not in path_namespace")
  /\ is_source_or_target ptr_name = false
  /\ first_aspect ptr_map ptr_name = None.
Proof.
  destruct (is_source_or_target ptr_name) eqn:Hst.
  - by rewrite resolve_output_source_target.
  - rewrite resolve_output_aspects by done.
    destruct (first_aspect ptr_map ptr_name); [done|]. by intros [= <-].
Qed.

Lemma build_output_namespace_other ptr_map cols ns0 ns col :
  build_output_namespace ptr_map cols ns0 = Ok ns ->
  col ∉ cols.*1 ->
  dict_get col ns = dict_get col ns0.
Proof.
  revert ns0. induction cols as [|[c p] cols IH]; intros ns0; simpl.
  - by intros [= <-].
  - intros Hb Hnot. apply not_elem_of_cons in Hnot as [Hne Hnot].
    apply Result_bind_Ok in Hb as (e & _ & Hb).
    rewrite (IH _ Hb Hnot). by apply dict_get_set_ne.
Qed.

Lemma build_output_namespace_Ok ptr_map cols ns0 ns :
  build_output_namespace ptr_map cols ns0 = Ok ns ->
  NoDup cols.*1 ->
  forall col ptr_name,
    (col, ptr_name) ∈ cols ->
    exists e, resolve_output ptr_map ptr_name = Ok e
      /\ dict_get col ns = Some e.
Proof.
  revert ns0. induction cols as [|[c p] cols IH]; intros ns0; simpl.
  - intros _ _ col ptr_name Hin. by apply elem_of_nil in Hin.
  - intros Hb Hnd col ptr_name Hin.
    apply NoDup_cons in Hnd as [Hfresh Hnd].
    apply Result_bind_Ok in Hb as (e & He & Hb).
    apply elem_of_cons in Hin as [[= -> ->]|Hin].
    + exists e. split; [done|].
      rewrite (build_output_namespace_other _ _ _ _ _ Hb Hfresh).
      apply dict_get_set_eq.
    + by eapply IH.
Qed.

Lemma build_output_namespace_Raise ptr_map cols ns0 e :
  build_output_namespace ptr_map cols ns0 = Raise e ->
  exists col ptr_name,
    (col, ptr_name) ∈ cols /\ resolve_output ptr_map ptr_name = Raise e.
Proof.
  revert ns0. induction cols as [|[c p] cols IH]; intros ns0; simpl; [done|].
  destruct (resolve_output ptr_map p) as [v|e'] eqn:Hr; simpl.
  - intros Hb. apply IH in Hb as (col & ptr_name & Hin & Hraise).
    exists col, ptr_name. split; [by apply list_elem_of_further | done].
  - intros [= <-]. exists c, p. split; [apply list_elem_of_here | done].
Qed.

Lemma build_output_namespace_fails ptr_map cols ns0 col ptr_name :
  (col, ptr_name) ∈ cols ->
  is_source_or_target ptr_name = false ->
  first_aspect ptr_map ptr_name = None ->
  exists p,
    build_output_namespace ptr_map cols ns0
    = Raise (AssertionError (p ++ " was in shape, but not in path_namespace")).
Proof.
  intros Hin Hst Hnone.
  destruct (build_output_namespace ptr_map cols ns0) as [ns|e] eqn:Hb.
  - exfalso. revert ns0 Hb. induction cols as [|[c p] cols IH];
      intros ns0; simpl; [by apply elem_of_nil in Hin|].
    intros Hb. apply Result_bind_Ok in Hb as (e & He & Hb).
    apply elem_of_cons in Hin as [[= <- <-]|Hin].
    + rewrite resolve_output_aspects, Hnone in He; done.
    + by eapply IH.
  - apply build_output_namespace_Raise in Hb as (c & p & _ & Hr).
    apply resolve_output_Raise in Hr as (-> & _ & _). by exists p.
Qed.

(** C2, as amended.  The expression entered for a recorded pointer name is
    the literal column reference whenever the name is [source] or [target]
    (whatever the path outputs hold for it), and otherwise the first one
    found in the path-output map of the group's last CTE under the aspects
    [serialized], [value], [identity], in this order.  Every recorded
    column gets its expression this way, and when a recorded name other
    than [source] and [target] resolves under no aspect, the statement
    fails with an assertion error, not a query error. *)
Theorem output_namespace_resolution :
  (forall ptr_map ptr_name,
     is_source_or_target ptr_name = true ->
     resolve_output ptr_map ptr_name = Ok (pgast.ColumnRef [ptr_name] None))
  /\ (forall ptr_map ptr_name,
        is_source_or_target ptr_name = false ->
        resolve_output ptr_map ptr_name
        = match first_aspect ptr_map ptr_name with
          | Some e => Ok e
          | None =>
              Raise (AssertionError
                       (ptr_name
                          ++ " was in shape, but not in path_namespace"))
          end)
  /\ (forall stmt ir ctes compiled rest,
        compile_one stmt ir ctes = Ok (compiled, rest) ->
        NoDup (subject_columns stmt).*1 ->
        exists last_cte,
          last (context.output_ctes compiled) = Some last_cte
          /\ forall col ptr_name,
               (col, ptr_name) ∈ subject_columns stmt ->
               exists e,
                 resolve_output
                   (build_ptr_map
                      (pgast.path_outputs (pgast.query last_cte)))
                   ptr_name = Ok e
                 /\ dict_get col (context.output_namespace compiled) = Some e)
  /\ (forall stmt ir ctes last_cte col ptr_name,
        last (take_stmt_ctes ir false ctes []).1 = Some last_cte ->
        (col, ptr_name) ∈ subject_columns stmt ->
        is_source_or_target ptr_name = false ->
        first_aspect
          (build_ptr_map (pgast.path_outputs (pgast.query last_cte)))
          ptr_name = None ->
        exists p,
          compile_one stmt ir ctes
          = Raise (AssertionError
                     (p ++ " was in shape, but not in path_namespace"))).
Proof.
  split; [exact resolve_output_source_target|].
  split; [exact resolve_output_aspects|].
  split.
  - intros stmt ir ctes compiled rest Hone Hnd.
    apply compile_one_Ok in Hone as [_ (last_cte & Hlast & _ & Hns)].
    exists last_cte. split; [done|].
    intros col ptr_name Hin. by eapply build_output_namespace_Ok.
  - intros stmt ir ctes last_cte col ptr_name Hlast Hin Hst Hnone.
    unfold compile_one.
    destruct (take_stmt_ctes ir false ctes []) as [g rest]. simpl in Hlast.
    rewrite Hlast.
    destruct (build_output_namespace_fails _ _ [] _ _ Hin Hst Hnone)
      as [p ->].
    by exists p.
Qed.

(** ** One compiled entry per collected statement *)

Lemma truthy_default {A} (l : option (list A)) :
  (if truthy l then default [] l else []) = default [] l.
Proof. by destruct l as [[|]|]. Qed.

Lemma collect_dml_stmts_spec top s :
  s ∈ _collect_dml_stmts top <->
  exists q, top = pgast.BaseQuery q
    /\ (q = pgast.InsertStmt s
        \/ exists cte, cte ∈ default [] (pgast.ctes q)
             /\ pgast.query cte = pgast.InsertStmt s).
Proof.
  destruct top as [q|r|e]; unfold _collect_dml_stmts;
    [|split; [by intros ?%elem_of_nil | by intros (? & ? & _)]..].
  rewrite truthy_default, elem_of_app, list_elem_of_omap.
  split.
  - intros [(cte & Hin & Hq)|Hin].
    + exists q. split; [done|]. right. exists cte. split; [done|].
      destruct (pgast.query cte); congruence.
    + exists q. split; [done|]. left.
      destruct q; try by apply elem_of_nil in Hin.
      apply list_elem_of_singleton in Hin. by subst.
  - intros (q' & [= <-] & [->|(cte & Hin & Hq)]).
    + right. apply list_elem_of_here.
    + left. exists cte. split; [done|]. by rewrite Hq.
Qed.

Section BatchFacts.
Context `{Schema} `{Collaborators}.

Lemma preprocess_insert_object_stmt_input stmt sub sub_table expected ctx
    res ctx' :
  _preprocess_insert_object_stmt stmt sub sub_table expected ctx
    = (Ok res, ctx') ->
  pgast.node (input res) = pgast.node stmt.
Proof.
  unfold _preprocess_insert_object_stmt. intros Hp.
  apply M_bind_Ok in Hp as ([[vr expected'] q'] & ctx1 & _ & Hp).
  apply M_bind_Ok in Hp as (value_name & ctx2 & _ & Hp).
  apply M_bind_Ok in Hp as (iterator_name & ctx3 & _ & Hp).
  apply M_bind_Ok in Hp as (value_cte_name & ctx4 & _ & Hp).
  apply M_bind_Ok in Hp as ([[outs vcols] shape] & ctx5 & _ & Hp).
  apply M_bind_Ok in Hp as (value_iterator & ctx6 & _ & Hp).
  apply M_bind_Ok in Hp as (rshape & ctx7 & _ & Hp).
  by injection Hp as <- _.
Qed.

Lemma preprocess_insert_pointer_stmt_input stmt sub sub_table expected ctx
    res ctx' :
  _preprocess_insert_pointer_stmt stmt sub sub_table expected ctx
    = (Ok res, ctx') ->
  pgast.node (input res) = pgast.node stmt.
Proof.
  unfold _preprocess_insert_pointer_stmt.
  destruct (negb (has_column "source" expected)); [done|].
  destruct (negb (has_column "target" expected)); [done|].
  destruct (get_source sub) as [[| | |]|]; try done.
  destruct (get_target sub); [|done]. intros Hp.
  apply M_bind_Ok in Hp as ([[vr expected'] q'] & ctx1 & _ & Hp).
  apply M_bind_Ok in Hp as (value_name & ctx2 & _ & Hp).
  apply M_bind_Ok in Hp as (iterator_name & ctx3 & _ & Hp).
  apply M_bind_Ok in Hp as (value_cte_name & ctx4 & _ & Hp).
  apply M_bind_Ok in Hp as ([outs vcols] & ctx5 & _ & Hp).
  apply M_bind_Ok in Hp as (value_iterator & ctx6 & _ & Hp).
  by injection Hp as <- _.
Qed.

Lemma preprocess_insert_stmt_input stmt ctx res ctx' :
  _preprocess_insert_stmt stmt ctx = (Ok res, ctx') ->
  pgast.node (input res) = pgast.node stmt.
Proof.
  unfold _preprocess_insert_stmt. intros Hp.
  apply M_bind_Ok in Hp as ([rel table] & ctx1 & _ & Hp).
  destruct (context.schema_id table) as [id|]; [|done].
  apply M_bind_Ok in Hp as (expected & ctx2 & _ & Hp).
  apply M_bind_Ok in Hp as (res0 & ctx3 & Hres0 & Hp).
  assert (pgast.node (input res0) = pgast.node stmt) as Hnode.
  { destruct (get_by_id id); try done.
    - by eapply preprocess_insert_object_stmt_input.
    - by eapply preprocess_insert_pointer_stmt_input.
    - by eapply preprocess_insert_pointer_stmt_input. }
  case_bool_decide.
  - by injection Hp as <- _.
  - apply M_bind_Ok in Hp as (sc & ctx4 & _ & [= <- _]). done.
Qed.

Lemma mapM_preprocess_inputs dml ctx stmts ctx' :
  mapM_ctx _preprocess_insert_stmt dml ctx = (Ok stmts, ctx') ->
  map (fun p => pgast.node (input p)) stmts = map pgast.node dml.
Proof.
  revert ctx stmts. induction dml as [|s dml IH]; intros ctx stmts; simpl.
  - by intros [= <- _].
  - intros Hp. apply M_bind_Ok in Hp as (p & ctx1 & Hs & Hp).
    apply M_bind_Ok in Hp as (ps & ctx2 & Hps & [= <- <-]). simpl.
    f_equal; [by eapply preprocess_insert_stmt_input | by eapply IH].
Qed.

Lemma merge_external_rels_length by_name pairs rels irs rels' irs' :
  merge_external_rels by_name pairs rels irs = Ok (rels', irs') ->
  length irs' = length irs + length pairs.
Proof.
  revert rels irs. induction pairs as [|[stmt name] pairs IH];
    intros rels irs; simpl.
  - intros [= _ <-]. lia.
  - destruct (dict_get name by_name) as [element|]; [|done].
    intros Hb. apply Result_bind_Ok in Hb as ([id p] & _ & Hb).
    apply IH in Hb. rewrite length_app in Hb. simpl in Hb. lia.
Qed.

Lemma merge_and_prepare_length ir_stmt stmts names rels irs :
  _merge_and_prepare_external_rels ir_stmt stmts names = Ok (rels, irs) ->
  length irs = length (zip stmts names).
Proof.
  unfold _merge_and_prepare_external_rels.
  destruct (irast.expr ir_stmt); try done.
  case_bool_decide; [done|].
  intros Hm. by apply merge_external_rels_length in Hm.
Qed.

Context `{Compiler}.

(** The compiled mutating nodes are as many as the statements. *)
Lemma compile_batch_length stmts ctx ast ir_stmts ctx' :
  compile_batch stmts ctx = (Ok (ast, ir_stmts), ctx') ->
  length ir_stmts = length stmts.
Proof.
  unfold compile_batch.
  destruct (compile_ast_to_ir _ _) as [ir_stmt|[]]; [|done..].
  destruct (_merge_and_prepare_external_rels _ _ _)
    as [[rels irs]|[]] eqn:Hm; [|done..].
  apply merge_and_prepare_length in Hm.
  rewrite length_zip, length_imap in Hm.
  destruct (compile_ir_to_sql_tree _ _ _) as [[ast'|[]] counter]; [|done..].
  simpl. intros [= _ <- _]. lia.
Qed.

Lemma compile_preprocessed_dml_dom stmts ctx result ctes ctx' :
  _compile_preprocessed_dml stmts ctx = (Ok (result, ctes), ctx') ->
  dom result = list_to_set (map (fun p => pgast.node (input p)) stmts).
Proof.
  unfold _compile_preprocessed_dml. intros Hc.
  apply M_bind_Ok in Hc as ([ast ir_stmts] & ctx1 & Hb & Hc).
  apply compile_batch_length in Hb.
  destruct ast as [q| |]; [|done..].
  destruct (truthy (pgast.ctes q)); [|done].
  apply lift_Ok in Hc as [Hp _].
  apply partition_ctes_dom in Hp. rewrite Hp, dom_empty_L.
  rewrite (right_id_L ∅ (∪)).
  f_equal. rewrite <- (fst_zip stmts ir_stmts.*1) at 2
    by (rewrite length_fmap; lia).
  by rewrite <- list_fmap_compose.
Qed.

Lemma compile_dml_dom top ctx ctes ctx' :
  compile_dml top ctx = (Ok ctes, ctx') ->
  _collect_dml_stmts top <> [] ->
  dom (compiled_dml ctx')
  = list_to_set (map pgast.node (_collect_dml_stmts top)).
Proof.
  unfold compile_dml. intros Hc Hne.
  rewrite bool_decide_eq_false_2 in Hc
    by (by destruct (_collect_dml_stmts top)).
  apply M_bind_Ok in Hc as (stmts & ctx1 & Hpre & Hc).
  apply M_bind_Ok in Hc as ([result ctes'] & ctx2 & Hcomp & Hc).
  unfold_M. injection Hc as _ <-. simpl.
  apply compile_preprocessed_dml_dom in Hcomp.
  apply mapM_preprocess_inputs in Hpre. by rewrite Hcomp, Hpre.
Qed.

(** C9, as amended.  The DML collection gathers the top-level statement
    when it is an [InsertStmt] and the [InsertStmt] queries of its immediate
    CTEs, and nothing else.  When [compile_dml] returns, the keys of the
    compiled-DML mapping of the context are exactly the nodes of the
    collected statements, so each of them has its entry (a mapping holds
    one entry per key) before the tree is resolved, and an [InsertStmt]
    reachable elsewhere in the query has none.  A visited [InsertStmt]
    (below depth 2) without an entry fails with the uncaught [KeyError] of
    the lookup, not with a query error, and leaves the context as it
    was. *)
Theorem compile_dml_entries top :
  (forall s,
     s ∈ _collect_dml_stmts top <->
     exists q, top = pgast.BaseQuery q
       /\ (q = pgast.InsertStmt s
           \/ exists cte, cte ∈ default [] (pgast.ctes q)
                /\ pgast.query cte = pgast.InsertStmt s))
  /\ (forall ctx ctes ctx',
        compile_dml top ctx = (Ok ctes, ctx') ->
        _collect_dml_stmts top <> [] ->
        dom (compiled_dml ctx')
        = list_to_set (map pgast.node (_collect_dml_stmts top))
        /\ (forall s, s ∈ _collect_dml_stmts top ->
              is_Some (compiled_dml ctx' !! pgast.node s))
        /\ (forall s : pgast.InsertStmtF pgast.Query,
              pgast.node s ∉ map pgast.node (_collect_dml_stmts top) ->
              compiled_dml ctx' !! pgast.node s = None))
  /\ (forall stmt include_inherited ctx,
        (subquery_depth ctx < 2)%Z ->
        compiled_dml ctx !! pgast.node stmt = None ->
        resolve_InsertStmt stmt include_inherited ctx = (Raise KeyError, ctx)
        /\ is_query_error (resolve_InsertStmt stmt include_inherited ctx).1
           = false).
Proof.
  split; [intros s; apply collect_dml_stmts_spec|]. split.
  - intros ctx ctes ctx' Hc Hne.
    pose proof (compile_dml_dom _ _ _ _ Hc Hne) as Hdom.
    split; [done|]. split.
    + intros s Hs.
      apply elem_of_dom. rewrite Hdom. apply elem_of_list_to_set.
      by apply list_elem_of_fmap_2.
    + intros s Hs. apply not_elem_of_dom. rewrite Hdom.
      by rewrite elem_of_list_to_set.
  - intros stmt include_inherited ctx Hd Hnone.
    rewrite resolve_InsertStmt_unfold, Hnone.
    rewrite bool_decide_eq_false_2 by lia. done.
Qed.

End BatchFacts.

(** ** The value-relation normaliser *)

Lemma scan_row_spec row_args k s i :
  i ∈ scan_row row_args k s <->
  i ∈ s \/ exists j e,
    row_args !! j = Some e /\ is_default e = true /\ i = k + j.
Proof.
  revert k s. induction row_args as [|col rest IH]; intros k s; simpl.
  - split; [auto|]. intros [?|(j & e & Hl & _)]; [done|].
    by rewrite lookup_nil in Hl.
  - rewrite IH. split.
    + intros [Hin|(j & e & Hl & Hd & ->)].
      * destruct (is_default col) eqn:Hc; [|by left].
        apply elem_of_union in Hin as [->%elem_of_singleton|Hin]; [|by left].
        right. exists 0, col. split; [done|]. split; [done|]. lia.
      * right. exists (S j), e. split; [done|]. split; [done|]. lia.
    + intros [Hin|(j & e & Hl & Hd & ->)].
      * left. destruct (is_default col); set_solver.
      * destruct j as [|j]; simpl in Hl.
        -- injection Hl as ->. left. rewrite Hd. rewrite Nat.add_0_r.
           set_solver.
        -- right. exists j, e. split; [done|]. split; [done|]. lia.
Qed.

Lemma foldl_scan_row_spec values s i :
  i ∈ foldl (fun s row => scan_row (pgast.args row) 0 s) s values <->
  i ∈ s \/ exists row e,
    row ∈ values /\ pgast.args row !! i = Some e /\ is_default e = true.
Proof.
  revert s. induction values as [|row values IH]; intros s; simpl.
  - split; [auto|]. intros [?|(row & e & Hin & _)]; [done|].
    by apply elem_of_nil in Hin.
  - rewrite IH, scan_row_spec. split.
    + intros [[Hin|(j & e & Hl & Hd & ->)]|(r & e & Hin & Hl & Hd)].
      * by left.
      * right. exists row, e. split; [apply list_elem_of_here | done].
      * right. exists r, e. split; [by apply list_elem_of_further | done].
    + intros [Hin|(r & e & Hin & Hl & Hd)]; [by left; left|].
      apply elem_of_cons in Hin as [->|Hin].
      * left. right. by exists i, e.
      * right. by exists r, e.
Qed.

(** The set built by the scan holds exactly the positions at which some
    row has [DEFAULT]. *)
Lemma find_default_columns_spec values i :
  i ∈ find_default_columns values <->
  exists row e,
    row ∈ values /\ pgast.args row !! i = Some e /\ is_default e = true.
Proof.
  unfold find_default_columns. rewrite foldl_scan_row_spec.
  split; [|by right]. intros [Hin|?]; [|done]. set_solver.
Qed.

Lemma elem_of_sorted_reverse s i : i ∈ sorted_reverse s <-> i ∈ s.
Proof.
  unfold sorted_reverse. rewrite merge_sort_Permutation.
  apply elem_of_elements.
Qed.

#[local] Instance flip_le_total : Total (flip Nat.le).
Proof. intros x y. unfold flip. lia. Qed.

#[local] Instance flip_le_trans : Transitive (flip Nat.le).
Proof. intros x y z. unfold flip. lia. Qed.

(** Strictly descending lists. *)
Lemma sorted_reverse_desc s : StronglySorted (flip lt) (sorted_reverse s).
Proof.
  assert (NoDup (sorted_reverse s)) as Hnd.
  { unfold sorted_reverse. rewrite merge_sort_Permutation.
    apply NoDup_elements. }
  assert (StronglySorted (flip Nat.le) (sorted_reverse s)) as Hs.
  { apply StronglySorted_merge_sort; apply _. }
  induction Hs as [|x l Hs IH Hall]; [constructor|].
  apply NoDup_cons in Hnd as [Hx Hnd].
  constructor; [by apply IH|].
  apply Forall_forall. intros y Hy.
  pose proof (proj1 (Forall_forall _ _) Hall y Hy) as Hle.
  unfold flip in *. assert (y <> x) by (by intros ->). lia.
Qed.

Lemma sorted_reverse_empty : sorted_reverse ∅ = [].
Proof. unfold sorted_reverse. by rewrite elements_empty. Qed.

Lemma defaults_within_find values :
  defaults_within (sorted_reverse (find_default_columns values)) values.
Proof.
  intros row i e Hin Hl Hd.
  apply elem_of_sorted_reverse, find_default_columns_spec. by exists row, e.
Qed.

Lemma defaults_within_nil values :
  defaults_within [] values -> find_default_columns values = ∅.
Proof.
  intros Hw. apply set_eq. intros i. split; [|set_solver].
  intros (row & e & Hin & Hl & Hd)%find_default_columns_spec.
  pose proof (Hw row i e Hin Hl Hd) as Hnil. by apply elem_of_nil in Hnil.
Qed.

(** What the inner loop does to each row when it succeeds. *)
Lemma remove_from_rows_Ok span d rows rows' :
  remove_from_rows span d rows = Ok rows' ->
  Forall2 (fun row row' =>
             (exists e, pgast.args row !! d = Some e /\ is_default e = true)
             /\ row' = pgast.mkRow (delete d (pgast.args row)))
    rows rows'.
Proof.
  revert rows'. induction rows as [|row rest IH]; intros rows'; simpl.
  - intros [= <-]. constructor.
  - destruct (pgast.args row !! d) as [e|] eqn:Hl; [|done].
    destruct (is_default e) eqn:Hd; [|done].
    intros Hb. apply Result_bind_Ok in Hb as (rest' & Hrest & [= <-]).
    constructor; [|by apply IH]. split; [by exists e | done].
Qed.

Lemma remove_from_rows_within span d cols rows rows' :
  remove_from_rows span d rows = Ok rows' ->
  defaults_within (d :: cols) rows ->
  Forall (fun x => x < d) cols ->
  defaults_within cols rows'.
Proof.
  intros Hrm Hw Hlt row' i e Hin Hl Hd.
  apply remove_from_rows_Ok in Hrm.
  apply list_elem_of_lookup in Hin as [k Hk].
  destruct (Forall2_lookup_r _ _ _ _ _ Hrm Hk) as (row & Hrow & _ & ->).
  apply list_elem_of_lookup_2 in Hrow. simpl in Hl.
  destruct (decide (i < d)) as [Hi|Hi].
  - rewrite list_lookup_delete_lt in Hl by done.
    pose proof (Hw row i e Hrow Hl Hd) as Hin.
    apply elem_of_cons in Hin as [->|Hin]; [lia | done].
  - rewrite list_lookup_delete_ge in Hl by lia.
    pose proof (Hw row (S i) e Hrow Hl Hd) as Hin.
    apply elem_of_cons in Hin as [Heq|Hin]; [lia|].
    pose proof (proj1 (Forall_forall _ _) Hlt _ Hin) as Hlt'.
    simpl in Hlt'. lia.
Qed.

(** After a successful removal no [DEFAULT] is left in the rows. *)
Lemma remove_defaults_within span cols expected rows expected' rows' :
  remove_defaults span cols expected rows = Ok (expected', rows') ->
  StronglySorted (flip lt) cols ->
  defaults_within cols rows ->
  defaults_within [] rows'.
Proof.
  revert expected rows. induction cols as [|d cols IH];
    intros expected rows; simpl.
  - by intros [= _ <-].
  - case_decide; [|done]. intros Hb Hs Hw.
    apply Result_bind_Ok in Hb as (rows1 & Hrm & Hb).
    apply StronglySorted_inv in Hs as [Hs Hall].
    eapply IH; [done | done |].
    eapply remove_from_rows_within; [done | done |].
    eapply Forall_impl; [exact Hall|]. intros x Hx. exact Hx.
Qed.

(** *** Rectangular [VALUES] lists

    When all rows have the same width, not above the number of expected
    columns, no index is ever out of range and the outcome of the removal
    is decided by the use of [DEFAULT] alone. *)

Lemma remove_from_rows_all span d rows :
  Forall (default_at d) rows ->
  remove_from_rows span d rows
  = Ok (map (fun row => pgast.mkRow (delete d (pgast.args row))) rows).
Proof.
  induction 1 as [|row rows (e & Hl & Hd) _ IH]; simpl; [done|].
  by rewrite Hl, Hd, IH.
Qed.

Lemma default_or_value d n row :
  length (pgast.args row) = n -> d < n -> default_at d row \/ value_at d row.
Proof.
  intros Hlen Hd. destruct (lookup_lt_is_Some_2 (pgast.args row) d) as [e He];
    [lia|].
  destruct (is_default e) eqn:Hdef; [left | right]; by exists e.
Qed.

Lemma all_default_or_value d n rows :
  Forall (fun row => length (pgast.args row) = n) rows -> d < n ->
  Forall (default_at d) rows \/ exists row, row ∈ rows /\ value_at d row.
Proof.
  intros Hlen Hd. induction Hlen as [|row rows Hrow _ IH]; [by left|].
  destruct (default_or_value d n row Hrow Hd) as [Hdef|Hval].
  - destruct IH as [IH|(row' & Hin & Hval)].
    + left. by constructor.
    + right. exists row'. split; [by apply list_elem_of_further | done].
  - right. exists row. split; [apply list_elem_of_here | done].
Qed.

Lemma remove_from_rows_partial span d n rows :
  Forall (fun row => length (pgast.args row) = n) rows -> d < n ->
  (exists row, row ∈ rows /\ value_at d row) ->
  remove_from_rows span d rows = Raise (default_only_in_all_rows span).
Proof.
  intros Hlen Hd. induction Hlen as [|row rows Hrow _ IH]; simpl.
  - intros (row & Hin & _). by apply elem_of_nil in Hin.
  - intros (row' & Hin & Hval).
    destruct (default_or_value d n row Hrow Hd)
      as [(e & He & Hdef)|(e & He & Hdef)]; rewrite He, Hdef; [|done].
    apply elem_of_cons in Hin as [->|Hin].
    + destruct Hval as (e' & He' & Hd'). congruence.
    + rewrite IH; [done|]. by exists row'.
Qed.

Lemma delete_row_facts d n rows :
  Forall (fun row => length (pgast.args row) = n) rows -> d < n ->
  let rows' := map (fun row => pgast.mkRow (delete d (pgast.args row))) rows in
  Forall (fun row => length (pgast.args row) = n - 1) rows'
  /\ (forall d', d' < d ->
        (Forall (default_at d') rows -> Forall (default_at d') rows')
        /\ ((exists row, row ∈ rows /\ value_at d' row) ->
            exists row, row ∈ rows' /\ value_at d' row)).
Proof.
  intros Hlen Hd rows'. subst rows'. split.
  - apply Forall_fmap. eapply Forall_impl; [exact Hlen|].
    intros row Hrow. simpl in *. rewrite length_delete; [lia|].
    apply lookup_lt_is_Some_2. lia.
  - intros d' Hd'. split.
    + intros Hall. apply Forall_fmap. eapply Forall_impl; [exact Hall|].
      intros row (e & Hl & Hdef). exists e. simpl.
      by rewrite list_lookup_delete_lt.
    + intros (row & Hin & e & Hl & Hval).
      exists (pgast.mkRow (delete d (pgast.args row))).
      split.
      { apply (list_elem_of_fmap_2
                 (fun row => pgast.mkRow (delete d (pgast.args row)))).
        exact Hin. }
      exists e. simpl. by rewrite list_lookup_delete_lt.
Qed.

Lemma remove_defaults_rectangular span cols :
  forall expected rows n,
    Forall (fun row => length (pgast.args row) = n) rows ->
    n <= length expected ->
    StronglySorted (flip lt) cols ->
    Forall (fun d => d < n) cols ->
    (Forall (fun d => Forall (default_at d) rows) cols ->
     remove_defaults span cols expected rows
     = Ok (delete_all cols expected,
           map (fun row => pgast.mkRow (delete_all cols (pgast.args row)))
             rows))
    /\ ((exists d row, d ∈ cols /\ row ∈ rows /\ value_at d row) ->
        remove_defaults span cols expected rows
        = Raise (default_only_in_all_rows span)).
Proof.
  induction cols as [|d cols IH]; intros expected rows n Hlen Hn Hs Hlt.
  - split.
    + intros _. simpl. f_equal. f_equal. induction rows as [|[a] rows IHr];
        [done|]. simpl. f_equal. apply IHr. by inversion Hlen.
    + intros (d & row & Hin & _). by apply elem_of_nil in Hin.
  - apply StronglySorted_inv in Hs as [Hs Hbelow].
    apply Forall_cons in Hlt as [Hd Hlt].
    destruct (delete_row_facts d n rows Hlen Hd) as [Hlen' Hkeep].
    assert (Forall (fun d' => d' < d) cols) as Hbelow'.
    { eapply Forall_impl; [exact Hbelow|]. intros x Hx. exact Hx. }
    assert (Forall (fun d' => d' < n - 1) cols) as Hlt'.
    { eapply Forall_impl; [exact Hbelow'|]. intros x Hx. simpl in Hx. lia. }
    assert (n - 1 <= length (delete d expected)) as Hn'.
    { rewrite length_delete; [lia|]. apply lookup_lt_is_Some_2. lia. }
    destruct (IH (delete d expected) _ (n - 1) Hlen' Hn' Hs Hlt')
      as [IHok IHraise].
    simpl. rewrite decide_True by lia. split.
    + intros Hall. apply Forall_cons in Hall as [Hdef Hall].
      rewrite (remove_from_rows_all _ _ _ Hdef). simpl.
      rewrite IHok.
      * f_equal. f_equal. rewrite map_map. done.
      * apply Forall_forall. intros d' Hd'.
        apply (Hkeep d').
        -- exact (proj1 (Forall_forall _ _) Hbelow' d' Hd').
        -- exact (proj1 (Forall_forall _ _) Hall d' Hd').
    + intros (d0 & row & Hin & Hrow & Hval).
      destruct (all_default_or_value d n rows Hlen Hd) as [Hdef|Hpartial].
      * rewrite (remove_from_rows_all _ _ _ Hdef). simpl.
        apply IHraise. apply elem_of_cons in Hin as [->|Hin].
        -- exfalso. destruct Hval as (e & Hl & Hv).
           destruct (proj1 (Forall_forall _ _) Hdef row Hrow)
             as (e' & Hl' & Hv'). congruence.
        -- exists d0.
           destruct (proj2 (Hkeep d0
                       (proj1 (Forall_forall _ _) Hbelow' d0 Hin)))
             as (row' & Hin' & Hval'); [by exists row|].
           by exists row'.
      * by rewrite (remove_from_rows_partial _ _ _ _ Hlen Hd Hpartial).
Qed.

(** On a rectangular [VALUES] list that fits the expected columns: a
    position that mixes [DEFAULT] with other values makes the normaliser
    fail with the unsupported-feature query error; when every position that
    uses [DEFAULT] does so in all rows, these positions are deleted from
    every row and from the expected columns. *)
Lemma preprocess_insert_value_defaults s value_ctes expected n :
  pgast.values s <> [] ->
  Forall (fun row => length (pgast.args row) = n) (pgast.values s) ->
  n <= length expected ->
  let cols := sorted_reverse (find_default_columns (pgast.values s)) in
  ((exists i row row',
      row ∈ pgast.values s /\ default_at i row
      /\ row' ∈ pgast.values s /\ value_at i row') ->
   _preprocess_insert_value (Some (pgast.SelectStmt s)) value_ctes expected
   = Raise (QueryError
       "DEFAULT keyword is supported only when used for a column in all rows"
       (pgast.sel_span s) (Some ERROR_FEATURE_NOT_SUPPORTED)))
  /\ ((forall i row,
         i ∈ cols -> row ∈ pgast.values s -> default_at i row) ->
      let rows' :=
        map (fun row => pgast.mkRow (delete_all cols (pgast.args row)))
          (pgast.values s) in
      strip_defaults (pgast.SelectStmt s) expected
      = Ok (pgast.SelectStmt (pgast.set_values rows' s),
            (if is_empty_rows rows' then Some (null_rows_select rows')
             else None),
            delete_all cols expected)).
Proof.
  intros Hne Hlen Hn cols.
  assert (Forall (fun d => d < n) cols) as Hlt.
  { apply Forall_forall. intros d Hd.
    apply elem_of_sorted_reverse, find_default_columns_spec in Hd
      as (row & e & Hin & Hl & _).
    apply lookup_lt_Some in Hl.
    pose proof (proj1 (Forall_forall _ _) Hlen row Hin) as Hrow.
    simpl in Hrow. lia. }
  destruct (remove_defaults_rectangular (pgast.sel_span s) cols expected
              (pgast.values s) n Hlen Hn (sorted_reverse_desc _) Hlt)
    as [Hok Hraise].
  split.
  - intros (i & row & row' & Hin & (e & Hl & Hd) & Hin' & Hval).
    simpl. rewrite bool_decide_eq_false_2 by done.
    fold cols. rewrite Hraise; [done|].
    exists i, row'. split; [|done].
    apply elem_of_sorted_reverse, find_default_columns_spec. by exists row, e.
  - intros Hall rows'. simpl. rewrite bool_decide_eq_false_2 by done.
    fold cols. rewrite Hok.
    + simpl. fold rows'. by destruct (is_empty_rows rows').
    + apply Forall_forall. intros d Hd. apply Forall_forall.
      intros row Hrow. by apply Hall.
Qed.

Lemma set_ctes_set_ctes c q : pgast.set_ctes c (pgast.set_ctes c q) = pgast.set_ctes c q.
Proof. by destruct q. Qed.

Lemma ctes_set_ctes c q : pgast.ctes (pgast.set_ctes c q) = c.
Proof. by destruct q. Qed.


Lemma strip_defaults_no_values q expected :
  has_no_values q -> strip_defaults q expected = Ok (q, None, expected).
Proof.
  destruct q as [s| |]; simpl; [|done..].
  intros ->. by rewrite bool_decide_eq_true_2.
Qed.

Lemma has_no_values_set_ctes c q :
  has_no_values q -> has_no_values (pgast.set_ctes c q).
Proof. by destruct q. Qed.

(** A relation whose rows hold no [DEFAULT] and are not empty rows goes
    through the block untouched as well. *)
Lemma strip_defaults_clean s expected :
  defaults_within [] (pgast.values s) ->
  is_empty_rows (pgast.values s) = false ->
  strip_defaults (pgast.SelectStmt s) expected
  = Ok (pgast.SelectStmt s, None, expected).
Proof.
  intros Hw He. simpl. case_bool_decide; [done|].
  rewrite (defaults_within_nil _ Hw), sorted_reverse_empty. simpl.
  rewrite He. by destruct s.
Qed.

(** Running the normaliser again on a relation it would leave alone. *)
Lemma preprocess_insert_value_fixed q value_ctes expected :
  strip_defaults q expected = Ok (q, None, expected) ->
  pgast.ctes q = value_ctes ->
  truthy value_ctes = false ->
  _preprocess_insert_value (Some q) value_ctes expected
  = Ok (q, expected, Some q).
Proof.
  intros Hs Hc Ht. simpl. rewrite Hs. simpl. rewrite Hc, Ht.
  rewrite <- Hc. by destruct q as [[]|[]|[]].
Qed.

Lemma strip_defaults_again q expected q_in rebound expected' value_ctes :
  strip_defaults q expected = Ok (q_in, rebound, expected') ->
  let vr := pgast.set_ctes value_ctes (default q_in rebound) in
  strip_defaults vr expected' = Ok (vr, None, expected').
Proof.
  intros Hs vr. subst vr.
  destruct q as [s|i|d];
    [|injection Hs as <- <- <-; by apply strip_defaults_no_values..].
  simpl in Hs. case_bool_decide as Hv.
  { injection Hs as <- <- <-. apply strip_defaults_no_values. exact Hv. }
  apply Result_bind_Ok in Hs as ([e' vs'] & Hrm & Hs).
  pose proof (remove_defaults_within _ _ _ _ _ _ Hrm
                (sorted_reverse_desc _) (defaults_within_find _)) as Hclean.
  destruct (is_empty_rows vs') eqn:He; injection Hs as <- <- <-.
  - by apply strip_defaults_no_values.
  - by apply (strip_defaults_clean
                (pgast.mkSelectStmt vs' _ _ _ value_ctes _ _)).
Qed.

(** C8, as amended.  When the normaliser succeeds and the statement carries
    no CTEs (the CTE list is absent, or it is empty and a row source is
    present), applying it again to the value relation and the expected
    columns it returned gives them back unchanged: the [DEFAULT] block
    finds nothing to remove and does not rewrite empty rows a second
    time. *)
Theorem preprocess_insert_value_idempotent value_query value_ctes expected
    vr expected' q' :
  _preprocess_insert_value value_query value_ctes expected
    = Ok (vr, expected', q') ->
  value_ctes = None \/ (value_ctes = Some [] /\ value_query <> None) ->
  _preprocess_insert_value (Some vr) value_ctes expected'
    = Ok (vr, expected', Some vr)
  /\ strip_defaults vr expected' = Ok (vr, None, expected').
Proof.
  intros Hrun Hctes.
  assert (truthy value_ctes = false) as Ht.
  { by destruct Hctes as [->|[-> _]]. }
  destruct value_query as [q|]; simpl in Hrun.
  - apply Result_bind_Ok in Hrun as ([[q_in rebound] e'] & Hs & Hrun).
    destruct (truthy (pgast.ctes (default q_in rebound))); [done|].
    injection Hrun as <- <- _.
    pose proof (strip_defaults_again _ _ _ _ _ value_ctes Hs) as Hagain.
    simpl in Hagain. split; [|done].
    apply preprocess_insert_value_fixed; [done | apply ctes_set_ctes | done].
  - injection Hrun as <- <- _.
    destruct Hctes as [->|[_ ?]]; [|done]. done.
Qed.

(** * Closed instances *)

Section Instances.
Import Example Cases.
#[local] Existing Instance schema.
#[local] Existing Instance collaborators.
#[local] Existing Instance compiler.

Lemma pull_columns_from_table_witness :
  exists cols,
    _pull_columns_from_table movie_table
      (Some [("__type__", None); ("title", None)]) = Ok cols.
Proof.
  pose proof (proj1 (pull_columns_from_table_spec movie_table
                       [("__type__", None); ("title", None)])) as Hthm.
  destruct Hthm as (_ & Htotal & _); [discriminate|].
  apply Htotal. intros n Hn. simpl in Hn.
  apply elem_of_cons in Hn as [->|Hn];
    [|apply elem_of_cons in Hn as [->|Hn]; [|by apply elem_of_nil in Hn]].
  - exists (col "__type__" true). split; [apply list_elem_of_here | reflexivity].
  - exists (col "title" false).
    split; [apply list_elem_of_further, list_elem_of_here | reflexivity].
Defined.

Lemma resolve_InsertStmt_depth_guard_witness :
  resolve_InsertStmt insert_movies false (set_subquery_depth 2 ctx0)
  = (Raise (QueryError
       "WITH clause containing a data-modifying statement must be at the top level"
       None (Some ERROR_FEATURE_NOT_SUPPORTED)), set_subquery_depth 2 ctx0).
Proof.
  apply (proj1 (resolve_InsertStmt_depth_guard insert_movies false
                  (set_subquery_depth 2 ctx0))).
  simpl. lia.
Defined.

Lemma resolve_InsertStmt_no_returning_witness :
  exists res_query res_table ctx' attached,
    resolve_InsertStmt insert_movies false ctx_compiled
      = (Ok (res_query, res_table), ctx')
    /\ res_table = context.mkTable None None None []
    /\ res_query
       = pgast.SelectStmt
           (pgast.mkSelectStmt []
              [pgast.mkResTarget None (pgast.FuncCall ["count"] [] true)]
              [pgast.FromRelRangeVar
                 (pgast.mkRelRangeVar (pgast.mkRelation "ins_contents" [])
                    (pgast.mkAlias None))]
              None (Some attached) None []).
Proof.
  pose proof (resolve_InsertStmt_no_returning insert_movies false
                ctx_compiled) as Hthm.
  edestruct Hthm
    as (compiled & moved & value_cte & Hc & _ & Htable & Hzero & _);
    [vm_compute; reflexivity | reflexivity |].
  vm_compute in Hc. injection Hc as <-.
  eexists _, _, _, _. split; [vm_compute; reflexivity|].
  split; [exact Htable|]. apply Hzero. vm_compute. reflexivity.
Defined.

Lemma object_insert_for_wrapper_witness :
  exists res ctx' insert_shape,
    _preprocess_insert_object_stmt insert_movies (ObjectType 1) movie_table
      [col "title" false] ctx0 = (Ok res, ctx')
    /\ ql_stmt res
       = qlast.ForQuery (qlast.Path [qlast.IRAnchor "ins_val~0"] false)
           "ins_iter~1"
           (qlast.InsertQuery (qlast.ObjectRef "Movie" (Some "default"))
              insert_shape)
    /\ length insert_shape = 1.
Proof.
  pose proof (object_insert_for_wrapper insert_movies (ObjectType 1)
                movie_table [col "title" false] ctx0) as Hthm.
  edestruct Hthm
    as [(vr & expected' & q' & insert_shape & Hv & Hall & Hql) _];
    [vm_compute; reflexivity|].
  eexists _, _, insert_shape. split; [vm_compute; reflexivity|].
  split; [exact Hql|].
  vm_compute in Hv. injection Hv as _ <- _.
  apply Forall2_length in Hall. simpl in Hall. by rewrite <- Hall.
Defined.

Lemma compile_dml_missing_link_column_witness :
  exists c,
    (c = "source" \/ c = "target")
    /\ forall c' : Compiler,
         @compile_dml schema collaborators c' top_insert_actor ctx0
         = (Raise (QueryError
              ("column " ++ c
                 ++ " is required when inserting into link tables")
              None None), ctx0).
Proof.
  pose proof (compile_dml_missing_link_column top_insert_actor ctx0 []
                insert_actor_without_source [] [] ctx0
                (pgast.BaseRelation (pgast.mkRelation "Movie.actors" []))
                actors_table ctx0 2 [col "target" false; col "role" false])
    as Hthm.
  destruct Hthm as (c & Hc & _ & _ & Hall);
    [reflexivity.. | left; reflexivity |].
  exists c. split; [exact Hc | exact Hall].
Defined.

Lemma compile_dml_entries_witness :
  is_Some (compiled_dml ctx_compiled !! 7).
Proof.
  refine (proj1 (proj2 (proj1 (proj2 (compile_dml_entries top_insert_movies))
                          ctx0 [] ctx_compiled _ _)) insert_movies _).
  - vm_compute. reflexivity.
  - discriminate.
  - apply list_elem_of_here.
Defined.

Lemma partition_ctes_groups_witness :
  exists result groups,
    partition_ctes two_stmts interleaved_ctes ∅ = Ok (result, [])
    /\ length groups = 2
    /\ concat groups ++ [] = interleaved_ctes.
Proof.
  eexists.
  pose proof (partition_ctes_groups two_stmts interleaved_ctes) as Hthm.
  edestruct Hthm as (groups & Hlen & Hcat & _).
  - vm_compute. reflexivity.
  - simpl. apply NoDup_cons. split; [set_solver|].
    apply NoDup_cons. split; [set_solver | constructor].
  - exists groups. split; [vm_compute; reflexivity|].
    split; [exact Hlen | exact Hcat].
Defined.

Lemma output_namespace_resolution_witness :
  resolve_output (build_ptr_map source_outputs) "target"
  = Ok (pgast.ColumnRef ["target"] None).
Proof.
  apply (proj1 output_namespace_resolution). reflexivity.
Defined.

Lemma preprocess_insert_value_idempotent_witness :
  exists vr expected',
    _preprocess_insert_value (Some default_first_column) None
      [col "a" false; col "b" false] = Ok (vr, expected', Some vr)
    /\ expected' = [col "b" false]
    /\ _preprocess_insert_value (Some vr) None expected'
       = Ok (vr, expected', Some vr).
Proof.
  eexists _, _. split; [vm_compute; reflexivity|]. split; [reflexivity|].
  pose proof (preprocess_insert_value_idempotent (Some default_first_column)
                None [col "a" false; col "b" false]) as Hthm.
  edestruct Hthm as [Hagain _];
    [vm_compute; reflexivity | left; reflexivity |].
  exact Hagain.
Defined.

(** An explicit but empty list of names: the specification's wording gives
    the named columns, that is none; the function takes the empty list for
    no list and returns the visible columns of the table. *)
Lemma pull_columns_from_empty_list :
  _pull_columns_from_table movie_table (Some [])
  = Ok [col "title" false; col "director_id" false]
  /\ spec_pull_columns_from_table movie_table (Some []) = Ok []
  /\ _pull_columns_from_table movie_table (Some [])
     <> spec_pull_columns_from_table movie_table (Some []).
Proof. split; [reflexivity|]. split; [reflexivity | discriminate]. Qed.

(** The compiler's list [a(1), b(-), c(1), d(2)] for statements compiled to
    the nodes 1 and 2: the first group is [a] alone, since the loop stops
    at [b], a CTE that matches no statement; a run ending at the first CTE
    that matches a different statement would be [a, b, c]. *)
Lemma partition_stops_at_unmarked_cte :
  exists result compiled,
    partition_ctes two_stmts interleaved_ctes ∅ = Ok (result, [])
    /\ result !! 1 = Some compiled
    /\ context.output_ctes compiled = [cte "a" (Some 1)]
    /\ pgast.for_dml_stmt (cte "b" None) = None
    /\ (spec_take_stmt_ctes [1; 2] 1 false interleaved_ctes []).1
       = [cte "a" (Some 1); cte "b" None; cte "c" (Some 1)]
    /\ take_stmt_ctes 1 false interleaved_ctes []
       <> spec_take_stmt_ctes [1; 2] 1 false interleaved_ctes [].
Proof.
  eexists _, _. split; [vm_compute; reflexivity|].
  split; [vm_compute; reflexivity|]. repeat split. discriminate.
Qed.

(** A last CTE that exposes the value of a pointer named [source]: trying
    the aspects first would give that value, the code enters the literal
    column reference. *)
Lemma resolve_output_overrides_source :
  spec_resolve_output (build_ptr_map source_outputs) "source"
  = Ok (pgast.ColumnRef ["source_value"] None)
  /\ resolve_output (build_ptr_map source_outputs) "source"
     = Ok (pgast.ColumnRef ["source"] None)
  /\ resolve_output (build_ptr_map source_outputs) "source"
     <> spec_resolve_output (build_ptr_map source_outputs) "source".
Proof. repeat split. discriminate. Qed.

(** With a CTE attached by the first run, the second run stops at
    [assert not value_query.ctes]. *)
Lemma normaliser_twice_fails_with_ctes :
  exists vr expected' q',
    _preprocess_insert_value (Some one_row) one_cte [col "a" false]
    = Ok (vr, expected', q')
    /\ _preprocess_insert_value (Some vr) one_cte expected'
       = Raise (AssertionError "").
Proof. eexists _, _, _. split; vm_compute; reflexivity. Qed.

(** C3 at [INSERT INTO t(a) VALUES (1, DEFAULT), (2, 3)]: position 1 holds
    [DEFAULT] in the first row and a constant in the second, and the
    normaliser raises [IndexError] from [del expected_columns[1]], not the
    unsupported-feature query error. *)
Lemma default_beyond_columns_index_error :
  (exists row e, row ∈ [pgast.mkRow [pgast.NumericConstant "1";
                                    pgast.Keyword "DEFAULT"]]
     /\ pgast.args row !! 1 = Some e /\ is_default e = true)
  /\ (exists row e, row ∈ [pgast.mkRow [pgast.NumericConstant "2";
                                       pgast.NumericConstant "3"]]
        /\ pgast.args row !! 1 = Some e /\ is_default e = false)
  /\ _preprocess_insert_value (Some default_beyond_columns) None
       [col "a" false] = Raise IndexError
  /\ is_query_error
       (_preprocess_insert_value (Some default_beyond_columns) None
          [col "a" false]) = false.
Proof.
  split; [eexists _, _; split; [apply list_elem_of_here | by split]|].
  split; [eexists _, _; split; [apply list_elem_of_here | by split]|].
  split; vm_compute; reflexivity.
Qed.

End Instances.

(** * Further properties of the code

    ** The value-relation normaliser *)

Lemma preprocess_insert_value_inv q value_ctes expected vr expected' q' :
  _preprocess_insert_value (Some q) value_ctes expected
    = Ok (vr, expected', q') ->
  exists q_in rebound,
    strip_defaults q expected = Ok (q_in, rebound, expected')
    /\ truthy (pgast.ctes (default q_in rebound)) = false
    /\ vr = pgast.set_ctes value_ctes (default q_in rebound)
    /\ q' = Some (if rebound is Some _ then q_in else vr).
Proof.
  simpl. intros Hb.
  apply Result_bind_Ok in Hb as ([[q_in rebound] e'] & Hs & Hb).
  destruct (truthy (pgast.ctes (default q_in rebound))) eqn:Ht; [done|].
  injection Hb as <- <- <-. by exists q_in, rebound.
Qed.

Lemma strip_defaults_inv s expected q_in rebound expected' :
  strip_defaults (pgast.SelectStmt s) expected
    = Ok (q_in, rebound, expected') ->
  exists rows',
    ((pgast.values s = [] /\ rows' = [] /\ expected' = expected)
     \/ (pgast.values s <> []
         /\ remove_defaults (pgast.sel_span s)
              (sorted_reverse (find_default_columns (pgast.values s)))
              expected (pgast.values s) = Ok (expected', rows')))
    /\ q_in = pgast.SelectStmt (pgast.set_values rows' s)
    /\ rebound = (if is_empty_rows rows'
                  then Some (null_rows_select rows') else None).
Proof.
  simpl. case_bool_decide as Hv.
  - intros [= <- <- <-]. exists []. split; [by left|].
    split; [|done]. destruct s. simpl in Hv. by subst.
  - intros Hb. apply Result_bind_Ok in Hb as ([e' rows'] & Hrm & Hb).
    exists rows'.
    destruct (is_empty_rows rows'); injection Hb as <- <- <-;
      (split; [by right | done]).
Qed.

Lemma free_of_default_within rows :
  defaults_within [] rows -> free_of_default rows.
Proof.
  intros Hw row e Hrow He. apply list_elem_of_lookup in He as [i Hi].
  destruct (is_default e) eqn:Hd; [|done].
  pose proof (Hw row i e Hrow Hi Hd) as Hin. by apply elem_of_nil in Hin.
Qed.

Lemma values_set_ctes c s s' :
  pgast.set_ctes c (pgast.SelectStmt s) = pgast.SelectStmt s' ->
  pgast.values s' = pgast.values s.
Proof. by intros [= <-]. Qed.

(** X1. When the normaliser succeeds, the keyword [DEFAULT] occurs in no
    row of the relation it returns, nor in the row source as the in-place
    updates left it. *)
Theorem normaliser_leaves_no_default value_query value_ctes expected vr
    expected' q' :
  _preprocess_insert_value value_query value_ctes expected
    = Ok (vr, expected', q') ->
  forall s',
    vr = pgast.SelectStmt s' \/ q' = Some (pgast.SelectStmt s') ->
    free_of_default (pgast.values s').
Proof.
  intros Hrun s' Hs'.
  assert (free_of_default []) as Hnil.
  { intros row e Hrow. by apply elem_of_nil in Hrow. }
  destruct value_query as [q|].
  2:{ injection Hrun as <- _ <-. destruct Hs' as [[= <-]|?]; done. }
  apply preprocess_insert_value_inv in Hrun
    as (q_in & rebound & Hs & _ & -> & ->).
  destruct q as [s|i|d].
  2,3: injection Hs as <- <- _; simpl in Hs';
       destruct Hs' as [?|?]; done.
  apply strip_defaults_inv in Hs as (rows' & Hrows & -> & ->).
  assert (free_of_default rows') as Hfree.
  { destruct Hrows as [(_ & -> & _)|[_ Hrm]]; [done|].
    apply free_of_default_within.
    eapply remove_defaults_within;
      [exact Hrm | apply sorted_reverse_desc | apply defaults_within_find]. }
  destruct (is_empty_rows rows'); simpl in Hs'.
  - destruct Hs' as [[= <-]|[= <-]]; done.
  - destruct Hs' as [[= <-]|[= <-]]; done.
Qed.

Lemma map_const_replicate {A B} (x : B) (l : list A) :
  map (fun _ => x) l = replicate (length l) x.
Proof. induction l as [|a l IH]; simpl; [done | by rewrite IH]. Qed.

(** X2. The rows of a [VALUES] source survive normalisation in number:
    either the relation returned is the source with as many rows as
    before, or, when the removal of the defaulted columns leaves empty
    rows, it is a select from a nested [VALUES] list with one [(NULL)] row
    per original row, aliased [_]. *)
Theorem normaliser_keeps_row_count s value_ctes expected vr expected' q' :
  _preprocess_insert_value (Some (pgast.SelectStmt s)) value_ctes expected
    = Ok (vr, expected', q') ->
  exists rows',
    length rows' = length (pgast.values s)
    /\ if is_empty_rows rows'
       then vr = pgast.set_ctes value_ctes
                   (pgast.SelectStmt
                      (pgast.mkSelectStmt [] []
                         [pgast.RangeSubselect
                            (pgast.SelectStmt
                               (pgast.set_values
                                  (replicate (length (pgast.values s))
                                     (pgast.mkRow [pgast.NullConstant]))
                                  pgast.empty_select))
                            (pgast.mkAlias (Some "_"))]
                         None None None []))
       else vr = pgast.set_ctes value_ctes
                   (pgast.SelectStmt (pgast.set_values rows' s)).
Proof.
  intros Hrun.
  apply preprocess_insert_value_inv in Hrun
    as (q_in & rebound & Hs & _ & -> & _).
  apply strip_defaults_inv in Hs as (rows' & Hrows & -> & ->).
  exists rows'.
  assert (length rows' = length (pgast.values s)) as Hlen.
  { destruct Hrows as [(-> & -> & _)|[_ Hrm]]; [done|].
    by eapply remove_defaults_length. }
  split; [done|].
  destruct (is_empty_rows rows'); [|done].
  simpl. unfold null_rows_select. by rewrite map_const_replicate, Hlen.
Qed.

Lemma Forall2_compose {A} (P Q R : A -> A -> Prop) l1 l2 l3 :
  (forall x y z, P x y -> Q y z -> R x z) ->
  Forall2 P l1 l2 -> Forall2 Q l2 l3 -> Forall2 R l1 l3.
Proof.
  intros HR H12. revert l3. induction H12 as [|x y l1 l2 Hxy _ IH];
    intros l3 H23; inversion H23; subst; constructor; eauto.
Qed.

Lemma remove_defaults_shrink span cols expected rows expected' rows' :
  remove_defaults span cols expected rows = Ok (expected', rows') ->
  length expected' + length cols = length expected
  /\ Forall2 (fun row row' =>
                length (pgast.args row') + length cols
                = length (pgast.args row)) rows rows'.
Proof.
  revert expected rows. induction cols as [|d cols IH];
    intros expected rows; simpl.
  - intros [= <- <-]. split; [lia|].
    apply Forall_Forall2_diag, Forall_forall. intros row _. lia.
  - case_decide as Hd; [|done]. intros Hb.
    apply Result_bind_Ok in Hb as (rows1 & Hrm & Hb).
    apply IH in Hb as [Hexp Hrows].
    rewrite length_delete in Hexp by (by apply lookup_lt_is_Some_2).
    split; [lia|].
    apply remove_from_rows_Ok in Hrm.
    eapply Forall2_compose; [|exact Hrm|exact Hrows].
    intros row row1 row' [(e & Hl & _) ->] Hlen. simpl in Hlen.
    rewrite length_delete in Hlen by (by eexists).
    apply lookup_lt_Some in Hl. lia.
Qed.

Lemma length_sorted_reverse s : length (sorted_reverse s) = size s.
Proof.
  unfold sorted_reverse. by rewrite merge_sort_Permutation.
Qed.

(** X3. Normalisation removes the same number of positions from the
    expected columns and from every row: with [k] the number of positions
    at which some row has [DEFAULT], a successful run returns [k] expected
    columns less and leaves every row [k] values shorter, so a row that had
    one value per expected column still has. *)
Theorem normaliser_shrinks_alike s value_ctes expected vr expected' q' :
  _preprocess_insert_value (Some (pgast.SelectStmt s)) value_ctes expected
    = Ok (vr, expected', q') ->
  let k := size (find_default_columns (pgast.values s)) in
  length expected' + k = length expected
  /\ exists s',
       q' = Some (pgast.SelectStmt s')
       /\ Forall2 (fun row row' =>
                     length (pgast.args row') + k = length (pgast.args row))
            (pgast.values s) (pgast.values s').
Proof.
  intros Hrun k.
  apply preprocess_insert_value_inv in Hrun
    as (q_in & rebound & Hs & _ & -> & ->).
  apply strip_defaults_inv in Hs as (rows' & Hrows & -> & ->).
  assert (length expected' + k = length expected
          /\ Forall2 (fun row row' =>
                        length (pgast.args row') + k
                        = length (pgast.args row))
               (pgast.values s) rows') as [Hexp Hall].
  { subst k. destruct Hrows as [(Hv & -> & ->)|[_ Hrm]].
    - rewrite Hv. split; [done | constructor].
    - apply remove_defaults_shrink in Hrm.
      by rewrite length_sorted_reverse in Hrm. }
  split; [done|].
  exists (pgast.set_values rows' (pgast.mkSelectStmt (pgast.values s)
            (pgast.target_list s) (pgast.from_clause s)
            (pgast.limit_count s)
            (if is_empty_rows rows' then pgast.sel_ctes s else value_ctes)
            (pgast.sel_span s) (pgast.sel_path_outputs s))).
  split; [|done].
  by destruct (is_empty_rows rows').
Qed.

(** X4. The statement's CTEs end up on the value relation exactly when
    there is a row source.  With a row source, a successful run returns a
    relation whose CTE list is the statement's; a row source without
    [VALUES] rows that carries CTEs of its own, as in
    [INSERT INTO t WITH c AS (...) SELECT ...], is rejected by the
    assertion.  Without a row source ([DEFAULT VALUES]) the result is the empty
    select with no CTEs and no expected columns, whatever the statement's
    CTEs and columns are. *)
Theorem normaliser_ctes value_ctes expected :
  (forall q vr expected' q',
     _preprocess_insert_value (Some q) value_ctes expected
       = Ok (vr, expected', q') ->
     pgast.ctes vr = value_ctes)
  /\ (forall q,
        has_no_values q -> truthy (pgast.ctes q) = true ->
        _preprocess_insert_value (Some q) value_ctes expected
        = Raise (AssertionError ""))
  /\ _preprocess_insert_value None value_ctes expected
     = Ok (pgast.SelectStmt pgast.empty_select, [], None).
Proof.
  split; [|split; [|done]].
  - intros q vr expected' q' Hrun.
    apply preprocess_insert_value_inv in Hrun as (q_in & rebound & _ & _ & -> & _).
    apply ctes_set_ctes.
  - intros q Hv Ht. simpl. rewrite (strip_defaults_no_values _ _ Hv). simpl.
    by rewrite Ht.
Qed.

Lemma remove_from_rows_Raise span d rows e :
  remove_from_rows span d rows = Raise e ->
  e = IndexError \/ e = default_only_in_all_rows span.
Proof.
  induction rows as [|row rows IH]; simpl; [done|].
  destruct (pgast.args row !! d) as [x|]; [|intros [= <-]; by left].
  destruct (is_default x); [|intros [= <-]; by right].
  destruct (remove_from_rows span d rows) as [rows'|e'] eqn:Hr; simpl;
    [done|]. intros [= <-]. by apply IH.
Qed.

Lemma remove_defaults_Raise span cols expected rows e :
  remove_defaults span cols expected rows = Raise e ->
  e = IndexError \/ e = default_only_in_all_rows span.
Proof.
  revert expected rows. induction cols as [|d cols IH];
    intros expected rows; simpl; [done|].
  case_decide; [|intros [= <-]; by left].
  destruct (remove_from_rows span d rows) as [rows'|e'] eqn:Hr; simpl.
  - apply IH.
  - intros [= <-]. by eapply remove_from_rows_Raise.
Qed.

(** X5. The normaliser raises nothing but an index error (a [DEFAULT]
    beyond the expected columns or beyond the end of another row), the
    assertion error of [assert not value_query.ctes], and the
    unsupported-feature query error about [DEFAULT], which carries the span
    of the [VALUES] query. *)
Theorem normaliser_exceptions value_query value_ctes expected e :
  _preprocess_insert_value value_query value_ctes expected = Raise e ->
  normaliser_exception value_query e.
Proof.
  destruct value_query as [q|]; [|done]. simpl.
  destruct (strip_defaults q expected) as [[[q_in rebound] e']|ex] eqn:Hs;
    simpl.
  - destruct (truthy _); [|done]. intros [= <-]. right. by left.
  - intros [= <-]. destruct q as [s|i|d]; [|done..]. simpl in Hs.
    case_bool_decide; [done|].
    destruct (remove_defaults _ _ _ _) as [[e1 rows1]|ex'] eqn:Hrm; simpl in Hs.
    + by destruct (is_empty_rows rows1).
    + injection Hs as <-.
      apply remove_defaults_Raise in Hrm as [->| ->]; [by left|].
      right. right. by exists s.
Qed.

Lemma defaults_within_free rows :
  free_of_default rows -> defaults_within [] rows.
Proof.
  intros Hfree row i e Hrow Hl Hd.
  rewrite (Hfree row e Hrow) in Hd; [done|].
  by eapply list_elem_of_lookup_2.
Qed.

(** X6. A [VALUES] source that uses no [DEFAULT] (and whose first row is
    not empty) goes through the normaliser unchanged, up to the CTE list it
    receives, and so do the expected columns, however many values the rows
    have. *)
Theorem normaliser_identity_without_default s value_ctes expected :
  free_of_default (pgast.values s) ->
  is_empty_rows (pgast.values s) = false ->
  truthy (pgast.sel_ctes s) = false ->
  _preprocess_insert_value (Some (pgast.SelectStmt s)) value_ctes expected
  = Ok (pgast.set_ctes value_ctes (pgast.SelectStmt s), expected,
        Some (pgast.set_ctes value_ctes (pgast.SelectStmt s))).
Proof.
  intros Hfree Hrows Hctes.
  unfold _preprocess_insert_value.
  rewrite (strip_defaults_clean s expected (defaults_within_free _ Hfree)
             Hrows).
  destruct s as [vs tl fc lc cs sp po]. simpl in *.
  by destruct cs as [[|c cs]|].
Qed.

(** ** Columns and pointers *)

Lemma substring_0_length s : String.substring 0 (String.length s) s = s.
Proof. induction s as [|c s IH]; simpl; [done | by rewrite IH]. Qed.

Lemma substring_split s k :
  k <= String.length s ->
  (String.substring 0 k s
     ++ String.substring k (String.length s - k) s)%string = s.
Proof.
  revert k. induction s as [|c s IH]; intros k Hk; simpl in *.
  - by destruct k.
  - destruct k as [|k]; simpl.
    + by rewrite substring_0_length.
    + transitivity
        (String c (String.substring 0 k s
                     ++ String.substring k (String.length s - k) s)%string);
        [reflexivity|].
      f_equal. apply IH. lia.
Qed.

Lemma strip_id_append name :
  ends_with_id name = true -> (strip_id name ++ "_id")%string = name.
Proof.
  unfold ends_with_id, strip_id. intros Hends.
  apply andb_true_iff in Hends as [Hlen Heq].
  apply bool_decide_eq_true in Hlen. apply String.eqb_eq in Heq.
  rewrite <- Heq at 1.
  pose proof (substring_split name (String.length name - 3)) as Hsplit.
  replace (String.length name - (String.length name - 3)) with 3 in Hsplit
    by lia.
  apply Hsplit. lia.
Qed.

Section ColumnFacts.
Context `{Schema}.

(** X7. When [_get_pointer_for_column] returns, either the subject is a
    link or a property and the column is [source] or [target], mapped to
    the subject itself under the column's name, not as a link and without a
    schema lookup; or the subject is not a property, the pointer is the one
    the schema has under the returned name, the column is taken for a link
    exactly when its name ends in [_id], and the column name is the pointer
    name followed by [_id] for a link and the pointer name itself
    otherwise.  On a property subject any other column fails the
    assertion. *)
Theorem get_pointer_for_column_spec col subject :
  (forall ptr ptr_name is_link,
     _get_pointer_for_column col subject = Ok (ptr, ptr_name, is_link) ->
     (is_pointer subject = true
      /\ is_source_or_target (context.name col) = true
      /\ ptr = subject /\ ptr_name = context.name col /\ is_link = false)
     \/ ((forall id, subject <> Property id)
         /\ maybe_get_ptr subject ptr_name = Some ptr
         /\ is_link = ends_with_id (context.name col)
         /\ context.name col
            = (if is_link then ptr_name ++ "_id" else ptr_name)%string))
  /\ (forall id,
        subject = Property id ->
        is_source_or_target (context.name col) = false ->
        _get_pointer_for_column col subject = Raise (AssertionError "")).
Proof.
  unfold _get_pointer_for_column. split.
  - intros ptr ptr_name is_link.
    destruct (is_pointer subject && is_source_or_target (context.name col))
      eqn:Hst.
    { apply andb_true_iff in Hst as [Hp Hs].
      intros [= <- <- <-]. by left. }
    intros Hget. right.
    assert (forall id, subject <> Property id) as Hnp.
    { intros id ->. done. }
    split; [done|].
    destruct (ends_with_id (context.name col)) eqn:Hends.
    + destruct (maybe_get_ptr subject (strip_id (context.name col)))
        as [p|] eqn:Hptr; [|by destruct subject].
      assert (Ok (p, strip_id (context.name col), true)
              = Ok (ptr, ptr_name, is_link)) as [= <- <- <-]
        by (by destruct subject).
      split; [done|]. split; [done|]. by rewrite strip_id_append.
    + destruct (maybe_get_ptr subject (context.name col))
        as [p|] eqn:Hptr; [|by destruct subject].
      assert (Ok (p, context.name col, false)
              = Ok (ptr, ptr_name, is_link)) as [= <- <- <-]
        by (by destruct subject).
      done.
  - intros id -> Hs. simpl. by rewrite Hs.
Qed.

End ColumnFacts.

(** ** The preprocessors and the context *)

Ltac crunch_M :=
  repeat (simpl in *;
          match goal with
          | H : (_, _) = (_, _) |- _ => injection H as ? ?; subst
          | H : context [match ?x with _ => _ end] |- _ => destruct x eqn:?
          end).

Section FrameFacts.
Context `{Schema} `{Collaborators}.

(** X8. Preprocessing an insert, into an object-type table or into a link
    table, changes nothing of the context but the alias generator, whether
    it succeeds or raises: depth, CTE buffer and compiled-DML mapping are
    as before, and at most four aliases are drawn.  When it succeeds
    exactly four are, and the statement's anchor, value CTE and iterator
    column are named by the first, third and fourth of them. *)
Theorem preprocessors_touch_only_aliases stmt sub sub_table expected ctx :
  draws_aliases_only alias_name
    (_preprocess_insert_object_stmt stmt sub sub_table expected) ctx
  /\ draws_aliases_only alias_name
       (_preprocess_insert_pointer_stmt stmt sub sub_table expected) ctx.
Proof.
  split; intros r ctx' Hrun.
  - unfold _preprocess_insert_object_stmt in Hrun.
    unfold mbind, M_bind, mret, M_ret, lift, alias_get in Hrun.
    destruct ctx as [n d b m]. unfold same_but_aliases, named_from.
    crunch_M; (split; [done|]); simpl; (split; [lia|]); intros res' Hres;
      try discriminate; injection Hres as <-; simpl;
      (split; [lia|]); (split; [done|]); split; f_equal; lia.
  - unfold _preprocess_insert_pointer_stmt in Hrun.
    unfold mbind, M_bind, mret, M_ret, lift, raise, alias_get in Hrun.
    destruct ctx as [n d b m]. unfold same_but_aliases, named_from.
    crunch_M; (split; [done|]); simpl; (split; [lia|]); intros res' Hres;
      try discriminate; injection Hres as <-; simpl;
      (split; [lia|]); (split; [done|]); split; f_equal; lia.
Qed.

End FrameFacts.

(** ** What the synthetic statements assign *)

Section ShapeFacts.
Context `{Schema} `{Collaborators}.

Lemma construct_insert_element_assigns source_ql ptr_name ptr is_link el :
  _construct_insert_element_for_ptr source_ql ptr_name ptr is_link = Ok el ->
  assigned_pointer el = Some ptr_name.
Proof.
  unfold _construct_insert_element_for_ptr. destruct is_link.
  - destruct (get_target ptr); [|done]. by intros [= <-].
  - by intros [= <-].
Qed.

Lemma object_columns_spec sub value_id value_ql expected po vc sh po' vc' sh' :
  object_columns sub value_id value_ql expected po vc sh = Ok (po', vc', sh') ->
  exists nvc nsh,
    vc' = vc ++ nvc /\ sh' = sh ++ nsh
    /\ Forall2 (fun col v =>
                  exists ptr,
                    _get_pointer_for_column col sub = Ok (ptr, v.1, v.2))
         expected nvc
    /\ map assigned_pointer nsh = map (fun v => Some v.1) nvc.
Proof.
  revert po vc sh. induction expected as [|col expected IH];
    intros po vc sh; simpl.
  - intros [= _ <- <-]. exists [], []. by rewrite !app_nil_r.
  - intros Hb.
    apply Result_bind_Ok in Hb as ([[ptr ptr_name] is_link] & Hptr & Hb).
    apply Result_bind_Ok in Hb as (el & Hel & Hb).
    apply IH in Hb as (nvc & nsh & -> & -> & Hall & Hmap).
    exists ((ptr_name, is_link) :: nvc), (el :: nsh).
    rewrite <- !app_assoc. split; [done|]. split; [done|]. split.
    + constructor; [by exists ptr | done].
    + simpl. rewrite Hmap.
      by rewrite (construct_insert_element_assigns _ _ _ _ _ Hel).
Qed.

(** X9. In the statement built for an insert into an object-type table,
    the value columns and the assignments of the insert correspond one to
    one, in order, to the expected columns that the normaliser returned:
    each value column is the expected column mapped to its pointer, and
    each shape element assigns the pointer of its value column.  A column
    removed as defaulted is therefore neither read from the value relation
    nor assigned. *)
Theorem object_insert_assigns_value_columns stmt sub sub_table expected ctx
    res ctx' :
  _preprocess_insert_object_stmt stmt sub sub_table expected ctx
    = (Ok res, ctx') ->
  exists vr expected' q' shape,
    _preprocess_insert_value (pgast.select_stmt stmt) (pgast.ins_ctes stmt)
      expected = Ok (vr, expected', q')
    /\ context.value_relation_input (early_result res) = vr
    /\ insert_shape_of (ql_stmt res) = Some shape
    /\ Forall2 (fun col v =>
                  exists ptr,
                    _get_pointer_for_column col sub = Ok (ptr, v.1, v.2))
         expected' (context.value_columns (early_result res))
    /\ map assigned_pointer shape
       = map (fun v => Some v.1) (context.value_columns (early_result res)).
Proof.
  unfold _preprocess_insert_object_stmt. intros Hp.
  apply M_bind_Ok in Hp as ([[vr expected'] q'] & ctx1 & Hv & Hp).
  apply lift_Ok in Hv as [Hv ->].
  apply M_bind_Ok in Hp as (value_name & ctx2 & _ & Hp).
  apply M_bind_Ok in Hp as (iterator_name & ctx3 & _ & Hp).
  apply M_bind_Ok in Hp as (value_cte_name & ctx4 & _ & Hp).
  apply M_bind_Ok in Hp as ([[outs vcols] shape] & ctx5 & Hcols & Hp).
  apply lift_Ok in Hcols as [Hcols ->].
  apply M_bind_Ok in Hp as (value_iterator & ctx6 & _ & Hp).
  apply M_bind_Ok in Hp as (rshape & ctx7 & _ & Hp).
  injection Hp as <- _.
  apply object_columns_spec in Hcols as (nvc & nsh & -> & -> & Hall & Hmap).
  exists vr, expected', q', nsh. simpl.
  split; [done|]. split; [done|].
  split; [by destruct (_has_at_most_one_row q')|]. done.
Qed.

Lemma pointer_columns_spec sub source_id value_id expected po vc po' vc' :
  pointer_columns sub source_id value_id expected po vc = Ok (po', vc') ->
  vc' = vc ++ map (link_table_value_column sub) expected.
Proof.
  revert po vc. induction expected as [|col expected IH]; intros po vc; simpl.
  - intros [= _ <-]. by rewrite app_nil_r.
  - intros Hb.
    apply Result_bind_Ok in Hb as ([[po1 ptr_name] is_link] & Hcol & Hb).
    apply IH in Hb as ->. rewrite <- app_assoc. f_equal. simpl. f_equal.
    unfold link_table_value_column.
    destruct (String.eqb (context.name col) "source") eqn:Hs.
    { injection Hcol as _ <- <-. apply String.eqb_eq in Hs. by rewrite Hs. }
    destruct (String.eqb (context.name col) "target") eqn:Ht.
    { injection Hcol as _ <- <-. apply String.eqb_eq in Ht. by rewrite Ht. }
    destruct (is_Link sub); [|done].
    destruct (maybe_get_ptr sub (context.name col)); [|done].
    by injection Hcol as _ <- <-.
Qed.

(** X10. In the statement built for an insert into a link or property
    table, the value columns are the expected columns returned by the
    normaliser under their own names, in order, flagged as links for
    [source] and, when the subject is a link, for [target]; and the
    statement is an update whose single shape element sets the pointer
    named by the subject's short name, appending when the pointer has
    multi cardinality and assigning otherwise. *)
Theorem pointer_insert_value_columns stmt sub sub_table expected ctx res ctx' :
  _preprocess_insert_pointer_stmt stmt sub sub_table expected ctx
    = (Ok res, ctx') ->
  exists vr expected' q',
    _preprocess_insert_value (pgast.select_stmt stmt) (pgast.ins_ctes stmt)
      expected = Ok (vr, expected', q')
    /\ context.value_relation_input (early_result res) = vr
    /\ context.value_columns (early_result res)
       = map (link_table_value_column sub) expected'
    /\ update_element_of (ql_stmt res)
       = Some (qn_name (get_shortname sub),
               if cardinality_is_many sub then qlast.APPEND
               else qlast.ASSIGN).
Proof.
  unfold _preprocess_insert_pointer_stmt.
  destruct (negb (has_column "source" expected)); [done|].
  destruct (negb (has_column "target" expected)); [done|].
  destruct (get_source sub) as [[| | |]|]; try done.
  destruct (get_target sub); [|done]. intros Hp.
  apply M_bind_Ok in Hp as ([[vr expected'] q'] & ctx1 & Hv & Hp).
  apply lift_Ok in Hv as [Hv ->].
  apply M_bind_Ok in Hp as (value_name & ctx2 & _ & Hp).
  apply M_bind_Ok in Hp as (iterator_name & ctx3 & _ & Hp).
  apply M_bind_Ok in Hp as (value_cte_name & ctx4 & _ & Hp).
  apply M_bind_Ok in Hp as ([outs vcols] & ctx5 & Hcols & Hp).
  apply lift_Ok in Hcols as [Hcols ->].
  apply M_bind_Ok in Hp as (value_iterator & ctx6 & _ & Hp).
  injection Hp as <- _.
  apply pointer_columns_spec in Hcols as ->.
  exists vr, expected', q'. simpl.
  split; [done|]. split; [done|]. split; [done|].
  by destruct (_has_at_most_one_row q').
Qed.

Lemma returning_subject_columns_names sub cols sc :
  returning_subject_columns sub cols = Ok sc ->
  sc.*1
  = map context.name (filter (fun c => context.hidden c = false) cols).
Proof.
  revert sc. induction cols as [|c cols IH]; intros sc; simpl.
  - by intros [= <-].
  - destruct (context.hidden c) eqn:Hh.
    + intros Hsc. rewrite filter_cons_False by (by rewrite Hh). by apply IH.
    + intros Hb.
      apply Result_bind_Ok in Hb as ([[ptr ptr_name] is_link] & _ & Hb).
      apply Result_bind_Ok in Hb as (more & Hmore & [= <-]).
      rewrite filter_cons_True by done. simpl. f_equal. by apply IH.
Qed.

Lemma preprocess_insert_object_stmt_returning stmt sub sub_table expected ctx
    res ctx' :
  _preprocess_insert_object_stmt stmt sub sub_table expected ctx
    = (Ok res, ctx') ->
  subject_columns res = []
  /\ (pgast.returning_list stmt = [] -> ql_returning_shape res = []).
Proof.
  unfold _preprocess_insert_object_stmt. intros Hp.
  apply M_bind_Ok in Hp as ([[vr expected'] q'] & ctx1 & _ & Hp).
  apply M_bind_Ok in Hp as (value_name & ctx2 & _ & Hp).
  apply M_bind_Ok in Hp as (iterator_name & ctx3 & _ & Hp).
  apply M_bind_Ok in Hp as (value_cte_name & ctx4 & _ & Hp).
  apply M_bind_Ok in Hp as ([[outs vcols] shape] & ctx5 & _ & Hp).
  apply M_bind_Ok in Hp as (value_iterator & ctx6 & _ & Hp).
  apply M_bind_Ok in Hp as (rshape & ctx7 & Hr & Hp).
  injection Hp as <- _. simpl. split; [done|]. intros Hret.
  rewrite bool_decide_eq_true_2 in Hr by done.
  by apply lift_Ok in Hr as [[= <-] _].
Qed.

Lemma preprocess_insert_pointer_stmt_returning stmt sub sub_table expected ctx
    res ctx' :
  _preprocess_insert_pointer_stmt stmt sub sub_table expected ctx
    = (Ok res, ctx') ->
  subject_columns res = []
  /\ (pgast.returning_list stmt = [] -> ql_returning_shape res = []).
Proof.
  unfold _preprocess_insert_pointer_stmt.
  destruct (negb (has_column "source" expected)); [done|].
  destruct (negb (has_column "target" expected)); [done|].
  destruct (get_source sub) as [[| | |]|]; try done.
  destruct (get_target sub); [|done]. intros Hp.
  apply M_bind_Ok in Hp as ([[vr expected'] q'] & ctx1 & _ & Hp).
  apply M_bind_Ok in Hp as (value_name & ctx2 & _ & Hp).
  apply M_bind_Ok in Hp as (iterator_name & ctx3 & _ & Hp).
  apply M_bind_Ok in Hp as (value_cte_name & ctx4 & _ & Hp).
  apply M_bind_Ok in Hp as ([outs vcols] & ctx5 & _ & Hp).
  apply M_bind_Ok in Hp as (value_iterator & ctx6 & _ & Hp).
  injection Hp as <- _. simpl. split; [done|]. intros Hret.
  by rewrite bool_decide_eq_true_2.
Qed.

(** X11. The columns offered to [RETURNING] are recorded only for a
    statement that has a [RETURNING] clause: without one a preprocessed
    insert carries no subject columns and an empty returning shape; with
    one, the recorded column names are exactly the names of the non-hidden
    columns of the subject table, in table order, whatever the column list
    of the statement is. *)
Theorem preprocess_insert_stmt_subject_columns stmt ctx res ctx' :
  _preprocess_insert_stmt stmt ctx = (Ok res, ctx') ->
  exists rel sub_table ctx1,
    resolve_table (pgast.relation (pgast.ins_relation stmt)) false ctx
      = (Ok (rel, sub_table), ctx1)
    /\ (pgast.returning_list stmt = [] ->
        subject_columns res = [] /\ ql_returning_shape res = [])
    /\ (pgast.returning_list stmt <> [] ->
        (subject_columns res).*1
        = map context.name
            (filter (fun c => context.hidden c = false)
               (context.columns sub_table))).
Proof.
  unfold _preprocess_insert_stmt. intros Hp.
  apply M_bind_Ok in Hp as ([rel table] & ctx1 & Hres & Hp).
  exists rel, table, ctx1. split; [done|].
  destruct (context.schema_id table) as [id|]; [|done].
  apply M_bind_Ok in Hp as (expected & ctx2 & _ & Hp).
  apply M_bind_Ok in Hp as (res0 & ctx3 & Hres0 & Hp).
  assert (subject_columns res0 = []
          /\ (pgast.returning_list stmt = [] -> ql_returning_shape res0 = []))
    as [Hsc Hshape].
  { destruct (get_by_id id); try done.
    - by eapply preprocess_insert_object_stmt_returning.
    - by eapply preprocess_insert_pointer_stmt_returning.
    - by eapply preprocess_insert_pointer_stmt_returning. }
  case_bool_decide as Hret.
  - injection Hp as <- _. split; [auto | done].
  - apply M_bind_Ok in Hp as (sc & ctx4 & Hsub & [= <- _]).
    apply lift_Ok in Hsub as [Hsub _].
    split; [done|]. intros _. simpl. rewrite Hsc. simpl.
    by apply returning_subject_columns_names in Hsub.
Qed.

End ShapeFacts.

(** ** The batch compiler *)

Lemma compile_one_Raise stmt ir ctes e :
  compile_one stmt ir ctes = Raise e -> partition_exception e.
Proof.
  unfold compile_one.
  destruct (take_stmt_ctes ir false ctes []) as [g rest].
  destruct (last g) as [last_cte|]; [|intros [= <-]; by left].
  destruct (build_output_namespace _ _ _) as [ns|e'] eqn:Hb; simpl; [done|].
  intros [= <-].
  apply build_output_namespace_Raise in Hb as (c & p & _ & Hr).
  apply resolve_output_Raise in Hr as (-> & _). right. by exists p.
Qed.

Lemma partition_ctes_Raise pairs ctes result e :
  partition_ctes pairs ctes result = Raise e -> partition_exception e.
Proof.
  revert ctes result. induction pairs as [|[stmt ir] pairs IH];
    intros ctes result; simpl; [done|].
  destruct (compile_one stmt ir ctes) as [[c rest]|e'] eqn:Hone; simpl.
  - apply IH.
  - intros [= <-]. by eapply compile_one_Raise.
Qed.

Lemma compile_one_entry stmt ir ctes c rest :
  compile_one stmt ir ctes = Ok (c, rest) -> entry_of stmt c.
Proof.
  unfold compile_one.
  destruct (take_stmt_ctes ir false ctes []) as [g rest'].
  destruct (last g) as [last_cte|] eqn:Hl; [|done].
  intros Hb. apply Result_bind_Ok in Hb as (ns & _ & [= <- _]).
  repeat split; simpl. by exists last_cte.
Qed.

Lemma partition_ctes_entries pairs ctes result0 result rest n c :
  partition_ctes pairs ctes result0 = Ok (result, rest) ->
  result !! n = Some c ->
  result0 !! n = Some c
  \/ exists stmt ir,
       (stmt, ir) ∈ pairs /\ pgast.node (input stmt) = n /\ entry_of stmt c.
Proof.
  revert ctes result0. induction pairs as [|[stmt ir] pairs IH];
    intros ctes result0; simpl.
  - intros [= <- _]. auto.
  - intros Hb Hn. apply Result_bind_Ok in Hb as ([c1 ctes1] & Hone & Hb).
    destruct (IH _ _ Hb Hn) as [Hins|(stmt' & ir' & Hin & Hnode & Hentry)].
    + apply lookup_insert_Some in Hins as [[<- <-]|[_ Hold]]; [|by left].
      right. exists stmt, ir. split; [apply list_elem_of_here|].
      split; [done|]. by eapply compile_one_entry.
    + right. exists stmt', ir'. split; [by apply list_elem_of_further|done].
Qed.

(** X12. Every CTE group is non-empty, so the partition needs at least one
    CTE per statement: when it succeeds, the statements and the leftovers
    together are no more than the CTEs it was given. *)
Theorem partition_ctes_consumes pairs ctes result0 result rest :
  partition_ctes pairs ctes result0 = Ok (result, rest) ->
  length pairs + length rest <= length ctes.
Proof.
  revert ctes result0. induction pairs as [|[stmt ir] pairs IH];
    intros ctes result0; simpl.
  - intros [= _ <-]. lia.
  - intros Hb. apply Result_bind_Ok in Hb as ([c ctes1] & Hone & Hb).
    apply IH in Hb.
    apply compile_one_Ok in Hone as [Htake (last_cte & Hlast & _)].
    apply take_stmt_ctes_run in Htake as [-> _].
    rewrite length_app.
    destruct (context.output_ctes c); [done|]. simpl. lia.
Qed.

(** X13. The partition fails in two ways only, and never with a query
    error: with the [IndexError] of [stmt_ctes[-1]] when a statement finds
    no CTE left, and with the assertion error of a recorded pointer that
    resolves under no aspect.  The first happens, whatever the statements
    are, as soon as the CTE list is empty. *)
Theorem partition_ctes_failures pairs ctes result0 :
  (forall e, partition_ctes pairs ctes result0 = Raise e ->
     partition_exception e)
  /\ (pairs <> [] -> partition_ctes pairs [] result0 = Raise IndexError).
Proof.
  split; [intros e; apply partition_ctes_Raise|].
  by destruct pairs as [|[stmt ir] pairs].
Qed.

Lemma ptr_map_step ptr_map out :
  (let '((ptr_id, aspect), output_var) := out in
   match path_id.rptr_name ptr_id with
   | None => dict_set ("id", aspect) output_var ptr_map
   | Some qual_name => dict_set (qn_name qual_name, aspect) output_var ptr_map
   end)
  = dict_set (ptr_map_key out) out.2 ptr_map.
Proof.
  destruct out as [[ptr_id aspect] v]. unfold ptr_map_key. simpl.
  by destruct (path_id.rptr_name ptr_id).
Qed.

Lemma foldl_ptr_map outs acc k :
  dict_get k
    (foldl (fun ptr_map '((ptr_id, aspect), output_var) =>
              match path_id.rptr_name ptr_id with
              | None => dict_set ("id", aspect) output_var ptr_map
              | Some qual_name =>
                  dict_set (qn_name qual_name, aspect) output_var ptr_map
              end) acc outs)
  = match last (filter (fun out => ptr_map_key out = k) outs) with
    | Some out => Some out.2
    | None => dict_get k acc
    end.
Proof.
  revert acc. induction outs as [|out outs IH]; intros acc; simpl; [done|].
  rewrite IH.
  pose proof (ptr_map_step acc out) as Hstep.
  destruct out as [[ptr_id aspect] v]. rewrite Hstep. clear Hstep.
  rewrite filter_cons. case_decide as Hk.
  - rewrite last_cons. destruct (last (filter _ outs)); [done|].
    rewrite <- Hk. apply dict_get_set_eq.
  - destruct (last (filter _ outs)); [done|]. by apply dict_get_set_ne.
Qed.

(** X14. The pointer map is keyed by the short name of the pointer and the
    aspect only: of the path outputs that share the key (the paths of two
    pointers of the same short name, or a path without a pointer and a
    pointer named [id]) the one listed last is the one found. *)
Theorem build_ptr_map_last_wins path_outputs k :
  dict_get k (build_ptr_map path_outputs)
  = snd <$> last (filter (fun out => ptr_map_key out = k) path_outputs).
Proof.
  unfold build_ptr_map. rewrite foldl_ptr_map.
  by destruct (last _).
Qed.

Lemma imap_dml_name_lookup {A} (stmts : list A) i :
  imap (fun index _ => dml_name index) stmts !! i
  = (fun _ => dml_name i) <$> stmts !! i.
Proof. by rewrite list_lookup_imap. Qed.

Lemma dml_name_inj i j : dml_name i = dml_name j -> i = j.
Proof.
  unfold dml_name. intros Heq. simpl in Heq.
  injection Heq as Heq. by apply (inj (String.app "")), (inj pretty) in Heq.
Qed.

(** X15. The merged statement binds one alias per preprocessed statement,
    in statement order, and has one shape element per statement; the
    aliases, which are also the names handed to
    [_merge_and_prepare_external_rels], are pairwise distinct, so no
    statement's binding hides another's. *)
Theorem merged_ql_stmt_names stmts :
  exists aliases elements,
    merged_ql_stmt stmts
    = qlast.SelectQuery aliases (qlast.Shape None elements)
    /\ aliases.*1 = imap (fun index _ => dml_name index) stmts
    /\ aliases.*2 = map (fun stmt => qlast.DetachedExpr (ql_stmt stmt)) stmts
    /\ length elements = length stmts
    /\ NoDup aliases.*1.
Proof.
  eexists _, _. split; [reflexivity|].
  assert ((imap (fun index stmt =>
                   (dml_name index, qlast.DetachedExpr (ql_stmt stmt)))
             stmts).*1
          = imap (fun index _ => dml_name index) stmts) as Hfst.
  { apply list_eq. intros i.
    rewrite list_lookup_fmap, !list_lookup_imap. by destruct (stmts !! i). }
  split; [done|]. split.
  { apply list_eq. intros i.
    rewrite !list_lookup_fmap, list_lookup_imap. by destruct (stmts !! i). }
  split; [by rewrite length_imap|].
  rewrite Hfst. apply NoDup_alt. intros i j x Hi Hj.
  rewrite imap_dml_name_lookup in Hi. rewrite imap_dml_name_lookup in Hj.
  destruct (stmts !! i); [|done]. destruct (stmts !! j); [|done].
  simpl in *. apply dml_name_inj. congruence.
Qed.

Section CompilerFacts.
Context `{Schema} `{Collaborators} `{Compiler}.

Lemma compile_batch_frame stmts ctx r ctx1 :
  compile_batch stmts ctx = (r, ctx1) ->
  same_but_aliases ctx ctx1
  /\ forall e,
       compile_ast_to_ir (merged_ql_stmt stmts) (merged_options stmts)
         = Raise e ->
       ctx1 = ctx /\ r = reclassify (Raise e).
Proof.
  unfold compile_batch.
  destruct (compile_ast_to_ir _ _) as [ir_stmt|e0].
  - destruct (_merge_and_prepare_external_rels _ _ _) as [[rels irs]|e1].
    + destruct (compile_ir_to_sql_tree _ _ _) as [sql counter].
      intros [= <- <-]. by destruct ctx.
    + intros [= <- <-]. by destruct ctx.
  - intros [= <- <-]. split; [done|]. by intros e [= <-].
Qed.

Lemma compile_batch_query_error stmts ctx msg span code ctx1 :
  compile_batch stmts ctx = (Raise (QueryError msg span code), ctx1) ->
  span = None /\ code = Some ERROR_DATA_EXCEPTION.
Proof.
  unfold compile_batch.
  destruct (compile_ast_to_ir _ _) as [ir_stmt|e0].
  - destruct (_merge_and_prepare_external_rels _ _ _) as [[rels irs]|e1].
    + destruct (compile_ir_to_sql_tree _ _ _) as [[ast|e2] counter]; simpl.
      * done.
      * destruct e2; simpl; intros [= ]; by subst.
    + destruct e1; simpl; intros [= ]; by subst.
  - destruct e0; simpl; intros [= ]; by subst.
Qed.

(** X16. A query error that leaves [_compile_preprocessed_dml] always
    carries the code [ERROR_DATA_EXCEPTION] and no source position,
    whichever stage of the compiler raised it and whatever position and
    code it had: the partition after the [try] block raises no query
    error. *)
Theorem compile_preprocessed_dml_query_errors stmts ctx msg span code ctx' :
  _compile_preprocessed_dml stmts ctx
    = (Raise (QueryError msg span code), ctx') ->
  span = None /\ code = Some ERROR_DATA_EXCEPTION.
Proof.
  unfold _compile_preprocessed_dml, mbind, M_bind.
  destruct (compile_batch stmts ctx) as [[[ast irs]|e] ctx1] eqn:Hb.
  - destruct ast as [q| |]; [|done..].
    destruct (truthy (pgast.ctes q)); [|done].
    unfold lift. intros [= Hp _].
    apply partition_ctes_Raise in Hp as [Hp|[p Hp]]; discriminate.
  - intros [= -> <-]. by eapply compile_batch_query_error.
Qed.

(** X17. [_compile_preprocessed_dml] leaves the context as it found it,
    the alias generator apart, which it lends to the second stage of the
    compiler: it stores no entry and buffers no CTE itself.  When the first
    stage fails, the context is untouched altogether and the failure is
    the reclassified one. *)
Theorem compile_preprocessed_dml_frame stmts ctx r ctx' :
  _compile_preprocessed_dml stmts ctx = (r, ctx') ->
  same_but_aliases ctx ctx'
  /\ forall e,
       compile_ast_to_ir (merged_ql_stmt stmts) (merged_options stmts)
         = Raise e ->
       ctx' = ctx /\ r = reclassify (Raise e).
Proof.
  unfold _compile_preprocessed_dml, mbind, M_bind.
  destruct (compile_batch stmts ctx) as [[[ast irs]|e] ctx1] eqn:Hb.
  - apply compile_batch_frame in Hb as [Hsame Hfail].
    intros Hr. assert (ctx' = ctx1) as ->.
    { destruct ast as [q| |]; [destruct (truthy (pgast.ctes q))|..];
        by injection Hr. }
    split; [done|]. intros e He. destruct (Hfail e He) as [_ Hok].
    by destruct e.
  - apply compile_batch_frame in Hb as [Hsame Hfail].
    intros [= <- <-]. split; [done|]. intros e0 He.
    destruct (Hfail e0 He) as [Hc Hr]. split; [done|].
    by destruct e0; simpl in *; injection Hr as ->.
Qed.

(** X18. Every entry that [_compile_preprocessed_dml] returns belongs to
    one of the preprocessed statements: it is stored under the node of the
    statement's input, repeats the value CTE name, value relation, value
    columns and iterator name of its early result, and names as output
    relation the last CTE of its group. *)
Theorem compiled_entries_carry_early_results stmts ctx result rest ctx' n c :
  _compile_preprocessed_dml stmts ctx = (Ok (result, rest), ctx') ->
  result !! n = Some c ->
  exists stmt,
    stmt ∈ stmts /\ pgast.node (input stmt) = n /\ entry_of stmt c.
Proof.
  unfold _compile_preprocessed_dml. intros Hc Hn.
  apply M_bind_Ok in Hc as ([ast ir_stmts] & ctx1 & _ & Hc).
  destruct ast as [q| |]; [|done..].
  destruct (truthy (pgast.ctes q)); [|done].
  apply lift_Ok in Hc as [Hp _].
  destruct (partition_ctes_entries _ _ _ _ _ _ _ Hp Hn)
    as [Hempty|(stmt & ir & Hin & Hnode & Hentry)].
  - by rewrite lookup_empty in Hempty.
  - exists stmt. split; [|done]. by apply elem_of_zip_l in Hin.
Qed.

(** X19. A statement that is no query, or a query that neither is an
    [INSERT] nor has one as the query of an immediate CTE, costs nothing:
    [compile_dml] returns no CTE and leaves the context as it is, whatever
    the compiler would do. *)
Theorem compile_dml_without_inserts top ctx :
  (forall q, top = pgast.BaseQuery q ->
     (forall s, q <> pgast.InsertStmt s)
     /\ forall cte s, cte ∈ default [] (pgast.ctes q) ->
          pgast.query cte <> pgast.InsertStmt s) ->
  compile_dml top ctx = (Ok [], ctx).
Proof.
  intros Hno. unfold compile_dml.
  destruct (_collect_dml_stmts top) as [|s l] eqn:Hc; [done|].
  exfalso.
  assert (s ∈ _collect_dml_stmts top) as Hs
    by (rewrite Hc; apply list_elem_of_here).
  apply collect_dml_stmts_spec in Hs as (q & -> & [->|(cte & Hin & Hq)]).
  - destruct (Hno _ eq_refl) as [Hq _]. by apply (Hq s).
  - destruct (Hno _ eq_refl) as [_ Hq']. by apply (Hq' cte s).
Qed.

End CompilerFacts.

(** ** Merging the external relations *)

Lemma find_mutating_stmt_Raise element e :
  find_mutating_stmt element = Raise e ->
  e = NotImplementedError "cannot find mutating stmt".
Proof. induction element; simpl; try done. by intros [= <-]. Qed.

Lemma merge_external_rels_found by_name pairs rels irs rels' irs' :
  merge_external_rels by_name pairs rels irs = Ok (rels', irs') ->
  exists new,
    irs' = irs ++ new
    /\ Forall2 (fun name ir =>
                  exists element,
                    dict_get name by_name = Some element
                    /\ find_mutating_stmt element = Ok ir)
         pairs.*2 new.
Proof.
  revert rels irs. induction pairs as [|[stmt name] pairs IH];
    intros rels irs; simpl.
  - intros [= _ <-]. exists []. by rewrite app_nil_r.
  - destruct (dict_get name by_name) as [element|] eqn:Hel; [|done].
    intros Hb. apply Result_bind_Ok in Hb as ([id p] & Hfind & Hb).
    apply IH in Hb as (new & -> & Hall).
    exists ((id, p) :: new). rewrite <- app_assoc. split; [done|].
    constructor; [by exists element | done].
Qed.

Lemma merge_external_rels_Raise by_name pairs rels irs e :
  merge_external_rels by_name pairs rels irs = Raise e -> merge_exception e.
Proof.
  revert rels irs. induction pairs as [|[stmt name] pairs IH];
    intros rels irs; simpl; [done|].
  destruct (dict_get name by_name) as [element|];
    [|intros [= <-]; right; by left].
  destruct (find_mutating_stmt element) as [[id p]|e'] eqn:Hf; simpl.
  - apply IH.
  - intros [= <-]. apply find_mutating_stmt_Raise in Hf as ->.
    right. by right.
Qed.

Lemma snd_zip_take {A B} (l : list A) (k : list B) :
  (zip l k).*2 = take (length l) k.
Proof.
  revert k. induction l as [|x l IH]; intros [|y k]; simpl; try done.
  by rewrite IH.
Qed.

(** X20. When [_merge_and_prepare_external_rels] succeeds, the IR is a
    select with a non-empty result shape, and the mutating statements it
    returns are, one per preprocessed statement and in statement order,
    those reached from the shape element entered under the statement's
    name by descending through select and pointer wrappers. *)
Theorem merge_and_prepare_finds_named_elements ir_stmt stmts names rels irs :
  _merge_and_prepare_external_rels ir_stmt stmts names = Ok (rels, irs) ->
  exists result_expr ir_shape,
    irast.expr ir_stmt = irast.SelectStmt result_expr ir_shape
    /\ ir_shape <> []
    /\ Forall2 (fun name ir =>
                  exists element,
                    dict_get name (shape_elements_by_name ir_shape)
                      = Some element
                    /\ find_mutating_stmt element = Ok ir)
         (take (length stmts) names) irs.
Proof.
  unfold _merge_and_prepare_external_rels.
  destruct (irast.expr ir_stmt) as [| result_expr ir_shape | |]; try done.
  case_bool_decide as Hshape; [done|]. intros Hm.
  apply merge_external_rels_found in Hm as (new & -> & Hall).
  exists result_expr, ir_shape. split; [done|]. split; [done|].
  by rewrite snd_zip_take in Hall.
Qed.

(** X21. [_merge_and_prepare_external_rels] fails in three ways only: the
    assertion on the shape of the IR, the [KeyError] of a statement name
    that no shape element carries, and [NotImplementedError] when the
    descent from a shape element meets a node that is neither a select nor
    a pointer before it meets a mutating statement.  None is a query error,
    so the [except] clause around the call lets them pass unchanged. *)
Theorem merge_and_prepare_failures ir_stmt stmts names e :
  _merge_and_prepare_external_rels ir_stmt stmts names = Raise e ->
  merge_exception e
  /\ reclassify (Raise e : Result (ExternalRels * list (nat * PathId)))
     = Raise e.
Proof.
  intros Hm. assert (merge_exception e) as He.
  { revert Hm. unfold _merge_and_prepare_external_rels.
    destruct (irast.expr ir_stmt) as [| result_expr ir_shape | |];
      try (intros [= <-]; by left).
    case_bool_decide; [intros [= <-]; by left|].
    apply merge_external_rels_Raise. }
  split; [done|]. by destruct He as [->|[->| ->]].
Qed.




(** ** Wiring: the value projection *)

Section ValueFacts.
Context `{Schema} `{Collaborators}.

Lemma zip_target_names (f : context.Column -> bool -> pgast.BaseExpr)
    (cols : list context.Column) (vcs : list (string * bool)) :
  map pgast.rt_name
    (map (fun '(val_col, (ptr_name, cast_to_uuid)) =>
            pgast.mkResTarget (Some ptr_name) (f val_col cast_to_uuid))
       (zip cols vcs))
  = map Some (take (length cols) vcs.*1).
Proof.
  revert vcs. induction cols as [|c cols IH]; intros [|[n b] vcs]; simpl;
    try done.
  by rewrite IH.
Qed.

(** X23. The projection wrapped around the value relation names its
    targets after the value columns, in order and as far as the value
    relation has columns, and always ends with the iterator column under
    the precomputed iterator name. *)
Theorem value_target_list_names compiled_dml val_table :
  map pgast.rt_name (value_target_list compiled_dml val_table)
  = map Some
      (take (length (context.columns val_table))
         (context.value_columns compiled_dml).*1)
    ++ [Some (context.value_iterator_name compiled_dml)].
Proof.
  unfold value_target_list. rewrite map_app. simpl. f_equal.
  apply (zip_target_names
           (fun val_col (cast_to_uuid : bool) =>
              if cast_to_uuid
              then pgast.TypeCast
                     (resolve_column_kind val_table (context.kind val_col))
                     ["uuid"]
              else resolve_column_kind val_table (context.kind val_col))).
Qed.

(** X24. When the value relation of a compiled statement resolves to a
    table whose number of columns differs from the number of value
    columns, [resolve_InsertStmt] fails with the query error that reports
    both numbers and the expected names at the position of the value
    relation, without an error code; the context is the one the resolution
    of the value relation left, nothing having been buffered since. *)
Theorem resolve_InsertStmt_column_count_mismatch stmt include_inherited ctx
    compiled val_rel val_table ctx1 :
  (subquery_depth ctx < 2)%Z ->
  compiled_dml ctx !! pgast.node stmt = Some compiled ->
  resolve_value_relation compiled ctx = (Ok (val_rel, val_table), ctx1) ->
  length (context.value_columns compiled)
    <> length (context.columns val_table) ->
  resolve_InsertStmt stmt include_inherited ctx
  = (Raise
       (QueryError
          ("INSERT expected "
             ++ pretty (length (context.value_columns compiled))
             ++ " columns, but got "
             ++ pretty (length (context.columns val_table))
             ++ " (expecting "
             ++ String.concat ", " (context.value_columns compiled).*1
             ++ ")")
          (pgast.span (context.value_relation_input compiled)) None),
     ctx1).
Proof.
  intros Hd Hc Hv Hlen.
  rewrite resolve_InsertStmt_unfold, Hc.
  rewrite bool_decide_eq_false_2 by lia.
  unfold wire_compiled_dml. rewrite (M_bind_step _ _ _ _ _ Hv).
  by rewrite bool_decide_eq_false_2.
Qed.

End ValueFacts.

(** ** COPY *)

Section CopyFacts.
Context `{Collaborators} `{Dispatch}.

Lemma pull_columns_named_names table names cols :
  names <> [] ->
  _pull_columns_from_table table (Some names) = Ok cols ->
  map context.name cols = names.*1.
Proof.
  intros Hne. rewrite (pull_columns_from_table_named _ _ Hne).
  intros Hp. apply pull_named_Ok in Hp as (new & -> & Hall). simpl.
  clear Hne. induction Hall as [|[n sp] c names new Hc _ IH]; simpl; [done|].
  apply build_col_map_Some in Hc as [_ ->]. by rewrite IH.
Qed.

(** X25. The statement that [resolve_CopyStmt] returns names no relation
    and no columns any more and keeps the direction, the program flag, the
    file name and the options of its argument.  Its query carries as CTEs
    exactly what the buffer of the context held once the [WHERE] clause
    was resolved, whatever CTEs the query had before, and the buffer is
    left empty. *)
Theorem resolve_CopyStmt_result stmt ctx res ctx' :
  resolve_CopyStmt stmt ctx = (Ok res, ctx') ->
  copy_relation res = None /\ copy_colnames res = None
  /\ copy_is_from res = copy_is_from stmt
  /\ copy_is_program res = copy_is_program stmt
  /\ copy_filename res = copy_filename stmt
  /\ copy_options res = copy_options stmt
  /\ ctes_buffer ctx' = []
  /\ exists query ctx1 ctx2,
       dispatch_resolve_opt (copy_where_clause stmt) ctx1
         = (Ok (copy_where_clause res), ctx2)
       /\ copy_query res = Some query
       /\ pgast.ctes query = Some (ctes_buffer ctx2)
       /\ ctx' = set_ctes_buffer [] ctx2.
Proof.
  unfold resolve_CopyStmt. intros Hr.
  apply M_bind_Ok in Hr as (query & ctx1 & _ & Hr).
  apply M_bind_Ok in Hr as (where_ & ctx2 & Hw & Hr).
  apply M_bind_Ok in Hr as (ctes & ctx3 & Ht & Hr).
  injection Ht as <- <-. injection Hr as <- <-. simpl.
  repeat (split; [done|]).
  exists (pgast.set_ctes (Some (ctes_buffer ctx2)) query), ctx1, ctx2.
  split; [done|]. split; [done|]. split; [apply ctes_set_ctes | done].
Qed.

(** X26. A [COPY] that has a query resolves the query and nothing else:
    the relation, the column names and the position of the statement play
    no part in the outcome. *)
Theorem resolve_CopyStmt_query_first stmt q rel colnames span ctx :
  copy_query stmt = Some q ->
  resolve_CopyStmt stmt ctx
  = resolve_CopyStmt
      (mkCopyStmt rel colnames (Some q) (copy_is_from stmt)
         (copy_is_program stmt) (copy_filename stmt) (copy_options stmt)
         (copy_where_clause stmt) span) ctx.
Proof. unfold resolve_CopyStmt. by intros ->. Qed.

(** X27. A [COPY] of a relation never names the relation directly: its
    query is a select from the resolved relation under a fresh [rel]
    alias, projecting one target per selected column.  The selected
    columns are the named ones in the order given, when the statement
    names columns, and the non-hidden columns of the table in table order
    otherwise. *)
Theorem resolve_CopyStmt_relation stmt rel ctx res ctx' :
  copy_query stmt = None ->
  copy_relation stmt = Some rel ->
  resolve_CopyStmt stmt ctx = (Ok res, ctx') ->
  exists relation table ctx1 selected s,
    dispatch_resolve_named rel ctx = (Ok (relation, table), ctx1)
    /\ copy_query res = Some (pgast.SelectStmt s)
    /\ pgast.from_clause s
       = [pgast.FromRelRangeVar
            (pgast.mkRelRangeVar relation
               (pgast.mkAlias
                  (Some (alias_name "rel" (alias_counter ctx1)))))]
    /\ map pgast.rt_val (pgast.target_list s)
       = map (fun c =>
                resolve_column_kind
                  (set_reference_as (alias_name "rel" (alias_counter ctx1))
                     table)
                  (context.kind c)) selected
    /\ map context.name selected
       = if truthy (copy_colnames stmt)
         then default [] (copy_colnames stmt)
         else map context.name
                (filter (fun c => context.hidden c = false)
                   (context.columns table)).
Proof.
  unfold resolve_CopyStmt. intros -> -> Hr.
  apply M_bind_Ok in Hr as (query & ctx3 & Hq & Hr).
  apply M_bind_Ok in Hq as ([relation table] & ctx1 & Hrel & Hq).
  apply M_bind_Ok in Hq as (reference_as & ctx2 & Halias & Hq).
  injection Halias as <- <-.
  apply M_bind_Ok in Hq as (selected & ctx2' & Hpull & Hq).
  apply lift_Ok in Hpull as [Hpull ->]. injection Hq as <- <-.
  apply M_bind_Ok in Hr as (where_ & ctx4 & _ & Hr).
  apply M_bind_Ok in Hr as (ctes & ctx5 & _ & Hr).
  injection Hr as <- _.
  eexists relation, table, ctx1, selected, _. simpl.
  split; [done|]. split; [reflexivity|]. simpl.
  split; [done|]. split; [by rewrite map_map|].
  unfold copy_col_names in Hpull.
  destruct (truthy (copy_colnames stmt)) eqn:Ht.
  - apply pull_columns_named_names in Hpull.
    + rewrite Hpull. rewrite <- list_fmap_compose. apply list_fmap_id.
    + by destruct (copy_colnames stmt) as [[|c cs]|].
  - by injection Hpull as <-.
Qed.

(** X28. A [COPY] with neither query nor relation fails with the assertion
    error, before anything is resolved and with the context untouched. *)
Theorem resolve_CopyStmt_without_source stmt ctx :
  copy_query stmt = None ->
  copy_relation stmt = None ->
  resolve_CopyStmt stmt ctx
  = (Raise (AssertionError "CopyStmt must either have relation or query set"),
     ctx).
Proof. unfold resolve_CopyStmt. by intros -> ->. Qed.

(** X29. A [COPY] of a relation that names a column the table lacks fails
    with the query error "column <name> does not exist" for the first such
    name, at the position of the whole statement; the [WHERE] clause is
    not resolved and the CTE buffer is not extracted, only the alias of
    the relation has been drawn. *)
Theorem resolve_CopyStmt_unknown_column stmt rel ctx relation table ctx1
    pre n post :
  copy_query stmt = None ->
  copy_relation stmt = Some rel ->
  dispatch_resolve_named rel ctx = (Ok (relation, table), ctx1) ->
  copy_colnames stmt = Some (pre ++ n :: post) ->
  (forall k, k ∈ pre -> has_column_named table k) ->
  ~ has_column_named table n ->
  resolve_CopyStmt stmt ctx
  = (Raise (QueryError ("column " ++ n ++ " does not exist") (copy_span stmt)
              None),
     set_alias_counter (S (alias_counter ctx1)) ctx1).
Proof.
  intros Hq Hrel Hres Hcols Hpre Hn. unfold resolve_CopyStmt.
  rewrite Hq, Hrel. apply M_bind_Raise.
  rewrite (M_bind_step _ _ _ _ _ Hres). simpl.
  unfold mbind, M_bind, alias_get, lift. simpl.
  unfold copy_col_names. rewrite Hcols.
  assert (truthy (Some (pre ++ n :: post)) = true) as ->
    by (by destruct pre).
  simpl. rewrite map_app. simpl.
  rewrite pull_columns_from_table_named by (by destruct pre). simpl.
  rewrite (pull_named_missing _ _ n (copy_span stmt)); [done|..].
  - intros k Hk. rewrite <- list_fmap_compose in Hk.
    rewrite list_fmap_id in Hk.
    by apply (build_col_map_is_Some table), Hpre.
  - apply eq_None_not_Some. intros Hs.
    by apply Hn, (build_col_map_is_Some table).
Qed.

End CopyFacts.

(** ** RETURNING *)

Section ReturningFacts.
Context `{Schema} `{Collaborators}.


End ReturningFacts.

(** * Further closed instances *)

Section Runs.
Import Example Cases Scenarios.
#[local] Existing Instance schema.
#[local] Existing Instance collaborators.
#[local] Existing Instance compiler.
#[local] Existing Instance dispatch.

Lemma normaliser_leaves_no_default_witness :
  exists vr expected' q',
    _preprocess_insert_value (Some default_first_column) None
      [col "a" false; col "b" false] = Ok (vr, expected', q')
    /\ forall s',
         vr = pgast.SelectStmt s' \/ q' = Some (pgast.SelectStmt s') ->
         free_of_default (pgast.values s').
Proof.
  eexists _, _, _. split; [vm_compute; reflexivity|].
  eapply (normaliser_leaves_no_default (Some default_first_column) None
            [col "a" false; col "b" false]).
  vm_compute. reflexivity.
Defined.

Lemma normaliser_keeps_row_count_witness :
  exists vr expected' q' (rows' : list pgast.ImplicitRowExpr),
    _preprocess_insert_value (Some (pgast.SelectStmt default_first_rows))
      None [col "a" false; col "b" false] = Ok (vr, expected', q')
    /\ length rows' = 2.
Proof.
  pose proof (normaliser_keeps_row_count default_first_rows None
                [col "a" false; col "b" false]) as Hthm.
  edestruct Hthm as (rows' & Hlen & _); [vm_compute; reflexivity|].
  eexists _, _, _, rows'. split; [vm_compute; reflexivity | exact Hlen].
Defined.

Lemma normaliser_shrinks_alike_witness :
  exists vr expected' q',
    _preprocess_insert_value (Some (pgast.SelectStmt default_first_rows))
      None [col "a" false; col "b" false] = Ok (vr, expected', q')
    /\ length expected'
       + size (find_default_columns (pgast.values default_first_rows))
       = 2.
Proof.
  pose proof (normaliser_shrinks_alike default_first_rows None
                [col "a" false; col "b" false]) as Hthm.
  cbv zeta in Hthm.
  edestruct Hthm as [Hexp _]; [vm_compute; reflexivity|].
  eexists _, _, _. split; [vm_compute; reflexivity | exact Hexp].
Defined.

Lemma normaliser_ctes_witness :
  _preprocess_insert_value (Some select_with_cte) None [col "a" false]
  = Raise (AssertionError "").
Proof.
  apply (proj1 (proj2 (normaliser_ctes None [col "a" false]))).
  - reflexivity.
  - reflexivity.
Defined.

Lemma normaliser_exceptions_witness :
  exists e,
    _preprocess_insert_value (Some default_beyond_columns) None
      [col "a" false] = Raise e
    /\ normaliser_exception (Some default_beyond_columns) e.
Proof.
  eexists. split; [vm_compute; reflexivity|].
  apply (normaliser_exceptions (Some default_beyond_columns) None
           [col "a" false]).
  vm_compute. reflexivity.
Defined.

Lemma normaliser_identity_without_default_witness :
  _preprocess_insert_value (Some (pgast.SelectStmt one_row_values)) one_cte
    [col "a" false; col "b" false]
  = Ok (pgast.set_ctes one_cte (pgast.SelectStmt one_row_values),
        [col "a" false; col "b" false],
        Some (pgast.set_ctes one_cte (pgast.SelectStmt one_row_values))).
Proof.
  apply (normaliser_identity_without_default one_row_values).
  - intros row e Hrow He. simpl in Hrow.
    apply list_elem_of_singleton in Hrow. subst row. simpl in He.
    apply list_elem_of_singleton in He. subst e. reflexivity.
  - reflexivity.
  - reflexivity.
Defined.

Lemma get_pointer_for_column_spec_witness :
  _get_pointer_for_column (col "role" false) (Property 12)
  = Raise (AssertionError "").
Proof.
  apply (proj2 (get_pointer_for_column_spec (col "role" false) (Property 12))
           12); reflexivity.
Defined.

Lemma object_insert_assigns_value_columns_witness :
  exists res ctx' shape,
    _preprocess_insert_object_stmt insert_movies (ObjectType 1) movie_table
      [col "title" false] ctx0 = (Ok res, ctx')
    /\ insert_shape_of (ql_stmt res) = Some shape
    /\ map assigned_pointer shape
       = map (fun v => Some v.1) (context.value_columns (early_result res)).
Proof.
  pose proof (object_insert_assigns_value_columns insert_movies (ObjectType 1)
                movie_table [col "title" false] ctx0) as Hthm.
  edestruct Hthm as (vr & expected' & q' & shape & _ & _ & Hshape & _ & Hmap);
    [vm_compute; reflexivity|].
  eexists _, _, shape. split; [vm_compute; reflexivity|].
  split; [exact Hshape | exact Hmap].
Defined.

Lemma pointer_insert_value_columns_witness :
  exists res ctx',
    _preprocess_insert_pointer_stmt insert_actor (Link 2) actors_table
      (context.columns actors_table) ctx0 = (Ok res, ctx')
    /\ update_element_of (ql_stmt res) = Some ("actors", qlast.APPEND).
Proof.
  pose proof (pointer_insert_value_columns insert_actor (Link 2) actors_table
                (context.columns actors_table) ctx0) as Hthm.
  edestruct Hthm as (vr & expected' & q' & _ & _ & _ & Hupdate);
    [vm_compute; reflexivity|].
  eexists _, _. split; [vm_compute; reflexivity | exact Hupdate].
Defined.

Lemma preprocess_insert_stmt_subject_columns_witness :
  exists res ctx',
    _preprocess_insert_stmt insert_movie_returning ctx0 = (Ok res, ctx')
    /\ (subject_columns res).*1 = ["title"; "director_id"].
Proof.
  pose proof (preprocess_insert_stmt_subject_columns insert_movie_returning
                ctx0) as Hthm.
  edestruct Hthm as (rel & sub_table & ctx1 & Hres & _ & Hnames);
    [vm_compute; reflexivity|].
  eexists _, _. split; [vm_compute; reflexivity|].
  injection Hres as _ <- _. apply Hnames. discriminate.
Defined.

Lemma partition_ctes_consumes_witness :
  exists result,
    partition_ctes two_stmts interleaved_ctes ∅ = Ok (result, [])
    /\ length two_stmts + 0 <= length interleaved_ctes.
Proof.
  eexists. split; [vm_compute; reflexivity|].
  eapply (partition_ctes_consumes two_stmts interleaved_ctes ∅ _ []).
  vm_compute. reflexivity.
Defined.

Lemma partition_ctes_failures_witness :
  partition_ctes two_stmts [] ∅ = Raise IndexError.
Proof.
  apply (proj2 (partition_ctes_failures two_stmts [] ∅)). discriminate.
Defined.

Lemma compile_preprocessed_dml_frame_witness :
  exists r ctx',
    _compile_preprocessed_dml [preprocessed 1] ctx0 = (r, ctx')
    /\ same_but_aliases ctx0 ctx'.
Proof.
  pose proof (compile_preprocessed_dml_frame [preprocessed 1] ctx0) as Hthm.
  edestruct Hthm as [Hsame _]; [vm_compute; reflexivity|].
  eexists _, _. split; [vm_compute; reflexivity | exact Hsame].
Defined.

Lemma compiled_entries_carry_early_results_witness :
  exists result rest ctx' c,
    _compile_preprocessed_dml [preprocessed 1] ctx0
      = (Ok (result, rest), ctx')
    /\ result !! 1 = Some c
    /\ exists stmt,
         stmt ∈ [preprocessed 1]
         /\ pgast.node (input stmt) = 1 /\ entry_of stmt c.
Proof.
  eexists _, _, _, _. split; [vm_compute; reflexivity|].
  split; [vm_compute; reflexivity|].
  eapply (compiled_entries_carry_early_results [preprocessed 1] ctx0);
    vm_compute; reflexivity.
Defined.

Lemma compile_dml_without_inserts_witness :
  compile_dml (pgast.BaseQuery one_row) ctx0 = (Ok [], ctx0).
Proof.
  apply compile_dml_without_inserts.
  intros q Hq. injection Hq as <-. split; [discriminate|].
  intros c s Hin. simpl in Hin. by apply elem_of_nil in Hin.
Defined.

Lemma merge_and_prepare_finds_named_elements_witness :
  exists rels element,
    _merge_and_prepare_external_rels one_binding [preprocessed 1] ["dml_0"]
      = Ok (rels, [(100, root)])
    /\ dict_get "dml_0"
         (shape_elements_by_name
            match irast.expr one_binding with
            | irast.SelectStmt _ ir_shape => ir_shape
            | _ => []
            end) = Some element
    /\ find_mutating_stmt element = Ok (100, root).
Proof.
  pose proof (merge_and_prepare_finds_named_elements one_binding
                [preprocessed 1] ["dml_0"]) as Hthm.
  edestruct Hthm as (result_expr & ir_shape & Hexpr & _ & Hall);
    [vm_compute; reflexivity|].
  injection Hexpr as _ <-.
  apply Forall2_cons_1 in Hall as [(element & Hel & Hfind) _].
  eexists _, element. split; [vm_compute; reflexivity|].
  split; [exact Hel | exact Hfind].
Defined.

Lemma merge_and_prepare_failures_witness :
  _merge_and_prepare_external_rels one_binding [preprocessed 1] ["dml_1"]
    = Raise KeyError
  /\ merge_exception KeyError.
Proof.
  split; [vm_compute; reflexivity|].
  apply (merge_and_prepare_failures one_binding [preprocessed 1] ["dml_1"]).
  vm_compute. reflexivity.
Defined.


Lemma resolve_InsertStmt_column_count_mismatch_witness :
  exists ctx',
    resolve_InsertStmt insert_two_values false ctx_two_values
    = (Raise
         (QueryError "INSERT expected 1 columns, but got 2 (expecting title)"
            None None), ctx').
Proof.
  pose proof (resolve_InsertStmt_column_count_mismatch insert_two_values
                false ctx_two_values) as Hthm.
  eexists. etransitivity; [eapply Hthm|].
  - vm_compute. reflexivity.
  - vm_compute. reflexivity.
  - vm_compute. reflexivity.
  - vm_compute. discriminate.
  - vm_compute. reflexivity.
Defined.

Lemma resolve_CopyStmt_result_witness :
  exists res ctx' query,
    resolve_CopyStmt copy_one_row ctx_buffered = (Ok res, ctx')
    /\ copy_relation res = None
    /\ copy_query res = Some query
    /\ ctes_buffer ctx' = [].
Proof.
  pose proof (resolve_CopyStmt_result copy_one_row ctx_buffered) as Hthm.
  edestruct Hthm
    as (Hrel & _ & _ & _ & _ & _ & Hbuf & query & ctx1 & ctx2 & _ & Hq & _);
    [vm_compute; reflexivity|].
  eexists _, _, query. split; [vm_compute; reflexivity|].
  split; [exact Hrel|]. split; [exact Hq | exact Hbuf].
Defined.

Lemma resolve_CopyStmt_query_first_witness :
  resolve_CopyStmt copy_one_row ctx0
  = resolve_CopyStmt
      (copy_of (Some (pgast.mkRelation "Movie" [])) (Some ["year"])
         (copy_query copy_one_row)) ctx0.
Proof.
  apply (resolve_CopyStmt_query_first copy_one_row
           (pgast.set_ctes one_cte one_row)
           (Some (pgast.mkRelation "Movie" [])) (Some ["year"]) (Some 5)
           ctx0).
  reflexivity.
Defined.

Lemma resolve_CopyStmt_relation_witness :
  exists res ctx' selected,
    resolve_CopyStmt copy_movies ctx0 = (Ok res, ctx')
    /\ map context.name selected = ["title"; "director_id"].
Proof.
  pose proof (resolve_CopyStmt_relation copy_movies
                (pgast.mkRelation "Movie" []) ctx0) as Hthm.
  edestruct Hthm
    as (relation & table & ctx1 & selected & s & Hres & _ & _ & _ & Hnames);
    [reflexivity | reflexivity | vm_compute; reflexivity |].
  eexists _, _, selected. split; [vm_compute; reflexivity|].
  injection Hres as _ <- _. exact Hnames.
Defined.

Lemma resolve_CopyStmt_without_source_witness :
  resolve_CopyStmt copy_nothing ctx_buffered
  = (Raise (AssertionError "CopyStmt must either have relation or query set"),
     ctx_buffered).
Proof.
  apply (resolve_CopyStmt_without_source copy_nothing ctx_buffered);
    reflexivity.
Defined.

Lemma resolve_CopyStmt_unknown_column_witness :
  resolve_CopyStmt copy_movies_year ctx0
  = (Raise (QueryError "column year does not exist" (Some 5) None),
     set_alias_counter 1 ctx0).
Proof.
  apply (resolve_CopyStmt_unknown_column copy_movies_year
           (pgast.mkRelation "Movie" []) ctx0 (pgast.mkRelation "Movie" [])
           movie_table ctx0 ["title"] "year" []).
  - reflexivity.
  - reflexivity.
  - reflexivity.
  - reflexivity.
  - intros k Hk. apply list_elem_of_singleton in Hk. subst k.
    exists (col "title" false).
    split; [apply list_elem_of_further, list_elem_of_here | reflexivity].
  - intros (c & Hin & Hname). simpl in Hin.
    repeat (apply elem_of_cons in Hin as [->|Hin]; [discriminate|]).
    by apply elem_of_nil in Hin.
Defined.


(** An [INSERT] in the [WITH] clause of a CTE-level [INSERT] is reachable
    in the top-level query but is not collected: after [compile_dml] the
    mapping has an entry for the CTE-level statement and none for the
    inner one, and the inner one, visited at depth 1, fails with
    [KeyError]. *)
Lemma nested_insert_has_no_entry :
  exists ctes ctx',
    compile_dml (pgast.BaseQuery nested_insert_query) ctx0 = (Ok ctes, ctx')
    /\ reachable_insert inner_insert nested_insert_query
    /\ _collect_dml_stmts (pgast.BaseQuery nested_insert_query)
       = [outer_insert]
    /\ is_Some (compiled_dml ctx' !! pgast.node outer_insert)
    /\ compiled_dml ctx' !! pgast.node inner_insert = None
    /\ ~ every_reachable_insert_has_entry nested_insert_query ctx'
    /\ resolve_InsertStmt inner_insert false (set_subquery_depth 1 ctx')
       = (Raise KeyError, set_subquery_depth 1 ctx').
Proof.
  assert (reachable_insert inner_insert nested_insert_query) as Hreach.
  { eapply reachable_cte; [apply list_elem_of_here|]. simpl.
    eapply reachable_cte; [apply list_elem_of_here|]. simpl.
    apply reachable_here. }
  eexists _, _. split; [vm_compute; reflexivity|].
  split; [exact Hreach|]. split; [reflexivity|].
  split; [vm_compute; by eexists|].
  assert (forall ctx,
            compiled_dml ctx !! pgast.node inner_insert = None ->
            ~ every_reachable_insert_has_entry nested_insert_query ctx)
    as Hnot.
  { intros ctx Hnone Hall. specialize (Hall inner_insert Hreach).
    rewrite Hnone in Hall. by destruct Hall. }
  split; [vm_compute; reflexivity|].
  split; [apply Hnot; vm_compute; reflexivity|].
  vm_compute. reflexivity.
Qed.

End Runs.

Section FailingRuns.
Import Example Cases Scenarios.
#[local] Existing Instance failing_compiler.

Lemma compile_preprocessed_dml_query_errors_witness :
  exists msg span code ctx',
    _compile_preprocessed_dml [preprocessed 1] ctx0
      = (Raise (QueryError msg span code), ctx')
    /\ span = None /\ code = Some ERROR_DATA_EXCEPTION.
Proof.
  eexists _, _, _, _. split; [vm_compute; reflexivity|].
  eapply (compile_preprocessed_dml_query_errors [preprocessed 1] ctx0).
  vm_compute. reflexivity.
Defined.

End FailingRuns.
